(** * StatArb-Engine: a shallow embedding of the analytical pipeline

    The Python sources (pair_selector.py, signal_generator.py,
    backtester.py, performance.py) are embedded as Rocq functions.

    - Python/NumPy [float64] values are Rocq primitive floats (IEEE 754
      binary64, one NaN), so NaN, the infinities, signed zeros and
      rounding are the ones of the program.  Integer columns are [Z].
    - A pandas Series is the list of its values in index order.  The
      index is unique and increasing, and the frames of one run share
      it, so a timestamp is identified with its position.  A DataFrame is
      a record of columns.
    - A loop [for i in range(n)] that writes [df.loc[df.index[i], c] = v]
      is a left fold over [seq 0 n] whose state holds the columns, the
      write being a list insert at position [i].
    - The statistics of pandas and statsmodels whose numerics are not
      part of the sources (window statistics, correlation, cointegration
      test, regressions) are parameters; the reductions mean, std, min,
      max, idxmin, idxmax, cumprod, diff and pct_change are written out
      with their treatment of NaN, sums in the order in which NumPy
      adds (pairwise from eight terms on).
    - Exceptions are [None] (or an error value) in the result; printing
      is left out.
    - The stages are given twice: as functions on values, on which the
      properties of their results are proved, and as programs on a store
      of objects with references, which allocate, copy and assign as the
      sources do.  The second form tells what a call does to the objects
      it is handed; it is proved to compute the first. *)

From Stdlib Require Import ZArith Floats Lia Bool.
From stdpp Require Import base list strings.

Set Warnings "-inexact-float".

(** ** Floats *)

(** Conversion of a Python [int] to [float64] (round to nearest even). *)
Definition float_of_Z (z : Z) : float :=
  SF2Prim (binary_normalize prec emax z 0 false).

(** NaN, the missing value of a float column. *)
Definition fnan : float := nan.

(** Reading a Series by position; a label missing from a column is NaN
    after pandas' index alignment. *)
Definition fget (l : list float) (i : nat) : float := nth i l fnan.
Definition zget (l : list Z) (i : nat) : Z := nth i l 0%Z.

Global Arguments fget : simpl never.
Global Arguments zget : simpl never.

(** ** signal_generator.py *)

Record SignalGenerator := {
  entry_threshold : float;
  exit_threshold : float;
  stop_loss : float;
  lookback_window : option nat
}.

(** The DataFrame built by [generate_signals]. *)
Record Signals := mkSignals {
  spread : list float;
  zscore : list float;
  position : list Z;
  entry_signal : list Z;
  exit_signal : list Z
}.

Definition set_position (i : nat) (v : Z) (s : Signals) : Signals :=
  mkSignals (spread s) (zscore s) (<[i:=v]> (position s))
            (entry_signal s) (exit_signal s).
Definition set_entry_signal (i : nat) (v : Z) (s : Signals) : Signals :=
  mkSignals (spread s) (zscore s) (position s)
            (<[i:=v]> (entry_signal s)) (exit_signal s).
Definition set_exit_signal (i : nat) (v : Z) (s : Signals) : Signals :=
  mkSignals (spread s) (zscore s) (position s)
            (entry_signal s) (<[i:=v]> (exit_signal s)).

(** The local variables of the loop of [generate_signals]. *)
Record LoopState := mkLoop {
  current_position : Z;
  entry_zscore : float;
  signals : Signals
}.

Section SignalGeneration.

(** pandas' window statistics ([expanding()] and [rolling(window)],
    [mean()] and [std()]) are library code: they are parameters. *)
Variables expanding_mean expanding_std : list float -> list float.
Variables rolling_mean rolling_std : nat -> list float -> list float.

(** [calculate_zscore]: [(spread - mean) / std], element by element on
    the index of [spread]. *)
Definition calculate_zscore (sp : list float) (lookback : option nat)
  : list float :=
  let mean := match lookback with
              | None => expanding_mean sp
              | Some w => rolling_mean w sp
              end in
  let std := match lookback with
             | None => expanding_std sp
             | Some w => rolling_std w sp
             end in
  imap (fun i x => ((x - fget mean i) / fget std i)%float) sp.

(** One iteration of [for i in range(len(signals))]. *)
Definition loop_body (g : SignalGenerator) (st : LoopState) (i : nat)
  : LoopState :=
  let z := fget (zscore (signals st)) i in
  let cur := current_position st in
  if (cur =? 0)%Z then
    if (z <? - entry_threshold g)%float then
      mkLoop 1 z (set_position i 1 (set_entry_signal i 1 (signals st)))
    else if (entry_threshold g <? z)%float then
      mkLoop (-1) z
             (set_position i (-1) (set_entry_signal i (-1) (signals st)))
    else st
  else if (cur =? 1)%Z then
    if (z <? - stop_loss g)%float then
      mkLoop 0 (entry_zscore st)
             (set_position i 0 (set_exit_signal i 1 (signals st)))
    else if (- exit_threshold g <? z)%float then
      mkLoop 0 (entry_zscore st)
             (set_position i 0 (set_exit_signal i 1 (signals st)))
    else
      mkLoop cur (entry_zscore st) (set_position i 1 (signals st))
  else if (cur =? -1)%Z then
    if (stop_loss g <? z)%float then
      mkLoop 0 (entry_zscore st)
             (set_position i 0 (set_exit_signal i 1 (signals st)))
    else if (z <? exit_threshold g)%float then
      mkLoop 0 (entry_zscore st)
             (set_position i 0 (set_exit_signal i 1 (signals st)))
    else
      mkLoop cur (entry_zscore st) (set_position i (-1) (signals st))
  else st.

(** The columns before the loop: [position], [entry_signal] and
    [exit_signal] are all 0. *)
Definition initial_signals (g : SignalGenerator) (sp : list float)
  : Signals :=
  let n := length sp in
  mkSignals sp (calculate_zscore sp (lookback_window g))
            (replicate n 0%Z) (replicate n 0%Z) (replicate n 0%Z).

Definition initial_state (g : SignalGenerator) (sp : list float)
  : LoopState :=
  mkLoop 0 0%float (initial_signals g sp).

(** The loop state after the first [k] iterations. *)
Definition run_loop (g : SignalGenerator) (sp : list float) (k : nat)
  : LoopState :=
  fold_left (loop_body g) (seq 0 k) (initial_state g sp).

Definition generate_signals (g : SignalGenerator) (sp : list float)
  (hedge_ratio : float) : Signals :=
  signals (run_loop g sp (length sp)).

End SignalGeneration.

(** ** pandas / NumPy reductions used by the sources *)

(** [ndarray.sum()] on a float64 array is NumPy's add reduction, which
    adds pairwise in blocks:
    - fewer than 8 terms are added from the left, starting from -0.0;
    - up to 128 terms go into eight accumulators, by position modulo 8
      and as long as eight terms are left; the accumulators are added
      as a balanced tree and the terms left over (fewer than 8) are
      added to that total from the left;
    - a longer array is cut at the largest multiple of 8 that is at most
      half its length, and the sums of the two parts are added.
    [depth] bounds the number of cuts; the length of the array is
    always enough. *)
Definition sum_from (acc : float) (l : list float) : float :=
  fold_left (fun a x => (a + x)%float) l acc.

Fixpoint accumulate8 (r l : list float) : list float * list float :=
  match l with
  | a0 :: a1 :: a2 :: a3 :: a4 :: a5 :: a6 :: a7 :: l' =>
      accumulate8
        (zip_with (fun a b => (a + b)%float) r [a0; a1; a2; a3; a4; a5; a6; a7])
        l'
  | _ => (r, l)
  end.

Definition tree8 (r : list float) : float :=
  match r with
  | [r0; r1; r2; r3; r4; r5; r6; r7] =>
      (((r0 + r1) + (r2 + r3)) + ((r4 + r5) + (r6 + r7)))%float
  | _ => fnan   (* not reached: there are eight accumulators *)
  end.

Definition block_sum (l : list float) : float :=
  let '(r, rest) := accumulate8 (take 8 l) (drop 8 l) in
  sum_from (tree8 r) rest.

Fixpoint pairwise_sum (depth : nat) (l : list float) : float :=
  let n := length l in
  if (n <? 8)%nat then sum_from neg_zero l
  else if (n <=? 128)%nat then block_sum l
  else match depth with
       | O => block_sum l   (* not reached when [n <= depth] *)
       | S d =>
           let n2 := (n / 2 - (n / 2) mod 8)%nat in
           (pairwise_sum d (take n2 l) + pairwise_sum d (drop n2 l))%float
       end.

(** The reduction itself starts from -0.0, the identity of the
    addition; the sum of an empty array is 0.0. *)
Definition np_sum (l : list float) : float :=
  match l with
  | [] => 0%float
  | _ => (neg_zero + pairwise_sum (length l) l)%float
  end.

Definition float_of_nat (n : nat) : float := float_of_Z (Z.of_nat n).

Definition count_valid (l : list float) : nat :=
  length (filter (fun x => is_nan x = false) l).

(** [Series.mean()] with [skipna=True]: NaN entries count as 0 in the sum
    and are left out of the count; no valid entry gives NaN. *)
Definition series_mean (l : list float) : float :=
  let c := count_valid l in
  if (c =? 0)%nat then fnan
  else (np_sum (map (fun x => if is_nan x then 0 else x) l)
        / float_of_nat c)%float.

(** [Series.std()] with [skipna=True], [ddof=1]: at most one valid entry
    gives NaN. *)
Definition series_std (l : list float) : float :=
  let c := count_valid l in
  if (c <=? 1)%nat then fnan
  else
    let avg := (np_sum (map (fun x => if is_nan x then 0 else x) l)
                / float_of_nat c)%float in
    let sqr := map (fun x => if is_nan x then 0
                             else ((avg - x) * (avg - x)))%float l in
    PrimFloat.sqrt (np_sum sqr / float_of_nat (c - 1))%float.

(** [np.min] / [np.argmin] on an array without NaN: the first smallest
    entry. *)
Fixpoint argmin_from (bi : nat) (b : float) (i : nat) (l : list float)
  : nat * float :=
  match l with
  | [] => (bi, b)
  | x :: r => if (x <? b)%float then argmin_from i x (S i) r
              else argmin_from bi b (S i) r
  end.

Fixpoint argmax_from (bi : nat) (b : float) (i : nat) (l : list float)
  : nat * float :=
  match l with
  | [] => (bi, b)
  | x :: r => if (b <? x)%float then argmax_from i x (S i) r
              else argmax_from bi b (S i) r
  end.

Definition all_nan (l : list float) : bool := forallb is_nan l.

Definition fill_nan (v : float) (l : list float) : list float :=
  map (fun x => if is_nan x then v else x) l.

(** [Series.min()], [Series.max()], [Series.idxmin()] and
    [Series.idxmax()] with [skipna=True]: NaN is replaced by the neutral
    infinity; a Series with no valid entry gives NaN, respectively
    raises. *)
Definition series_min (l : list float) : float :=
  if all_nan l then fnan
  else match fill_nan infinity l with
       | [] => fnan
       | x :: r => snd (argmin_from 0 x 1 r)
       end.

Definition series_max (l : list float) : float :=
  if all_nan l then fnan
  else match fill_nan neg_infinity l with
       | [] => fnan
       | x :: r => snd (argmax_from 0 x 1 r)
       end.

Definition idxmin (l : list float) : option nat :=
  if all_nan l then None
  else match fill_nan infinity l with
       | [] => None
       | x :: r => Some (fst (argmin_from 0 x 1 r))
       end.

Definition idxmax (l : list float) : option nat :=
  if all_nan l then None
  else match fill_nan neg_infinity l with
       | [] => None
       | x :: r => Some (fst (argmax_from 0 x 1 r))
       end.

(** [Series.expanding().max()]: the largest valid entry so far (the
    latest one among equals), NaN while there is none. *)
Fixpoint expanding_max_from (m : option float) (l : list float)
  : list float :=
  match l with
  | [] => []
  | x :: r =>
      let m' := if is_nan x then m
                else match m with
                     | None => Some x
                     | Some b => if (b <=? x)%float then Some x else Some b
                     end in
      match m' with None => fnan | Some b => b end
      :: expanding_max_from m' r
  end.

Definition expanding_max (l : list float) : list float :=
  expanding_max_from None l.

(** [np.cumprod]. *)
Fixpoint cumprod_from (acc : float) (l : list float) : list float :=
  match l with
  | [] => []
  | x :: r => let a := (acc * x)%float in a :: cumprod_from a r
  end.

Definition np_cumprod (l : list float) : list float :=
  match l with
  | [] => []
  | x :: r => x :: cumprod_from x r
  end.

(** [Series.cumprod()] with [skipna=True]: NaN entries are multiplied in
    as 1 and come out as NaN. *)
Definition series_cumprod (l : list float) : list float :=
  zip_with (fun x p => if is_nan x then fnan else p)
           l (np_cumprod (fill_nan 1%float l)).

(** [Series.pct_change()] on a gap-free column. *)
Definition pct_change (l : list float) : list float :=
  imap (fun i x => match i with
                   | O => fnan
                   | S j => (x / fget l j - 1)%float
                   end) l.

(** [Series.diff().abs()] on an integer column: the result is float64,
    NaN in the first row. *)
Definition diff_abs (l : list Z) : list float :=
  imap (fun i p => match i with
                   | O => fnan
                   | S j => PrimFloat.abs
                              (float_of_Z p - float_of_Z (zget l j))%float
                   end) l.

(** Assigning a Series to a column of a frame with [n] rows. *)
Definition align (n : nat) (l : list float) : list float :=
  map (fget l) (seq 0 n).

(** ** backtester.py *)

Record Backtester := {
  initial_capital : float;
  transaction_cost : float;
  slippage_rate : float   (* [self.slippage] *)
}.

(** A price table: the columns in order, each a symbol and its prices.
    pandas lets several columns carry one label. *)
Definition PriceTable := list (string * list float).

(** The columns that carry the label [s]. *)
Definition labelled (prices : list (string * list float)) (s : string)
  : list (string * list float) :=
  filter (fun c => c.1 = s) prices.

(** [prices[s]] used as a Series.  A label that no column carries
    raises KeyError.  A label that several columns carry selects a
    DataFrame: assigning it or its [pct_change()] to one column raises
    ValueError, and [corr] raises on it. *)
Definition column (prices : PriceTable) (s : string) : option (list float) :=
  match labelled prices s with
  | [c] => Some c.2
  | _ => None
  end.

(** The frame returned by [calculate_returns]: the signal columns and
    the ones added to the copy. *)
Record Results := mkResults {
  base : Signals;
  symbol1_returns : list float;
  symbol2_returns : list float;
  position_change : list float;
  strategy_return : list float;
  transaction_costs : list float;
  slippage : list float;
  net_return : list float;
  cumulative_return : list float;
  portfolio_value : list float
}.

(** One iteration of [for i in range(1, len(results))]; the state is
    the column [strategy_return]. *)
Definition returns_body (pos : list Z) (r1 r2 : list float)
  (col : list float) (i : nat) : list float :=
  let prev_pos := zget pos (i - 1) in
  if (prev_pos =? 0)%Z then <[i:=0%float]> col
  else
    let spread_return :=
      if (prev_pos =? 1)%Z then (fget r2 i - fget r1 i)%float
      else (fget r1 i - fget r2 i)%float in
    <[i:=spread_return]> col.

(** The body of [calculate_returns] once the two price columns have
    been read. *)
Definition returns_of_columns (bt : Backtester) (sg : Signals)
  (p1 p2 : list float) : Results :=
  let n := length (position sg) in
  let r1 := align n (pct_change p1) in
  let r2 := align n (pct_change p2) in
  let pc := diff_abs (position sg) in
  let sr := fold_left (returns_body (position sg) r1 r2)
                      (seq 1 (n - 1)) (replicate n 0%float) in
  let tc := map (fun c => (c * transaction_cost bt)%float) pc in
  let sl := map (fun c => (c * slippage_rate bt)%float) pc in
  let net := zip_with (fun a s => (a - s)%float)
                      (zip_with (fun r c => (r - c)%float) sr tc) sl in
  let cum := map (fun p => (p - 1)%float)
                 (series_cumprod (map (fun r => (1 + r)%float) net)) in
  let pv := map (fun c => (initial_capital bt * (1 + c))%float) cum in
  mkResults sg r1 r2 pc sr tc sl net cum pv.

Definition calculate_returns (bt : Backtester) (sg : Signals)
  (symbol1 symbol2 : string) (prices : PriceTable) : option Results :=
  match column prices symbol1, column prices symbol2 with
  | Some p1, Some p2 => Some (returns_of_columns bt sg p1 p2)
  | _, _ => None   (* KeyError, or ValueError for a repeated label *)
  end.

(** ** performance.py *)

(** A Python [int] operand of a float operation is converted to float,
    rounding to nearest even: OverflowError ([None]) for an integer
    that rounds beyond the largest float64, that is from
    2^1024 - 2^970 on in absolute value. *)
Definition py_float (p : Z) : option float :=
  if (Z.abs p <? 2 ^ 1024 - 2 ^ 970)%Z then Some (float_of_Z p) else None.

(** [x / p] for a Python float and a Python [int]: ZeroDivisionError
    for [p = 0]. *)
Definition py_float_div (x : float) (p : Z) : option float :=
  f ← py_float p;
  if (p =? 0)%Z then None else Some (x / f)%float.

(** [np.sqrt(p)] for a Python [int]: NumPy has a loop for the integers
    of int64 and uint64 only, and raises TypeError for the others; the
    root of a negative number is NaN. *)
Definition np_sqrt_int (p : Z) : option float :=
  if (- 2 ^ 63 <=? p)%Z && (p <? 2 ^ 64)%Z
  then Some (PrimFloat.sqrt (float_of_Z p))
  else None.

(** [calculate_sortino_ratio].  The quotient
    [risk_free_rate / periods_per_year] is taken before the guard and
    [np.sqrt(periods_per_year)] after it. *)
Definition calculate_sortino_ratio (returns : list float)
  (risk_free_rate : float) (periods_per_year : Z) : option float :=
  if (length returns =? 0)%nat then Some 0%float
  else
    per_period ← py_float_div risk_free_rate periods_per_year;
    let excess_returns := map (fun r => (r - per_period)%float) returns in
    let downside_returns :=
      filter (fun x => (x <? 0)%float = true) excess_returns in
    if (length downside_returns =? 0)%nat
       || (series_std downside_returns =? 0)%float
    then Some (if (0 <? series_mean excess_returns)%float
               then infinity else 0%float)
    else
      root ← np_sqrt_int periods_per_year;
      Some (root * series_mean excess_returns
            / series_std downside_returns)%float.

(** The dictionary returned by [calculate_max_drawdown]; dates are
    positions in the index. *)
Record Drawdown := mkDrawdown {
  max_drawdown : float;
  peak_date : nat;
  trough_date : nat;
  recovery_date : option nat;
  peak_value : float;
  trough_value : float
}.

(** [recovery_series[recovery_mask].index[0]], as an offset into
    [recovery_series]. *)
Fixpoint first_at_least (peak : float) (l : list float) : option nat :=
  match l with
  | [] => None
  | x :: r => if (peak <=? x)%float then Some O
              else option_map S (first_at_least peak r)
  end.

Definition drawdown_series (pv : list float) : list float :=
  zip_with (fun v m => ((v - m) / m)%float) pv (expanding_max pv).

(** The index of a Series decides what [s[:key]] means when [key] comes
    from [idxmin]: on an index of timestamps (unique and increasing,
    the index of the pipeline) the key is a label and the slice
    includes it; on the default index of a Series built without one,
    the RangeIndex 0, 1, 2, ..., the key is a position and the slice
    stops before it.  Other indexes are not modelled. *)
Inductive IndexKind := TimestampIndex | RangeIndex.

Definition slice_until (kind : IndexKind) (p : nat) (l : list float)
  : list float :=
  match kind with
  | TimestampIndex => take (S p) l
  | RangeIndex => take p l
  end.

(** [calculate_max_drawdown].  [portfolio_value[max_drawdown_idx:]]
    starts at the trough for both kinds of index.  [idxmin] and
    [idxmax] raise on a Series without a valid entry ([None]). *)
Definition calculate_max_drawdown (kind : IndexKind) (pv : list float)
  : option Drawdown :=
  let drawdown := drawdown_series pv in
  let mdd := series_min drawdown in
  match idxmin drawdown with
  | None => None
  | Some max_drawdown_pos =>
      match idxmax (slice_until kind max_drawdown_pos pv) with
      | None => None
      | Some peak_idx =>
          let pk := fget pv peak_idx in
          let recovery_idx :=
            if (max_drawdown_pos <? length pv - 1)%nat
            then option_map (fun j => max_drawdown_pos + j)
                            (first_at_least pk (drop max_drawdown_pos pv))
            else None in
          Some (mkDrawdown mdd peak_idx max_drawdown_pos recovery_idx
                           pk (fget pv max_drawdown_pos))
      end
  end.

(** ** pair_selector.py *)

(** The dictionary describing a candidate pair. *)
Record PairInfo := mkPair {
  symbol1 : string;
  symbol2 : string;
  correlation : float;
  cointegration_pvalue : float;
  cointegration_score : float;
  hedge_ratio : float;
  spread_mean : float;
  spread_std : float;
  half_life : float;
  pair_spread : list float   (* key ['spread'] *)
}.

Record PairSelector := mkSelector {
  pvalue_threshold : float;
  pairs : list PairInfo
}.

Record SpreadStats := mkStats {
  stat_mean : float;
  stat_std : float;
  min_zscore : float;
  max_zscore : float;
  stat_half_life : float
}.

Inductive error := ValueError (msg : string).

Definition no_pairs_message : string :=
  "No suitable pairs found. Try:
- Different stocks (e.g., same sector ETFs)
- Lower correlation threshold
- Longer time period".

(** [itertools.combinations(symbols, 2)]. *)
Fixpoint combinations2 {A} (l : list A) : list (A * A) :=
  match l with
  | [] => []
  | x :: r => map (pair x) r ++ combinations2 r
  end.

(** [list.sort(key=...)]: stable, comparing keys with [<] only.  An
    element moves behind those that came after it only when one of them
    is strictly smaller.  On keys that [<] orders as a strict weak order
    (numbers, none of them NaN) there is one stable ascending
    arrangement, the one [list.sort] returns and the one computed here.
    With a NaN among the keys the arrangement Python returns depends on
    the comparisons its merge sort makes and is not described by this
    definition.  The p-value of an accepted pair is never NaN, since it
    has passed a comparison with the threshold; the statements on the
    order of the lenient list assume correlations that are not NaN. *)
Fixpoint insert_by {A} (lt : A -> A -> bool) (x : A) (l : list A) : list A :=
  match l with
  | [] => [x]
  | y :: r => if lt y x then y :: insert_by lt x r else x :: y :: r
  end.

Definition sort_by {A} (lt : A -> A -> bool) (l : list A) : list A :=
  fold_right (insert_by lt) [] l.

Definition pvalue_lt (a b : PairInfo) : bool :=
  (cointegration_pvalue a <? cointegration_pvalue b)%float.

(** Keys [(-abs(correlation), pvalue)] compared as Python tuples. *)
Definition corr_pvalue_lt (a b : PairInfo) : bool :=
  let ka := (- PrimFloat.abs (correlation a))%float in
  let kb := (- PrimFloat.abs (correlation b))%float in
  if (ka =? kb)%float
  then (cointegration_pvalue a <? cointegration_pvalue b)%float
  else (ka <? kb)%float.

Definition ln2 : float := 0.6931471805599453%float.   (* [np.log(2)] *)

Section PairSelection.

(** The statistics of pandas and statsmodels are library code; each
    is a parameter and [None] stands for a raised exception.
    [corr x y] is [x.corr(y)]; [coint x y] gives the score and the
    p-value of [coint(x, y)]; [ols_slope y x] is
    [OLS(y, {x, const}).fit().params['x']]; [ols_theta y x] is
    [OLS(y, x).fit().params.iloc[0]]. *)
Variable corr : list float -> list float -> option float.
Variable coint : list float -> list float -> option (float * float).
Variable ols_slope : list float -> list float -> option float.
Variable ols_theta : list float -> list float -> option float.

Definition calculate_half_life (sp : list float) : option float :=
  let spread_lag := imap (fun i _ => match i with
                                     | O => fnan
                                     | S j => fget sp j
                                     end) sp in
  let spread_diff := zip_with (fun a b => (a - b)%float) sp spread_lag in
  let valid := zip_with (fun a b => negb (is_nan a || is_nan b))
                        spread_lag spread_diff in
  let keep (l : list float) :=
    omap (fun p : bool * float => if p.1 then Some p.2 else None)
         (zip valid l) in
  let lag := keep spread_lag in
  let dif := keep spread_diff in
  if (length lag <? 2)%nat then Some infinity
  else
    theta ← ols_theta dif lag;
    if (0 <=? theta)%float then Some infinity
    else Some (- ln2 / theta)%float.

Definition calculate_spread_stats (sp : list float) : option SpreadStats :=
  let mean := series_mean sp in
  let std := series_std sp in
  let z_scores := map (fun x => ((x - mean) / std)%float) sp in
  hl ← calculate_half_life sp;
  Some (mkStats mean std (series_min z_scores) (series_max z_scores) hl).

(** The body of the [try] for one pair of symbols, up to the test on
    the p-value; [bound] is [self.pvalue_threshold] or [max_pvalue]. *)
Definition test_pair (prices : PriceTable) (min_correlation bound : float)
  (s1 s2 : string) : option (PairInfo * SpreadStats) :=
  p1 ← column prices s1;
  p2 ← column prices s2;
  c ← corr p1 p2;
  if (PrimFloat.abs c <? min_correlation)%float then None
  else
    '(score, pvalue) ← coint p1 p2;
    if (pvalue <? bound)%float then
      h ← ols_slope p2 p1;
      let sp := zip_with (fun b a => (b - h * a)%float) p2 p1 in
      st ← calculate_spread_stats sp;
      Some (mkPair s1 s2 c pvalue score h (stat_mean st) (stat_std st)
                   (stat_half_life st) sp, st)
    else None.

(** [find_cointegrated_pairs]: the list returned and the selector
    after the call ([self.pairs] is assigned). *)
Definition find_cointegrated_pairs (self : PairSelector)
  (prices : PriceTable) (min_correlation : float)
  : list PairInfo * PairSelector :=
  let symbols := map fst prices in
  let cointegrated_pairs :=
    omap (fun ss : string * string =>
            fst <$> test_pair prices min_correlation
                              (pvalue_threshold self) ss.1 ss.2)
         (combinations2 symbols) in
  let sorted := sort_by pvalue_lt cointegrated_pairs in
  (sorted, mkSelector (pvalue_threshold self) sorted).

Definition find_correlation_based_pairs (prices : PriceTable)
  (min_correlation max_pvalue : float) : list PairInfo :=
  let symbols := map fst prices in
  let candidate_pairs :=
    omap (fun ss : string * string =>
            '(info, st) ← test_pair prices min_correlation max_pvalue
                                    ss.1 ss.2;
            if (stat_half_life st <? 252)%float
               && (0 <? stat_half_life st)%float
            then Some info else None)
         (combinations2 symbols) in
  sort_by corr_pvalue_lt candidate_pairs.

Definition select_best_pair (self : PairSelector) (prices : PriceTable)
  (min_correlation : float) (use_fallback : bool)
  : (error + PairInfo) * PairSelector :=
  let '(found, self') :=
    find_cointegrated_pairs self prices min_correlation in
  let found :=
    match found with
    | [] =>
        if use_fallback then
          match find_correlation_based_pairs prices min_correlation
                                             0.20%float with
          | [] => find_correlation_based_pairs prices 0.6%float 0.30%float
          | l => l
          end
        else found
    | _ => found
    end in
  match found with
  | [] => (inl (ValueError no_pairs_message), self')
  | best_pair :: _ => (inr best_pair, self')
  end.

End PairSelection.

(** ** signal_generator.py: position sizes *)

(** The frame returned by [get_position_sizes]: the signal columns and
    the two columns of shares.  With [symbol1 = symbol2] both names are
    one column of the frame: the two fields then hold the same list. *)
Record PositionSizes := mkSizes {
  sized : Signals;
  symbol1_shares : list float;
  symbol2_shares : list float
}.

(** [prices[symbol].iloc[i]] can be evaluated: KeyError when no column
    carries the label, IndexError past the end. *)
Definition readable (prices : PriceTable) (s : string) (i : nat) : bool :=
  match labelled prices s with
  | [] => false
  | cols => forallb (fun c => (i <? length c.2)%nat) cols
  end.

(** [prices[symbol].iloc[i]] as a price: with several columns of that
    label it is a row of prices, which no cell of a share column takes
    (ValueError on the write). *)
Definition price_at (prices : PriceTable) (s : string) (i : nat)
  : option float :=
  col ← column prices s; col !! i.

(** Writing one cell of a share column; [same] tells that the two
    column names coincide. *)
Definition set_shares1 (same : bool) (i : nat) (v : float)
  (c : list float * list float) : list float * list float :=
  (<[i:=v]> c.1, if same then <[i:=v]> c.2 else c.2).

Definition set_shares2 (same : bool) (i : nat) (v : float)
  (c : list float * list float) : list float * list float :=
  (if same then <[i:=v]> c.1 else c.1, <[i:=v]> c.2).

(** One iteration of [for i in range(len(positions))]; the prices are
    read only on a row with a position, and used only on a long or a
    short row. *)
Definition sizes_body (pos : list Z) (symbol1 symbol2 : string)
  (prices : PriceTable) (capital : float)
  (st : option (list float * list float)) (i : nat)
  : option (list float * list float) :=
  c ← st;
  let p := zget pos i in
  if (p =? 0)%Z then Some c
  else
    let leg_capital := (capital / 2)%float in
    let same := String.eqb symbol1 symbol2 in
    if readable prices symbol1 i && readable prices symbol2 i then
      if (p =? 1)%Z then
        price1 ← price_at prices symbol1 i;
        price2 ← price_at prices symbol2 i;
        Some (set_shares1 same i (- leg_capital / price1)%float
                (set_shares2 same i (leg_capital / price2)%float c))
      else if (p =? -1)%Z then
        price1 ← price_at prices symbol1 i;
        price2 ← price_at prices symbol2 i;
        Some (set_shares1 same i (leg_capital / price1)%float
                (set_shares2 same i (- leg_capital / price2)%float c))
      else Some c
    else None.

Definition get_position_sizes (sg : Signals) (symbol1 symbol2 : string)
  (prices : PriceTable) (capital : float) : option PositionSizes :=
  let n := length (position sg) in
  c ← fold_left (sizes_body (position sg) symbol1 symbol2 prices capital)
                (seq 0 n) (Some (replicate n 0%float, replicate n 0%float));
  Some (mkSizes sg c.1 c.2).

(** ** backtester.py: the summary of a backtest *)

(** [Series.sum()] with [skipna=True]: NaN entries count as 0 and an
    empty Series sums to 0. *)
Definition series_sum (l : list float) : float :=
  np_sum (fill_nan 0%float l).

(** [Series.abs().sum()] on an integer column. *)
Definition abs_sum (l : list Z) : Z :=
  fold_left (fun acc x => (acc + Z.abs x)%Z) l 0%Z.

(** The dictionary returned by [run_backtest]. *)
Record Backtest := mkBacktest {
  results : Results;
  total_return : float;
  final_value : float;
  total_trades : Z;
  total_costs : float;
  backtest_capital : float   (* key ['initial_capital'] *)
}.

(** [run_backtest].  [.iloc[-1]] raises IndexError on an empty column
    ([None]). *)
Definition run_backtest (bt : Backtester) (sg : Signals)
  (symbol1 symbol2 : string) (prices : PriceTable) : option Backtest :=
  res ← calculate_returns bt sg symbol1 symbol2 prices;
  total ← last (cumulative_return res);
  final ← last (portfolio_value res);
  let entries := abs_sum (entry_signal (base res)) in
  let costs := (series_sum (transaction_costs res)
                + series_sum (slippage res))%float in
  Some (mkBacktest res total final entries costs (initial_capital bt)).

(** ** performance.py: the other ratios and the summary *)

(** [calculate_sharpe_ratio]: the guard comes before the quotient
    [risk_free_rate / periods_per_year]. *)
Definition calculate_sharpe_ratio (returns : list float)
  (risk_free_rate : float) (periods_per_year : Z) : option float :=
  if (length returns =? 0)%nat || (series_std returns =? 0)%float
  then Some 0%float
  else
    per_period ← py_float_div risk_free_rate periods_per_year;
    let excess_returns := map (fun r => (r - per_period)%float) returns in
    root ← np_sqrt_int periods_per_year;
    Some (root * series_mean excess_returns / series_std returns)%float.

(** [calculate_calmar_ratio]; the product
    [returns.mean() * periods_per_year] converts the Python [int] to
    float64. *)
Definition calculate_calmar_ratio (kind : IndexKind) (returns : list float)
  (pv : list float) (periods_per_year : Z) : option float :=
  periods ← py_float periods_per_year;
  let annual_return := (series_mean returns * periods)%float in
  d ← calculate_max_drawdown kind pv;
  let max_dd := PrimFloat.abs (max_drawdown d) in
  if (max_dd =? 0)%float
  then Some (if (0 <? annual_return)%float then infinity else 0%float)
  else Some (annual_return / max_dd)%float.

Definition calculate_win_rate (returns : list float) : float :=
  if (length returns =? 0)%nat then 0%float
  else (float_of_nat
          (length (filter (fun x => (0 <? x)%float = true) returns))
        / float_of_nat (length returns))%float.

Definition calculate_profit_factor (returns : list float) : float :=
  let gross_profit :=
    series_sum (filter (fun x => (0 <? x)%float = true) returns) in
  let gross_loss :=
    PrimFloat.abs
      (series_sum (filter (fun x => (x <? 0)%float = true) returns)) in
  if (gross_loss =? 0)%float
  then (if (0 <? gross_profit)%float then infinity else 0%float)
  else (gross_profit / gross_loss)%float.

(** The dictionary returned by [analyze_performance]. *)
Module Metrics.
Record t := mk {
  total_return : float;
  annual_return : float;
  annual_volatility : float;
  sharpe_ratio : float;
  sortino_ratio : float;
  calmar_ratio : float;
  max_drawdown : float;
  peak_date : nat;
  trough_date : nat;
  recovery_date : option nat;
  win_rate : float;
  profit_factor : float;
  total_days : nat;
  trading_days : nat;
  days_in_market : float
}.
End Metrics.

(** [analyze_performance] on a frame whose index has kind [kind]; the
    two ratios are called with their default [risk_free_rate = 0.0]. *)
Definition analyze_performance (kind : IndexKind) (res : Results)
  (periods_per_year : Z) : option Metrics.t :=
  let returns := net_return res in
  let pv := portfolio_value res in
  total ← last (cumulative_return res);
  periods ← py_float periods_per_year;
  let annual := (series_mean returns * periods)%float in
  root ← np_sqrt_int periods_per_year;
  let volatility := (series_std returns * root)%float in
  sharpe ← calculate_sharpe_ratio returns 0%float periods_per_year;
  sortino ← calculate_sortino_ratio returns 0%float periods_per_year;
  drawdown_info ← calculate_max_drawdown kind pv;
  calmar ← calculate_calmar_ratio kind returns pv periods_per_year;
  let days := length (position (base res)) in
  let trading :=
    length (filter (fun p => p <> 0%Z) (position (base res))) in
  Some (Metrics.mk total annual volatility sharpe sortino calmar
          (max_drawdown drawdown_info) (peak_date drawdown_info)
          (trough_date drawdown_info) (recovery_date drawdown_info)
          (calculate_win_rate returns) (calculate_profit_factor returns)
          days trading
          (if (0 <? days)%nat
           then (float_of_nat trading / float_of_nat days)%float
           else 0%float)).

(** ** main.py *)

(** How [main] ends, up to the analysis (the plots that follow are
    left out): the message of the fetching step, the message of the
    selection step, an exception that leaves [main], or the analysed
    backtest. *)
Inductive Outcome :=
| FetchError
| PairError (e : error)
| Raised
| Analysed (best_pair : PairInfo) (sg : Signals)
           (backtest_results : Backtest) (metrics : Metrics.t).

(** The configuration of [main]. *)
Definition ENTRY_THRESHOLD : float := 2.0.
Definition EXIT_THRESHOLD : float := 0.5.
Definition STOP_LOSS : float := 3.0.
Definition INITIAL_CAPITAL : float := 100000.
Definition TRANSACTION_COST : float := 0.001.
Definition SLIPPAGE : float := 0.0005.

(** The objects [main] builds: [PairSelector(pvalue_threshold=0.05)],
    [SignalGenerator] with its default [lookback_window = 60], and
    [Backtester]. *)
Definition selector : PairSelector := mkSelector 0.05%float [].

Definition signal_gen : SignalGenerator :=
  {| entry_threshold := ENTRY_THRESHOLD; exit_threshold := EXIT_THRESHOLD;
     stop_loss := STOP_LOSS; lookback_window := Some 60 |}.

Definition backtester : Backtester :=
  {| initial_capital := INITIAL_CAPITAL;
     transaction_cost := TRANSACTION_COST; slippage_rate := SLIPPAGE |}.

(** [len(prices)]: the rows of a frame, read on its first column. *)
Definition frame_length (prices : PriceTable) : nat :=
  match prices with
  | [] => 0
  | (_, col) :: _ => length col
  end.

Section Main.

Variable corr : list float -> list float -> option float.
Variable coint : list float -> list float -> option (float * float).
Variable ols_slope : list float -> list float -> option float.
Variable ols_theta : list float -> list float -> option float.
Variables expanding_mean expanding_std : list float -> list float.
Variables rolling_mean rolling_std : nat -> list float -> list float.

(** [main] from the result of [fetch_data] on ([None] when it raised).
    The first [try] also prints [prices.index[0]], which raises on a
    frame without rows; the second one turns every exception of
    [select_best_pair] into a message.  The frames carry the index of
    timestamps of the fetched prices. *)
Definition main (fetched : option PriceTable) : Outcome :=
  match fetched with
  | None => FetchError
  | Some prices =>
      if (frame_length prices =? 0)%nat then FetchError
      else
        match (select_best_pair corr coint ols_slope ols_theta
                 selector prices 0.7%float true).1 with
        | inl e => PairError e
        | inr best_pair =>
            let sg :=
              generate_signals expanding_mean expanding_std
                rolling_mean rolling_std signal_gen
                (pair_spread best_pair) (hedge_ratio best_pair) in
            match run_backtest backtester sg (symbol1 best_pair)
                    (symbol2 best_pair) prices with
            | None => Raised
            | Some backtest_results =>
                match analyze_performance TimestampIndex
                        (results backtest_results) 252 with
                | None => Raised
                | Some metrics =>
                    Analysed best_pair sg backtest_results metrics
                end
            end
        end
  end.

End Main.

(** * The stages as programs on a store of objects *)

(** ** Objects, references and the store *)

(** The stages hand each other references to mutable pandas and Python
    objects.  To tell what a call does to them, the objects live in a
    store and the stages of this part are programs on the store. *)

(** A column of a DataFrame of signals or results: float64 or int64. *)
Inductive Column := FloatColumn (l : list float) | IntColumn (l : list Z).

(** The labelled columns of such a frame, in order. *)
Definition Frame := list (string * Column).

Fixpoint get_column (f : Frame) (c : string) : option Column :=
  match f with
  | [] => None
  | (c', v) :: r => if String.eqb c' c then Some v else get_column r c
  end.

(** [df[c] = v]: the column is replaced where it stands or added last. *)
Fixpoint set_column (f : Frame) (c : string) (v : Column) : Frame :=
  match f with
  | [] => [(c, v)]
  | (c', v') :: r =>
      if String.eqb c' c then (c', v) :: r else (c', v') :: set_column r c v
  end.

Definition ref := nat.

Inductive Object :=
| Series (values : list float)
| Prices (table : PriceTable)
| DataFrame (rows : nat) (columns : Frame)
| PairList (items : list PairInfo)
| Selector (threshold : float) (pairs_ref : ref).

(** The store: the object of reference [r] is at position [r]. *)
Definition Store := list Object.

(** A program on the store returns a value and the store it leaves, or
    raises ([None]). *)
Definition Run (A : Type) : Type := Store -> option (A * Store).

Definition ret {A} (a : A) : Run A := fun s => Some (a, s).

Definition raise {A} : Run A := fun _ => None.

Definition bind {A B} (m : Run A) (k : A -> Run B) : Run B :=
  fun s => match m s with
           | Some (a, s') => k a s'
           | None => None
           end.

Notation "'let*' x := m 'in' k" := (bind m (fun x => k))
  (at level 10, x name, m at level 100, k at level 200).
Notation "'let*' ' p := m 'in' k" := (bind m (fun p => k))
  (at level 10, p pattern, m at level 100, k at level 200).
Notation "m ;; k" := (bind m (fun _ => k))
  (at level 100, k at level 200, right associativity).

(** A value that may be missing: an exception of the pure part. *)
Definition lift {A} (o : option A) : Run A :=
  fun s => match o with Some a => Some (a, s) | None => None end.

(** A new object gets the next reference. *)
Definition new (o : Object) : Run ref := fun s => Some (length s, s ++ [o]).

Definition load (r : ref) : Run Object :=
  fun s => match s !! r with Some o => Some (o, s) | None => None end.

(** Mutation: the object of reference [r] becomes [o]. *)
Definition update (r : ref) (o : Object) : Run unit :=
  fun s => match s !! r with
           | Some _ => Some (tt, <[r:=o]> (s : list Object))
           | None => None
           end.

Definition series_of (r : ref) : Run (list float) :=
  let* o := load r in
  match o with Series l => ret l | _ => raise end.

Definition prices_of (r : ref) : Run PriceTable :=
  let* o := load r in
  match o with Prices p => ret p | _ => raise end.

Definition frame_of (r : ref) : Run (nat * Frame) :=
  let* o := load r in
  match o with DataFrame n f => ret (n, f) | _ => raise end.

Definition items_of (r : ref) : Run (list PairInfo) :=
  let* o := load r in
  match o with PairList l => ret l | _ => raise end.

(** [df[c]] read as a column of floats or of integers. *)
Definition floats_of (r : ref) (c : string) : Run (list float) :=
  let* '(_, f) := frame_of r in
  match get_column f c with Some (FloatColumn l) => ret l | _ => raise end.

Definition ints_of (r : ref) (c : string) : Run (list Z) :=
  let* '(_, f) := frame_of r in
  match get_column f c with Some (IntColumn l) => ret l | _ => raise end.

(** [df[c] = v]. *)
Definition assign (r : ref) (c : string) (v : Column) : Run unit :=
  let* '(n, f) := frame_of r in
  update r (DataFrame n (set_column f c v)).

(** [df.loc[df.index[i], c] = x]. *)
Definition write_float (r : ref) (c : string) (i : nat) (x : float)
  : Run unit :=
  let* l := floats_of r c in assign r c (FloatColumn (<[i:=x]> l)).

Definition write_int (r : ref) (c : string) (i : nat) (x : Z) : Run unit :=
  let* l := ints_of r c in assign r c (IntColumn (<[i:=x]> l)).

(** [df.copy()]: a new frame with the same columns. *)
Definition copy (r : ref) : Run ref :=
  let* '(n, f) := frame_of r in new (DataFrame n f).

(** [lst.append(x)]. *)
Definition append (r : ref) (x : PairInfo) : Run unit :=
  let* l := items_of r in update r (PairList (l ++ [x])).

(** [for i in l: s = body(s, i)]. *)
Fixpoint for_each {A S} (l : list A) (body : S -> A -> Run S) (s : S)
  : Run S :=
  match l with
  | [] => ret s
  | i :: l' => let* s' := body s i in for_each l' body s'
  end.

(** ** The stages as programs on the store *)

(** The column labels that depend on a symbol. *)
Definition returns_label (symbol : string) : string := symbol +:+ "_returns".
Definition shares_label (symbol : string) : string := symbol +:+ "_shares".

(** The dictionary returned by [run_backtest], its frame by
    reference. *)
Record Summary := mkSummary {
  summary_results : ref;
  summary_total_return : float;
  summary_final_value : float;
  summary_total_trades : Z;
  summary_total_costs : float;
  summary_capital : float
}.

Module Stateful.

Section Stages.

Variable corr : list float -> list float -> option float.
Variable coint : list float -> list float -> option (float * float).
Variable ols_slope : list float -> list float -> option float.
Variable ols_theta : list float -> list float -> option float.
Variables expanding_mean expanding_std : list float -> list float.
Variables rolling_mean rolling_std : nat -> list float -> list float.

(** One iteration of the loop of [generate_signals]; the state of the
    loop is [current_position] and [entry_zscore]. *)
Definition generate_signals_row (self : SignalGenerator) (signals : ref)
  (st : Z * float) (i : nat) : Run (Z * float) :=
  let '(current_position, entry_zscore) := st in
  let* zs := floats_of signals "zscore" in
  let z := fget zs i in
  if (current_position =? 0)%Z then
    if (z <? - entry_threshold self)%float then
      write_int signals "entry_signal" i 1 ;;
      write_int signals "position" i 1 ;;
      ret (1%Z, z)
    else if (entry_threshold self <? z)%float then
      write_int signals "entry_signal" i (-1) ;;
      write_int signals "position" i (-1) ;;
      ret ((-1)%Z, z)
    else ret st
  else if (current_position =? 1)%Z then
    if (z <? - stop_loss self)%float then
      write_int signals "exit_signal" i 1 ;;
      write_int signals "position" i 0 ;;
      ret (0%Z, entry_zscore)
    else if (- exit_threshold self <? z)%float then
      write_int signals "exit_signal" i 1 ;;
      write_int signals "position" i 0 ;;
      ret (0%Z, entry_zscore)
    else
      write_int signals "position" i 1 ;;
      ret st
  else if (current_position =? -1)%Z then
    if (stop_loss self <? z)%float then
      write_int signals "exit_signal" i 1 ;;
      write_int signals "position" i 0 ;;
      ret (0%Z, entry_zscore)
    else if (z <? exit_threshold self)%float then
      write_int signals "exit_signal" i 1 ;;
      write_int signals "position" i 0 ;;
      ret (0%Z, entry_zscore)
    else
      write_int signals "position" i (-1) ;;
      ret st
  else ret st.

(** [SignalGenerator.generate_signals]; the generator's attributes are
    only read. *)
Definition generate_signals (self : SignalGenerator) (spread : ref)
  (hedge_ratio : float) : Run ref :=
  let* sp := series_of spread in
  let zscore :=
    calculate_zscore expanding_mean expanding_std rolling_mean rolling_std
                     sp (lookback_window self) in
  let n := length sp in
  let* signals := new (DataFrame n []) in
  assign signals "spread" (FloatColumn sp) ;;
  assign signals "zscore" (FloatColumn zscore) ;;
  assign signals "position" (IntColumn (replicate n 0%Z)) ;;
  assign signals "entry_signal" (IntColumn (replicate n 0%Z)) ;;
  assign signals "exit_signal" (IntColumn (replicate n 0%Z)) ;;
  for_each (seq 0 n) (generate_signals_row self signals)
    (0%Z, 0%float) ;;
  ret signals.

(** One iteration of the loop of [get_position_sizes]. *)
Definition get_position_sizes_row (positions : ref)
  (symbol1 symbol2 : string) (prices : ref) (capital : float)
  (_ : unit) (i : nat) : Run unit :=
  let* position := ints_of positions "position" in
  let pos := zget position i in
  if (pos =? 0)%Z then ret tt
  else
    let leg_capital := (capital / 2)%float in
    let* table := prices_of prices in
    if readable table symbol1 i && readable table symbol2 i then
      if (pos =? 1)%Z then
        let* price2 := lift (price_at table symbol2 i) in
        write_float positions (shares_label symbol2) i
                    (leg_capital / price2)%float ;;
        let* price1 := lift (price_at table symbol1 i) in
        write_float positions (shares_label symbol1) i
                    (- leg_capital / price1)%float
      else if (pos =? -1)%Z then
        let* price2 := lift (price_at table symbol2 i) in
        write_float positions (shares_label symbol2) i
                    (- leg_capital / price2)%float ;;
        let* price1 := lift (price_at table symbol1 i) in
        write_float positions (shares_label symbol1) i
                    (leg_capital / price1)%float
      else ret tt
    else raise.

(** [SignalGenerator.get_position_sizes]. *)
Definition get_position_sizes (self : SignalGenerator) (signals : ref)
  (symbol1 symbol2 : string) (prices : ref) (capital : float) : Run ref :=
  let* positions := copy signals in
  let* '(n, _) := frame_of positions in
  assign positions (shares_label symbol1) (FloatColumn (replicate n 0%float)) ;;
  assign positions (shares_label symbol2) (FloatColumn (replicate n 0%float)) ;;
  for_each (seq 0 n)
    (get_position_sizes_row positions symbol1 symbol2 prices capital)
    tt ;;
  ret positions.

(** One iteration of the loop of [calculate_returns]. *)
Definition calculate_returns_row (results : ref) (symbol1 symbol2 : string)
  (_ : unit) (i : nat) : Run unit :=
  let* position := ints_of results "position" in
  let prev_pos := zget position (i - 1) in
  if (prev_pos =? 0)%Z then
    write_float results "strategy_return" i 0%float
  else
    let* r2 := floats_of results (returns_label symbol2) in
    let* r1 := floats_of results (returns_label symbol1) in
    let spread_return :=
      if (prev_pos =? 1)%Z then (fget r2 i - fget r1 i)%float
      else (fget r1 i - fget r2 i)%float in
    write_float results "strategy_return" i spread_return.

(** [Backtester.calculate_returns]; the backtester's attributes are
    only read. *)
Definition calculate_returns (self : Backtester) (signals : ref)
  (symbol1 symbol2 : string) (prices : ref) : Run ref :=
  let* results := copy signals in
  let* '(n, _) := frame_of results in
  let* table := prices_of prices in
  let* p1 := lift (column table symbol1) in
  assign results (returns_label symbol1)
         (FloatColumn (align n (pct_change p1))) ;;
  let* p2 := lift (column table symbol2) in
  assign results (returns_label symbol2)
         (FloatColumn (align n (pct_change p2))) ;;
  let* position := ints_of results "position" in
  assign results "position_change" (FloatColumn (diff_abs position)) ;;
  assign results "strategy_return" (FloatColumn (replicate n 0%float)) ;;
  for_each (seq 1 (n - 1))
    (calculate_returns_row results symbol1 symbol2)
    tt ;;
  let* position_change := floats_of results "position_change" in
  assign results "transaction_costs"
         (FloatColumn (map (fun c => (c * transaction_cost self)%float)
                           position_change)) ;;
  assign results "slippage"
         (FloatColumn (map (fun c => (c * slippage_rate self)%float)
                           position_change)) ;;
  let* strategy_return := floats_of results "strategy_return" in
  let* transaction_costs := floats_of results "transaction_costs" in
  let* slippage := floats_of results "slippage" in
  assign results "net_return"
         (FloatColumn
            (zip_with (fun a s => (a - s)%float)
               (zip_with (fun r c => (r - c)%float)
                         strategy_return transaction_costs)
               slippage)) ;;
  let* net_return := floats_of results "net_return" in
  assign results "cumulative_return"
         (FloatColumn
            (map (fun p => (p - 1)%float)
                 (series_cumprod (map (fun r => (1 + r)%float) net_return)))) ;;
  let* cumulative_return := floats_of results "cumulative_return" in
  assign results "portfolio_value"
         (FloatColumn
            (map (fun c => (initial_capital self * (1 + c))%float)
                 cumulative_return)) ;;
  ret results.

(** [Backtester.run_backtest]. *)
Definition run_backtest (self : Backtester) (signals : ref)
  (symbol1 symbol2 : string) (prices : ref) : Run Summary :=
  let* results := calculate_returns self signals symbol1 symbol2 prices in
  let* cumulative_return := floats_of results "cumulative_return" in
  let* total_return := lift (last cumulative_return) in
  let* portfolio_value := floats_of results "portfolio_value" in
  let* final_value := lift (last portfolio_value) in
  let* entry_signal := ints_of results "entry_signal" in
  let entries := abs_sum entry_signal in
  let* transaction_costs := floats_of results "transaction_costs" in
  let* slippage := floats_of results "slippage" in
  let total_costs :=
    (series_sum transaction_costs + series_sum slippage)%float in
  ret (mkSummary results total_return final_value entries total_costs
                 (initial_capital self)).

(** [PerformanceAnalyzer.analyze_performance]: the columns are read
    and handed to the ratios, which build Series of their own. *)
Definition analyze_performance (kind : IndexKind) (results : ref)
  (periods_per_year : Z) : Run Metrics.t :=
  let* returns := floats_of results "net_return" in
  let* portfolio_value := floats_of results "portfolio_value" in
  let* cumulative_return := floats_of results "cumulative_return" in
  let* total_return := lift (last cumulative_return) in
  let* periods := lift (py_float periods_per_year) in
  let annual_return := (series_mean returns * periods)%float in
  let* root := lift (np_sqrt_int periods_per_year) in
  let annual_volatility := (series_std returns * root)%float in
  let* sharpe :=
    lift (calculate_sharpe_ratio returns 0%float periods_per_year) in
  let* sortino :=
    lift (calculate_sortino_ratio returns 0%float periods_per_year) in
  let* drawdown_info := lift (calculate_max_drawdown kind portfolio_value) in
  let* calmar :=
    lift (calculate_calmar_ratio kind returns portfolio_value
                                 periods_per_year) in
  let* '(total_days, _) := frame_of results in
  let* position := ints_of results "position" in
  let trading_days := length (filter (fun p => p <> 0%Z) position) in
  ret (Metrics.mk total_return annual_return annual_volatility sharpe
         sortino calmar
         (max_drawdown drawdown_info) (peak_date drawdown_info)
         (trough_date drawdown_info) (recovery_date drawdown_info)
         (calculate_win_rate returns) (calculate_profit_factor returns)
         total_days trading_days
         (if (0 <? total_days)%nat
          then (float_of_nat trading_days / float_of_nat total_days)%float
          else 0%float)).

(** The body of the loop of [find_cointegrated_pairs]: the [try] for
    one pair of symbols; any exception skips the pair. *)
Definition find_cointegrated_pairs_row (self : ref) (table : PriceTable)
  (min_correlation : float) (cointegrated_pairs : ref)
  (_ : unit) (ss : string * string) : Run unit :=
  let* o := load self in
  match o with
  | Selector pvalue_threshold _ =>
      match test_pair corr coint ols_slope ols_theta table
                      min_correlation pvalue_threshold ss.1 ss.2 with
      | Some (pair_info, _) => append cointegrated_pairs pair_info
      | None => ret tt
      end
  | _ => raise
  end.

(** [PairSelector.find_cointegrated_pairs]: the list is built by
    [append], sorted in place, stored in [self.pairs] and returned. *)
Definition find_cointegrated_pairs (self : ref) (prices : ref)
  (min_correlation : float) : Run ref :=
  let* table := prices_of prices in
  let symbols := map fst table in
  let* cointegrated_pairs := new (PairList []) in
  for_each (combinations2 symbols)
    (find_cointegrated_pairs_row self table min_correlation
                                 cointegrated_pairs)
    tt ;;
  let* l := items_of cointegrated_pairs in
  update cointegrated_pairs (PairList (sort_by pvalue_lt l)) ;;
  let* o := load self in
  match o with
  | Selector pvalue_threshold _ =>
      update self (Selector pvalue_threshold cointegrated_pairs) ;;
      ret cointegrated_pairs
  | _ => raise
  end.

(** The body of the loop of [find_correlation_based_pairs]. *)
Definition find_correlation_based_pairs_row (table : PriceTable)
  (min_correlation max_pvalue : float) (candidate_pairs : ref)
  (_ : unit) (ss : string * string) : Run unit :=
  match test_pair corr coint ols_slope ols_theta table
                  min_correlation max_pvalue ss.1 ss.2 with
  | Some (pair_info, spread_stats) =>
      if (stat_half_life spread_stats <? 252)%float
         && (0 <? stat_half_life spread_stats)%float
      then append candidate_pairs pair_info
      else ret tt
  | None => ret tt
  end.

(** [PairSelector.find_correlation_based_pairs]. *)
Definition find_correlation_based_pairs (self : ref) (prices : ref)
  (min_correlation max_pvalue : float) : Run ref :=
  let* table := prices_of prices in
  let symbols := map fst table in
  let* candidate_pairs := new (PairList []) in
  for_each (combinations2 symbols)
    (find_correlation_based_pairs_row table min_correlation max_pvalue
                                      candidate_pairs)
    tt ;;
  let* l := items_of candidate_pairs in
  update candidate_pairs (PairList (sort_by corr_pvalue_lt l)) ;;
  ret candidate_pairs.

(** [PairSelector.select_best_pair]; the ValueError is a value, so
    that the store it leaves can be told. *)
Definition select_best_pair (self : ref) (prices : ref)
  (min_correlation : float) (use_fallback : bool)
  : Run (error + PairInfo) :=
  let* pairs := find_cointegrated_pairs self prices min_correlation in
  let* l := items_of pairs in
  let* pairs :=
    match l with
    | [] =>
        if use_fallback then
          let* pairs :=
            find_correlation_based_pairs self prices min_correlation
                                         0.20%float in
          let* l := items_of pairs in
          match l with
          | [] => find_correlation_based_pairs self prices 0.6%float
                                               0.30%float
          | _ => ret pairs
          end
        else ret pairs
    | _ => ret pairs
    end in
  let* l := items_of pairs in
  match l with
  | [] => ret (inl (ValueError no_pairs_message))
  | best_pair :: _ => ret (inr best_pair)
  end.

End Stages.

End Stateful.

(** * Specification-side definitions *)

(** ** The signal state machine, as the specification words it *)

Definition Flat : Z := 0.
Definition Long : Z := 1.
Definition Short : Z := -1.

Definition is_state (s : Z) : Prop := s = Flat \/ s = Long \/ s = Short.

(** Whether one of the listed transitions leaves state [s] at z-score [z]. *)
Definition fires (g : SignalGenerator) (z : float) (s : Z) : bool :=
  if (s =? Flat)%Z then
    (z <? - entry_threshold g)%float || (entry_threshold g <? z)%float
  else if (s =? Long)%Z then
    (z <? - stop_loss g)%float || (- exit_threshold g <? z)%float
  else if (s =? Short)%Z then
    (stop_loss g <? z)%float || (z <? exit_threshold g)%float
  else false.

Inductive transition (g : SignalGenerator) (z : float) : Z -> Z -> Prop :=
| flat_to_long :
    (z <? - entry_threshold g)%float = true -> transition g z Flat Long
| flat_to_short :
    (entry_threshold g <? z)%float = true -> transition g z Flat Short
| long_to_flat :
    (z <? - stop_loss g)%float = true \/
    (- exit_threshold g <? z)%float = true ->
    transition g z Long Flat
| short_to_flat :
    (stop_loss g <? z)%float = true \/
    (z <? exit_threshold g)%float = true ->
    transition g z Short Flat
| unchanged s :
    fires g z s = false -> transition g z s s.

(** [z] is exactly one of the thresholds tested in state [s]. *)
Definition at_threshold (g : SignalGenerator) (z : float) (s : Z) : bool :=
  if (s =? Flat)%Z then
    (z =? - entry_threshold g)%float || (z =? entry_threshold g)%float
  else if (s =? Long)%Z then
    (z =? - stop_loss g)%float || (z =? - exit_threshold g)%float
  else if (s =? Short)%Z then
    (z =? stop_loss g)%float || (z =? exit_threshold g)%float
  else false.

(** What one iteration in state [cur] at z-score [z] leaves behind: the
    new state and the entry and exit signals of the row. *)
Definition row_effect (g : SignalGenerator) (cur : Z) (z : float)
  : Z * Z * Z :=
  if (cur =? 0)%Z then
    if (z <? - entry_threshold g)%float then (1, 1, 0)%Z
    else if (entry_threshold g <? z)%float then (-1, -1, 0)%Z
    else (0, 0, 0)%Z
  else if (cur =? 1)%Z then
    if (z <? - stop_loss g)%float || (- exit_threshold g <? z)%float
    then (0, 0, 1)%Z else (1, 0, 0)%Z
  else
    if (stop_loss g <? z)%float || (z <? exit_threshold g)%float
    then (0, 0, 1)%Z else (-1, 0, 0)%Z.

(** The three written cells of row [i]. *)
Definition row (s : Signals) (i : nat) : Z * Z * Z :=
  (zget (position s) i, zget (entry_signal s) i, zget (exit_signal s) i).

(** ** Classes of binary64 values *)

Definition sf_finite (x : spec_float) : bool :=
  match x with
  | S754_zero _ | S754_finite _ _ _ => true
  | _ => false
  end.

Definition sf_nan (x : spec_float) : bool :=
  match x with S754_nan => true | _ => false end.

(** ** Backtest quantities, as the specification words them *)

(** The single-period simple percentage return of a price column. *)
Definition simple_return (p : list float) (t : nat) : float :=
  (fget p t / fget p (t - 1) - 1)%float.

(** The compounded product of [1 + net_return[k]] over the rows
    [1 <= k <= t], multiplied in timestamp order. *)
Definition compounded (net : list float) (t : nat) : float :=
  fold_left (fun acc r => (acc * (1 + r))%float) (take t (drop 1 net))
            1%float.


(** Positions are the three states of the signal record. *)
Definition valid_positions (pos : list Z) : Prop :=
  forall i, i < length pos -> is_state (zget pos i).

(** The value written to [strategy_return] by iteration [i]. *)
Definition strategy_value (pos : list Z) (r1 r2 : list float) (i : nat)
  : float :=
  if (zget pos (i - 1) =? 0)%Z then 0%float
  else if (zget pos (i - 1) =? 1)%Z then (fget r2 i - fget r1 i)%float
  else (fget r1 i - fget r2 i)%float.

(** Row [t] earns no return, or the simple returns of both symbols at
    [t] are finite: both price columns reach [t] and neither return
    divides by 0, involves a missing or infinite price, or overflows. *)
Definition finite_returns (pos : list Z) (p1 p2 : list float) (t : nat)
  : Prop :=
  zget pos (t - 1) = 0%Z \/
  (t < length p1 /\ t < length p2 /\
   is_finite (simple_return p1 t) = true /\
   is_finite (simple_return p2 t) = true).

(** A quote of 0 on two days in a row. *)
Definition halted_prices : PriceTable :=
  [("A", [100; 0; 0; 100]%float); ("B", [100; 103; 97; 100]%float)].


(** When the correlations of a candidate list are numbers, no candidate
    ranks strictly before [b]. *)
Definition ranked_by_correlation (b : PairInfo) (l : list PairInfo) : Prop :=
  (forall y, y ∈ l -> is_nan (correlation y) = false) ->
  forall y, y ∈ l -> corr_pvalue_lt y b = false.

(** ** Pair selection, as the specification words it *)

Section PairSelectionSpec.

Variable corr : list float -> list float -> option float.
Variable coint : list float -> list float -> option (float * float).
Variable ols_slope : list float -> list float -> option float.
Variable ols_theta : list float -> list float -> option float.

(** The cascade of the specification: the strict scan, then
    min_correlation = 0.7 with max_pvalue = 0.20, then
    min_correlation = 0.6 with max_pvalue = 0.30. *)
Definition select_best_pair_spec (self : PairSelector) (prices : PriceTable)
  (min_correlation : float) (use_fallback : bool) : error + PairInfo :=
  let strict :=
    (find_cointegrated_pairs corr coint ols_slope ols_theta
                             self prices min_correlation).1 in
  let levels :=
    if use_fallback then
      [strict;
       find_correlation_based_pairs corr coint ols_slope ols_theta
                                    prices 0.7%float 0.20%float;
       find_correlation_based_pairs corr coint ols_slope ols_theta
                                    prices 0.6%float 0.30%float]
    else [strict] in
  match filter (fun l => l <> []) levels with
  | (best :: _) :: _ => inr best
  | _ => inl (ValueError no_pairs_message)
  end.

End PairSelectionSpec.

(** ** Concrete inputs *)

(** Window statistics with mean 0 and deviation 1: the z-score is the
    spread itself. *)
Definition unit_mean (l : list float) : list float := map (fun _ => 0%float) l.
Definition unit_std (l : list float) : list float := map (fun _ => 1%float) l.

Definition default_generator : SignalGenerator :=
  {| entry_threshold := 2; exit_threshold := 0.5; stop_loss := 3;
     lookback_window := None |}.

Definition sample_spread : list float := [nan; -2.5; -0.5; 0]%float.

Definition sample_signals : Signals :=
  generate_signals unit_mean unit_std (fun _ => unit_mean) (fun _ => unit_std)
                   default_generator sample_spread 1%float.

Definition sample_prices : PriceTable :=
  [("A", [100; 101; 99; 100]%float); ("B", [100; 103; 97; 100]%float)].

Definition default_backtester : Backtester :=
  {| initial_capital := 100000; transaction_cost := 0.001;
     slippage_rate := 0.0005 |}.

Definition free_backtester : Backtester :=
  {| initial_capital := 100000; transaction_cost := 0; slippage_rate := 0 |}.

Definition rising_portfolio : list float := [100; 110; 120]%float.

Definition losing_returns : list float := [-0.01; -0.01]%float.
Definition mixed_returns : list float := [0.01; -0.02; 0.03; -0.01]%float.

(** Three symbols told apart by their first price, with tabulated
    statistics: A-B has correlation 0.8 and p-value 0.1, A-C has
    correlation 0.85 and p-value 0.25, B-C is uncorrelated. *)
Definition sample_universe : PriceTable :=
  [("A", [1; 1; 1]%float); ("B", [2; 2; 2]%float); ("C", [3; 3; 3]%float)].

Definition sample_corr (x y : list float) : option float :=
  if (fget x 0 =? 1)%float && (fget y 0 =? 2)%float then Some 0.8%float
  else if (fget x 0 =? 1)%float && (fget y 0 =? 3)%float then Some 0.85%float
  else Some 0.1%float.

Definition sample_coint (x y : list float) : option (float * float) :=
  if (fget x 0 =? 1)%float && (fget y 0 =? 2)%float
  then Some ((-3)%float, 0.1%float)
  else if (fget x 0 =? 1)%float && (fget y 0 =? 3)%float
  then Some ((-2.5)%float, 0.25%float)
  else Some (0%float, 0.9%float).

Definition sample_slope (y x : list float) : option float := Some 1%float.
Definition sample_theta (y x : list float) : option float :=
  Some (-0.1)%float.

Definition strict_selector : PairSelector := mkSelector 0.05%float [].
Definition loose_selector : PairSelector := mkSelector 0.2%float [].

(** What the loop keeps true: the three written columns keep the
    length of the frame and the state is one of the three. *)
Definition loop_inv (n : nat) (st : LoopState) : Prop :=
  length (position (signals st)) = n /\
  length (entry_signal (signals st)) = n /\
  length (exit_signal (signals st)) = n /\
  is_state (current_position st).

(** ** Position sizes, row by row *)

(** The two share cells that [get_position_sizes] leaves in row [i]. *)
Definition row_shares (pos : list Z) (symbol1 symbol2 : string)
  (prices : PriceTable) (capital : float) (i : nat) : float * float :=
  let leg_capital := (capital / 2)%float in
  let same := String.eqb symbol1 symbol2 in
  match price_at prices symbol1 i, price_at prices symbol2 i with
  | Some price1, Some price2 =>
      if (zget pos i =? 1)%Z then
        ((- leg_capital / price1)%float,
         if same then (- leg_capital / price1)%float
         else (leg_capital / price2)%float)
      else if (zget pos i =? -1)%Z then
        ((leg_capital / price1)%float,
         if same then (leg_capital / price1)%float
         else (- leg_capital / price2)%float)
      else (0%float, 0%float)
  | _, _ => (0%float, 0%float)
  end.

(** Row [i] has no position, or both labels can be read there and, on
    a long or a short row, each of them gives one price. *)
Definition priced (pos : list Z) (symbol1 symbol2 : string)
  (prices : PriceTable) (i : nat) : Prop :=
  zget pos i <> 0%Z ->
  readable prices symbol1 i = true /\ readable prices symbol2 i = true /\
  (zget pos i = 1%Z \/ zget pos i = (-1)%Z ->
   is_Some (price_at prices symbol1 i) /\
   is_Some (price_at prices symbol2 i)).

(** ** Binary64 values without a minus sign *)

(** NaN, or a zero, finite number or infinity whose sign bit is clear. *)
Definition sf_unsigned (x : spec_float) : bool :=
  match x with
  | S754_zero s | S754_infinity s | S754_finite s _ _ => negb s
  | S754_nan => true
  end.

Definition unsigned (x : float) : bool := sf_unsigned (Prim2SF x).

(** The two zeros of binary64. *)
Definition is_zero (x : float) : Prop := x = 0%float \/ x = neg_zero.

(** ** Ranked lists and accepted pairs *)

(** No element ranks strictly before one that comes earlier. *)
Definition ranked {A} (lt : A -> A -> bool) (l : list A) : Prop :=
  forall i j a b, i < j -> l !! i = Some a -> l !! j = Some b ->
    lt b a = false.

(** What the body of the [try] has established for an accepted pair. *)
Definition accepted (corr : list float -> list float -> option float)
  (coint : list float -> list float -> option (float * float))
  (ols_slope ols_theta : list float -> list float -> option float)
  (prices : PriceTable) (min_correlation bound : float) (y : PairInfo)
  : Prop :=
  exists p1 p2,
    column prices (symbol1 y) = Some p1 /\
    column prices (symbol2 y) = Some p2 /\
    corr p1 p2 = Some (correlation y) /\
    (PrimFloat.abs (correlation y) <? min_correlation)%float = false /\
    coint p1 p2 = Some (cointegration_score y, cointegration_pvalue y) /\
    (cointegration_pvalue y <? bound)%float = true /\
    ols_slope p2 p1 = Some (hedge_ratio y) /\
    pair_spread y
    = zip_with (fun b a => (b - hedge_ratio y * a)%float) p2 p1 /\
    spread_mean y = series_mean (pair_spread y) /\
    spread_std y = series_std (pair_spread y) /\
    calculate_half_life ols_theta (pair_spread y) = Some (half_life y).

(** ** Frames and portfolios *)

(** Every column of the frame has [n] rows. *)
Definition rectangular (prices : PriceTable) (n : nat) : Prop :=
  forall c col, (c, col) ∈ prices -> length col = n.

(** A portfolio whose valid values are finite, nonzero and never below
    an earlier one. *)
Definition never_declines (pv : list float) : Prop :=
  forall t, t < length pv -> is_nan (fget pv t) = false ->
    is_finite (fget pv t) = true /\ (fget pv t =? 0)%float = false /\
    forall s, s < t -> is_nan (fget pv s) = false ->
      (fget pv s <=? fget pv t)%float = true.

(** ** Further concrete inputs *)

(** A spread that stays inside the entry band, and a single
    observation. *)
Definition quiet_spread : list float := [0.5; 1; -1]%float.

Definition quiet_signals : Signals :=
  generate_signals unit_mean unit_std (fun _ => unit_mean) (fun _ => unit_std)
                   default_generator quiet_spread 1%float.

Definition single_signals : Signals :=
  generate_signals unit_mean unit_std (fun _ => unit_mean) (fun _ => unit_std)
                   default_generator [0.5]%float 1%float.

(** ** The objects that the stages leave in the store *)

(** The frame of signals as an object. *)
Definition signals_frame (sg : Signals) : Frame :=
  [("spread", FloatColumn (spread sg)); ("zscore", FloatColumn (zscore sg));
   ("position", IntColumn (position sg));
   ("entry_signal", IntColumn (entry_signal sg));
   ("exit_signal", IntColumn (exit_signal sg))].

(** A loop whose body may raise, as a fold. *)
Definition fold_some {A T} (step : T -> A -> option T) (l : list A) (t : T)
  : option T :=
  fold_left (fun o a => t ← o; step t a) l (Some t).

(** [t] ends with [u]. *)
Definition ends_with (u t : string) : bool :=
  String.eqb (String.substring (String.length t - String.length u)
                        (String.length u) t) u.

(** The frame of [get_position_sizes] as an object: the columns of
    shares are set on the frame of signals, a single one when both
    symbols are the same name. *)
Definition sizes_frame (sg : Signals) (symbol1 symbol2 : string)
  (c : list float * list float) : Frame :=
  set_column
    (set_column (signals_frame sg) (shares_label symbol1) (FloatColumn c.1))
    (shares_label symbol2) (FloatColumn c.2).

(** The frame of [calculate_returns] as an object. *)
Definition results_frame (symbol1 symbol2 : string) (res : Results) : Frame :=
  fold_left (fun f (cv : string * list float) =>
               set_column f cv.1 (FloatColumn cv.2))
    [(returns_label symbol1, symbol1_returns res);
     (returns_label symbol2, symbol2_returns res);
     ("position_change", position_change res);
     ("strategy_return", strategy_return res);
     ("transaction_costs", transaction_costs res);
     ("slippage", slippage res);
     ("net_return", net_return res);
     ("cumulative_return", cumulative_return res);
     ("portfolio_value", portfolio_value res)]
    (signals_frame (base res)).

(** The dictionary of [run_backtest] with its frame at reference [r]. *)
Definition summary_of (r : ref) (b : Backtest) : Summary :=
  mkSummary r (total_return b) (final_value b) (total_trades b)
            (total_costs b) (backtest_capital b).

(** The lists that [select_best_pair] builds after the strict scan, in
    the order in which it builds them. *)
Definition fallback_lists
  (corr : list float -> list float -> option float)
  (coint : list float -> list float -> option (float * float))
  (ols_slope ols_theta : list float -> list float -> option float)
  (threshold : float) (p : PriceTable)
  (min_correlation : float) (use_fallback : bool)
  : list (list PairInfo) :=
  match (find_cointegrated_pairs corr coint ols_slope ols_theta
           (mkSelector threshold []) p min_correlation).1 with
  | [] =>
      if use_fallback then
        match find_correlation_based_pairs corr coint ols_slope ols_theta
                p min_correlation 0.20%float with
        | [] => [find_correlation_based_pairs corr coint ols_slope ols_theta
                   p min_correlation 0.20%float;
                 find_correlation_based_pairs corr coint ols_slope ols_theta
                   p 0.6%float 0.30%float]
        | l => [l]
        end
      else []
  | _ => []
  end.

(** The list that [self.pairs] refers to in a store. *)
Definition selector_pairs (s : list Object) (self : ref) : option (list PairInfo) :=
  match s !! self with
  | Some (Selector _ r) =>
      match s !! r with
      | Some (PairList l) => Some l
      | _ => None
      end
  | _ => None
  end.

(** A store with the sample universe, the list a new selector is
    constructed with, and the selector. *)
Definition sample_store : Store :=
  [Prices sample_universe; PairList []; Selector 0.20%float 1].

(** * Lemmas and theorems *)

(** ** Binary64 comparisons *)

Ltac sf_cases :=
  repeat match goal with
  | x : spec_float |- _ => destruct x as [[|]|[|]| |[|] ? ?]
  end.

Ltac cmp_solve :=
  cbn [SFcompare SFopp SFltb SFeqb SFleb negb CompOpp option_map] in *;
  change (Pos.compare_cont Eq) with Pos.compare in *;
  repeat match goal with
  | H : context [Z.compare ?a ?b] |- _ => destruct (Z.compare_spec a b)
  | |- context [Z.compare ?a ?b] => destruct (Z.compare_spec a b)
  | H : context [Pos.compare ?a ?b] |- _ => destruct (Pos.compare_spec a b)
  | |- context [Pos.compare ?a ?b] => destruct (Pos.compare_spec a b)
  end;
  cbn [CompOpp] in *;
  try congruence; try lia.

Lemma SFltb_trans x y z :
  SFltb x y = true -> SFltb y z = true -> SFltb x z = true.
Proof. unfold SFltb. sf_cases; cmp_solve. Qed.

Lemma SFltb_opp x y : SFltb (SFopp x) (SFopp y) = SFltb y x.
Proof. unfold SFltb. sf_cases; cmp_solve. Qed.

Lemma SFltb_asym x y : SFltb x y = true -> SFltb y x = false.
Proof. unfold SFltb. sf_cases; cmp_solve. Qed.

Lemma SFeqb_ltb_l x y z : SFeqb x y = true -> SFltb x z = SFltb y z.
Proof. unfold SFltb, SFeqb. sf_cases; cmp_solve. Qed.

Lemma SFeqb_ltb_r x y z : SFeqb x y = true -> SFltb z x = SFltb z y.
Proof. unfold SFltb, SFeqb. sf_cases; cmp_solve. Qed.


Lemma SFleb_ltb_trans x y z :
  SFleb x y = true -> SFltb y z = true -> SFltb x z = true.
Proof. unfold SFltb, SFleb. sf_cases; cmp_solve. Qed.

Lemma SFltb_opp_self x :
  SFltb x (SFopp x) = true -> SFltb x (S754_zero false) = true.
Proof. unfold SFltb. sf_cases; cmp_solve. Qed.

Lemma Prim2SF_nan : Prim2SF nan = S754_nan.
Proof. reflexivity. Qed.

Lemma Prim2SF_zero : Prim2SF 0%float = S754_zero false.
Proof. reflexivity. Qed.

Lemma is_nan_spec x : is_nan x = true <-> x = nan.
Proof.
  unfold is_nan. rewrite FloatAxioms.eqb_spec. split.
  - intros H. apply Prim2SF_inj. rewrite Prim2SF_nan.
    destruct (Prim2SF x) as [[|]|[|]| |[|] m e]; try reflexivity;
      revert H; unfold SFeqb; cmp_solve; discriminate.
  - intros ->. reflexivity.
Qed.

Lemma ltb_nan_l x : (nan <? x)%float = false.
Proof. rewrite FloatAxioms.ltb_spec, Prim2SF_nan. reflexivity. Qed.

Lemma ltb_nan_r x : (x <? nan)%float = false.
Proof.
  rewrite FloatAxioms.ltb_spec, Prim2SF_nan. unfold SFltb.
  destruct (Prim2SF x) as [[|]|[|]| |[|] m e]; reflexivity.
Qed.

Lemma ltb_trans x y z :
  (x <? y)%float = true -> (y <? z)%float = true -> (x <? z)%float = true.
Proof. rewrite !FloatAxioms.ltb_spec. apply SFltb_trans. Qed.

Lemma ltb_asym x y : (x <? y)%float = true -> (y <? x)%float = false.
Proof. rewrite !FloatAxioms.ltb_spec. apply SFltb_asym. Qed.

Lemma ltb_irrefl x : (x <? x)%float = false.
Proof.
  destruct (x <? x)%float eqn:E; [|reflexivity].
  now rewrite (ltb_asym _ _ E) in E.
Qed.

Lemma ltb_opp x y : (- x <? - y)%float = (y <? x)%float.
Proof. rewrite !FloatAxioms.ltb_spec, !FloatAxioms.opp_spec. apply SFltb_opp. Qed.

Lemma eqb_ltb_l x y z :
  (x =? y)%float = true -> (x <? z)%float = (y <? z)%float.
Proof. rewrite FloatAxioms.eqb_spec, !FloatAxioms.ltb_spec. apply SFeqb_ltb_l. Qed.

Lemma eqb_ltb_r x y z :
  (x =? y)%float = true -> (z <? x)%float = (z <? y)%float.
Proof. rewrite FloatAxioms.eqb_spec, !FloatAxioms.ltb_spec. apply SFeqb_ltb_r. Qed.

Lemma ltb_opp_self x :
  (x <? - x)%float = true -> (x <? 0)%float = true.
Proof. rewrite !FloatAxioms.ltb_spec, FloatAxioms.opp_spec, Prim2SF_zero. apply SFltb_opp_self. Qed.

Lemma opp_involutive x : (- - x)%float = x.
Proof.
  apply Prim2SF_inj. rewrite !FloatAxioms.opp_spec.
  destruct (Prim2SF x) as [[|]|[|]| |[|] m e]; reflexivity.
Qed.

(** ** Binary64 arithmetic: where NaN can and cannot appear *)

Lemma shr_1_nonneg mrs : (0 <= shr_m mrs)%Z -> (0 <= shr_m (shr_1 mrs))%Z.
Proof.
  destruct mrs as [m r s]. destruct m as [|[p|p|]|[p|p|]]; cbn; lia.
Qed.

Lemma iter_shr_1_nonneg p mrs :
  (0 <= shr_m mrs)%Z -> (0 <= shr_m (SpecFloat.iter_pos shr_1 p mrs))%Z.
Proof.
  revert mrs. induction p as [p IH|p IH|]; intros mrs H; cbn.
  - apply IH, IH. now apply shr_1_nonneg.
  - now apply IH, IH.
  - now apply shr_1_nonneg.
Qed.

Lemma shr_fexp_nonneg m e l :
  (0 <= m)%Z -> (0 <= shr_m (fst (shr_fexp prec emax m e l)))%Z.
Proof.
  intros H. unfold shr_fexp, shr.
  assert (H0 : (0 <= shr_m (shr_record_of_loc m l))%Z)
    by (destruct l as [|[]]; exact H).
  destruct (fexp prec emax (Zdigits2 m + e) - e)%Z; cbn [fst]; try exact H0.
  now apply iter_shr_1_nonneg.
Qed.

Lemma round_nearest_even_nonneg m l :
  (0 <= m)%Z -> (0 <= round_nearest_even m l)%Z.
Proof.
  intros H. destruct l as [|[]]; cbn; try lia. destruct (Z.even m); lia.
Qed.

Lemma binary_round_aux_not_nan sx mx ex lx :
  (0 <= mx)%Z -> sf_nan (binary_round_aux prec emax sx mx ex lx) = false.
Proof.
  intros H. unfold binary_round_aux.
  pose proof (shr_fexp_nonneg mx ex lx H) as H1.
  destruct (shr_fexp prec emax mx ex lx) as [mrs' e']. cbn [fst] in H1.
  pose proof (shr_fexp_nonneg _ e' loc_Exact
                (round_nearest_even_nonneg _ (loc_of_shr_record mrs') H1)) as H2.
  destruct (shr_fexp prec emax _ e' loc_Exact) as [mrs'' e'']. cbn [fst] in H2.
  destruct (shr_m mrs''); [reflexivity| |lia].
  destruct (Z.leb _ _); reflexivity.
Qed.

Lemma binary_normalize_not_nan m e sz :
  sf_nan (binary_normalize prec emax m e sz) = false.
Proof.
  destruct m; cbn [binary_normalize]; [reflexivity| |];
    unfold binary_round;
    destruct (shl_align _ _ _); now apply binary_round_aux_not_nan.
Qed.

Lemma SFsub_not_nan x y :
  sf_nan x = false -> sf_finite y = true -> sf_nan (SF64sub x y) = false.
Proof.
  destruct x as [[|]|[|]| |[|] mx ex], y as [[|]|[|]| |[|] my ey];
    unfold SF64sub, SF64add, SFsub, SFadd; cbn [sf_nan sf_finite];
    try discriminate; try reflexivity; intros _ _;
    apply binary_normalize_not_nan.
Qed.

Lemma SFadd_not_nan x y :
  sf_finite x = true -> sf_nan y = false -> sf_nan (SF64add x y) = false.
Proof.
  destruct x as [[|]|[|]| |[|] mx ex], y as [[|]|[|]| |[|] my ey];
    unfold SF64sub, SF64add, SFsub, SFadd; cbn [sf_nan sf_finite];
    try discriminate; try reflexivity; intros _ _;
    apply binary_normalize_not_nan.
Qed.

Lemma SFmul_not_nan x y :
  sf_finite x = true -> sf_finite y = true -> sf_nan (SF64mul x y) = false.
Proof.
  destruct x as [[|]|[|]| |[|] mx ex], y as [[|]|[|]| |[|] my ey];
    unfold SF64mul, SFmul; cbn [sf_nan sf_finite];
    try discriminate; try reflexivity; intros _ _;
    now apply binary_round_aux_not_nan.
Qed.

Lemma SFmul_nonzero_not_nan x y :
  sf_finite x = true -> SFeqb x (S754_zero false) = false ->
  sf_nan y = false -> sf_nan (SF64mul x y) = false.
Proof.
  destruct x as [[|]|[|]| |[|] mx ex], y as [[|]|[|]| |[|] my ey];
    unfold SF64mul, SFmul; cbn [sf_nan sf_finite SFeqb SFcompare];
    try discriminate; try reflexivity; intros _ _ _;
    now apply binary_round_aux_not_nan.
Qed.

Lemma is_nan_sf x : is_nan x = sf_nan (Prim2SF x).
Proof.
  unfold is_nan. rewrite FloatAxioms.eqb_spec. unfold SFeqb.
  destruct (Prim2SF x) as [[|]|[|]| |[|] m e]; cbn [SFcompare sf_nan];
    change (Pos.compare_cont Eq) with Pos.compare;
    rewrite ?Z.compare_refl, ?Pos.compare_refl; reflexivity.
Qed.

Lemma is_finite_sf x : is_finite x = sf_finite (Prim2SF x).
Proof.
  unfold is_finite, is_infinity.
  rewrite is_nan_sf, FloatAxioms.eqb_spec, abs_spec.
  change (Prim2SF infinity) with (S754_infinity false).
  destruct (Prim2SF x) as [[|]|[|]| |[|] m e]; reflexivity.
Qed.

Lemma is_finite_not_nan x : is_finite x = true -> is_nan x = false.
Proof.
  rewrite is_finite_sf, is_nan_sf. by destruct (Prim2SF x).
Qed.

Lemma mul_nan_l x : (nan * x)%float = nan.
Proof. apply Prim2SF_inj. rewrite mul_spec. reflexivity. Qed.

Lemma mul_nan_r x : (x * nan)%float = nan.
Proof.
  apply Prim2SF_inj. rewrite mul_spec, Prim2SF_nan.
  by destruct (Prim2SF x) as [[|]|[|]| |[|] m e].
Qed.

Lemma sub_nan_l x : (nan - x)%float = nan.
Proof. apply Prim2SF_inj. rewrite sub_spec. reflexivity. Qed.

Lemma sub_nan_r x : (x - nan)%float = nan.
Proof.
  apply Prim2SF_inj. rewrite sub_spec, Prim2SF_nan.
  by destruct (Prim2SF x) as [[|]|[|]| |[|] m e].
Qed.

Lemma add_nan_r x : (x + nan)%float = nan.
Proof.
  apply Prim2SF_inj. rewrite add_spec, Prim2SF_nan.
  by destruct (Prim2SF x) as [[|]|[|]| |[|] m e].
Qed.

Lemma sub_zero_r x : (x - 0)%float = x.
Proof.
  apply Prim2SF_inj. rewrite sub_spec, Prim2SF_zero.
  by destruct (Prim2SF x) as [[|]|[|]| |[|] m e].
Qed.

Lemma sub_not_nan x y :
  is_nan x = false -> is_finite y = true -> is_nan (x - y) = false.
Proof.
  rewrite !is_nan_sf, is_finite_sf, sub_spec. apply SFsub_not_nan.
Qed.

Lemma add_not_nan x y :
  is_finite x = true -> is_nan y = false -> is_nan (x + y) = false.
Proof.
  rewrite !is_nan_sf, is_finite_sf, add_spec. apply SFadd_not_nan.
Qed.

Lemma mul_not_nan x y :
  is_finite x = true -> is_finite y = true -> is_nan (x * y) = false.
Proof.
  rewrite is_nan_sf, !is_finite_sf, mul_spec. apply SFmul_not_nan.
Qed.

Lemma mul_nonzero_not_nan x y :
  is_finite x = true -> (x =? 0)%float = false -> is_nan y = false ->
  is_nan (x * y) = false.
Proof.
  rewrite !is_nan_sf, is_finite_sf, FloatAxioms.eqb_spec, mul_spec,
    Prim2SF_zero.
  apply SFmul_nonzero_not_nan.
Qed.

Lemma is_nan_one_plus x : is_nan (1 + x) = is_nan x.
Proof.
  destruct (is_nan x) eqn:E.
  - apply is_nan_spec in E as ->. by rewrite add_nan_r.
  - by apply add_not_nan.
Qed.

(** ** Reading columns *)

Lemma zget_insert_eq (l : list Z) i v :
  i < length l -> zget (<[i:=v]> l) i = v.
Proof.
  intros H. unfold zget. rewrite nth_lookup, list_lookup_insert_eq; done.
Qed.

Lemma zget_insert_ne (l : list Z) i j v :
  i <> j -> zget (<[i:=v]> l) j = zget l j.
Proof.
  intros H. unfold zget. rewrite !nth_lookup, list_lookup_insert_ne; done.
Qed.

Lemma zget_replicate n i : zget (replicate n 0%Z) i = 0%Z.
Proof.
  unfold zget. rewrite nth_lookup.
  destruct (replicate n 0%Z !! i) eqn:E; [|done].
  apply lookup_replicate in E as [-> _]. done.
Qed.

Lemma fget_insert_eq (l : list float) i v :
  i < length l -> fget (<[i:=v]> l) i = v.
Proof.
  intros H. unfold fget. rewrite nth_lookup, list_lookup_insert_eq; done.
Qed.

Lemma fget_insert_ne (l : list float) i j v :
  i <> j -> fget (<[i:=v]> l) j = fget l j.
Proof.
  intros H. unfold fget. rewrite !nth_lookup, list_lookup_insert_ne; done.
Qed.

(** ** The loop of [generate_signals] *)

Section SignalTheorems.

Variables expanding_mean expanding_std : list float -> list float.
Variables rolling_mean rolling_std : nat -> list float -> list float.

Abbreviation run := (run_loop expanding_mean expanding_std
                          rolling_mean rolling_std).
Abbreviation gen := (generate_signals expanding_mean expanding_std
                                  rolling_mean rolling_std).
Abbreviation init := (initial_state expanding_mean expanding_std
                                rolling_mean rolling_std).

Lemma run_S g sp k : run g sp (S k) = loop_body g (run g sp k) k.
Proof.
  unfold run_loop. rewrite seq_S, fold_left_app. reflexivity.
Qed.

Lemma loop_body_zscore g st i :
  zscore (signals (loop_body g st i)) = zscore (signals st).
Proof. unfold loop_body. repeat case_match; reflexivity. Qed.

Lemma loop_body_inv g n st i : loop_inv n st -> loop_inv n (loop_body g st i).
Proof.
  unfold loop_inv, loop_body, is_state, Flat, Long, Short.
  intros (Hp & He & Hx & Hs).
  repeat case_match; cbn; rewrite ?length_insert; auto 10.
Qed.

Lemma loop_body_other g st i j :
  i <> j -> row (signals (loop_body g st i)) j = row (signals st) j.
Proof.
  intros H. unfold loop_body, row.
  repeat case_match; cbn; rewrite ?zget_insert_ne by done; reflexivity.
Qed.

(** Iteration [i] on a row that is still blank. *)
Lemma loop_body_row g n st i :
  loop_inv n st -> i < n -> row (signals st) i = (0, 0, 0)%Z ->
  let eff := row_effect g (current_position st)
                        (fget (zscore (signals st)) i) in
  current_position (loop_body g st i) = eff.1.1 /\
  row (signals (loop_body g st i)) i = eff.
Proof.
  unfold loop_inv, is_state, Flat, Long, Short, row.
  destruct st as [cur ez sg]. cbn [current_position signals].
  intros (Hp & He & Hx & Hs) Hi Hrow. cbn zeta.
  injection Hrow as Hr1 Hr2 Hr3.
  unfold loop_body, row_effect. cbn [current_position signals].
  destruct Hs as [-> | [-> | ->]]; cbn [Z.eqb Pos.eqb];
    repeat case_match; cbn in *;
    rewrite ?zget_insert_eq by lia; rewrite ?Hr1, ?Hr2, ?Hr3;
    try done; try congruence.
Qed.

Lemma run_inv g sp k : loop_inv (length sp) (run g sp k).
Proof.
  induction k as [|k IH].
  - unfold loop_inv, is_state. cbn. rewrite !length_replicate. auto.
  - rewrite run_S. by apply loop_body_inv.
Qed.

Lemma run_zscore g sp k :
  zscore (signals (run g sp k)) = zscore (signals (init g sp)).
Proof.
  induction k as [|k IH]; [done|]. by rewrite run_S, loop_body_zscore.
Qed.

(** Rows not yet visited are blank. *)
Lemma run_blank g sp k j :
  k <= j -> row (signals (run g sp k)) j = (0, 0, 0)%Z.
Proof.
  induction k as [|k IH]; intros H.
  - unfold row. cbn. by rewrite !zget_replicate.
  - rewrite run_S, loop_body_other by lia. apply IH. lia.
Qed.

(** Rows already visited are not written again. *)
Lemma run_frozen g sp j k :
  j < k -> row (signals (run g sp k)) j = row (signals (run g sp (S j))) j.
Proof.
  induction k as [|k IH]; intros H; [lia|].
  destruct (decide (j = k)) as [->|Hne]; [done|].
  rewrite run_S, loop_body_other by lia. apply IH. lia.
Qed.

(** The row of timestamp [i] in the result, and the state after it. *)
Lemma run_row g sp i :
  i < length sp ->
  let z := fget (zscore (signals (init g sp))) i in
  let eff := row_effect g (current_position (run g sp i)) z in
  current_position (run g sp (S i)) = eff.1.1 /\
  row (signals (run g sp (length sp))) i = eff.
Proof.
  intros Hi. cbn zeta.
  rewrite (run_frozen g sp i (length sp)) by done.
  rewrite run_S, <- (run_zscore g sp i).
  apply (loop_body_row g (length sp)); [apply run_inv|done|].
  by apply run_blank.
Qed.

Lemma row_effect_position g s z :
  is_state s -> is_state (row_effect g s z).1.1.
Proof.
  unfold is_state, row_effect, Flat, Long, Short.
  intros [-> | [-> | ->]]; cbn [Z.eqb Pos.eqb];
    repeat case_match; cbn; auto.
Qed.

(** The position recorded at a timestamp is the state the next
    iteration starts from. *)
Lemma position_is_state g sp hr i :
  i < length sp ->
  zget (position (gen g sp hr)) i = current_position (run g sp (S i)).
Proof.
  intros Hi. destruct (run_row g sp i Hi) as [Hc Hr].
  unfold generate_signals. rewrite Hc, <- Hr. reflexivity.
Qed.

(** *** The state machine (C1) *)

Lemma fires_nan g s : fires g nan s = false.
Proof.
  unfold fires. rewrite !ltb_nan_l, !ltb_nan_r. by repeat case_match.
Qed.

Lemma row_effect_transition g s z :
  is_state s -> transition g z s (row_effect g s z).1.1.
Proof.
  unfold is_state, row_effect, Flat, Long, Short.
  intros [-> | [-> | ->]]; cbn [Z.eqb Pos.eqb].
  - destruct (z <? - entry_threshold g)%float eqn:E1;
      [by apply flat_to_long|].
    destruct (entry_threshold g <? z)%float eqn:E2;
      [by apply flat_to_short|].
    apply unchanged. unfold fires. cbn. by rewrite E1, E2.
  - destruct (z <? - stop_loss g)%float eqn:E1;
      [apply long_to_flat; by left|].
    destruct (- exit_threshold g <? z)%float eqn:E2;
      [apply long_to_flat; by right|].
    apply unchanged. unfold fires. cbn. by rewrite E1, E2.
  - destruct (stop_loss g <? z)%float eqn:E1;
      [apply short_to_flat; by left|].
    destruct (z <? exit_threshold g)%float eqn:E2;
      [apply short_to_flat; by right|].
    apply unchanged. unfold fires. cbn. by rewrite E1, E2.
Qed.

Lemma row_effect_unchanged g s z :
  is_state s -> fires g z s = false -> (row_effect g s z).1.1 = s.
Proof.
  unfold is_state, row_effect, fires, Flat, Long, Short.
  intros [-> | [-> | ->]]; cbn [Z.eqb Pos.eqb];
    intros [-> ->]%orb_false_iff; reflexivity.
Qed.

(** With a non-negative entry threshold the two entry tests exclude
    each other. *)
Lemma entry_tests_exclusive g z :
  (entry_threshold g <? 0)%float = false ->
  (z <? - entry_threshold g)%float = true ->
  (entry_threshold g <? z)%float = true -> False.
Proof.
  intros H0 H1 H2.
  pose proof (ltb_opp_self _ (ltb_trans _ _ _ H2 H1)). congruence.
Qed.

Lemma row_effect_deterministic g s z t :
  (entry_threshold g <? 0)%float = false ->
  is_state s -> transition g z s t -> t = (row_effect g s z).1.1.
Proof.
  intros H0 Hs Ht. unfold row_effect.
  destruct Ht as [E | E | [E | E] | [E | E] | s E]; unfold Flat, Long, Short;
    cbn [Z.eqb Pos.eqb]; rewrite ?E, ?orb_true_r; try reflexivity.
  - destruct (z <? - entry_threshold g)%float eqn:E1; [|reflexivity].
    destruct (entry_tests_exclusive g z H0 E1 E).
  - symmetry. by apply row_effect_unchanged.
Qed.

Lemma row_effect_at_threshold g s z :
  (entry_threshold g <? 0)%float = false ->
  (stop_loss g <? exit_threshold g)%float = false ->
  is_state s -> at_threshold g z s = true -> (row_effect g s z).1.1 = s.
Proof.
  intros H1 H2 Hs Hz. apply row_effect_unchanged; [done|].
  revert Hz. unfold is_state, at_threshold, fires, Flat, Long, Short in *.
  destruct Hs as [-> | [-> | ->]]; cbn [Z.eqb Pos.eqb];
    intros [E | E]%orb_true_iff; apply orb_false_iff;
    rewrite ?(eqb_ltb_l _ _ _ E), ?(eqb_ltb_r _ _ _ E), ?ltb_irrefl,
      ?ltb_opp; try done; split; try done.
  - destruct (entry_threshold g <? - entry_threshold g)%float eqn:E1;
      [|done]. apply ltb_opp_self in E1. congruence.
  - destruct (entry_threshold g <? - entry_threshold g)%float eqn:E1;
      [|done]. apply ltb_opp_self in E1. congruence.
Qed.

(** C1.  Starting from Flat, iteration [i] takes the state [s] held
    after the earlier timestamps to [s'] by one of the listed transitions,
    all tested strictly: Flat to Long when z < -entry, Flat to Short when
    z > entry, Long to Flat when z < -stop_loss or z > -exit, Short to
    Flat when z > stop_loss or z < exit, and no change otherwise, in
    particular at a NaN z-score.  The position recorded at [i] is [s'] and
    the one recorded just before is [s].  For thresholds in their
    intended order (entry not negative, stop_loss not below exit) the
    listed transitions determine [s'], and a z-score equal to a threshold
    of the current state changes nothing. *)
Theorem generate_signals_state_machine g sp hr i :
  i < length sp ->
  let sg := gen g sp hr in
  let z := fget (zscore sg) i in
  let s := current_position (run g sp i) in
  let s' := current_position (run g sp (S i)) in
  current_position (run g sp 0) = Flat /\
  is_state s /\
  transition g z s s' /\
  zget (position sg) i = s' /\
  (forall j, i = S j -> zget (position sg) j = s) /\
  (fires g z s = false -> s' = s) /\
  (is_nan z = true -> s' = s) /\
  ((entry_threshold g <? 0)%float = false ->
   forall t, transition g z s t -> t = s') /\
  ((entry_threshold g <? 0)%float = false ->
   (stop_loss g <? exit_threshold g)%float = false ->
   at_threshold g z s = true -> s' = s).
Proof.
  intros Hi sg z s s'.
  assert (Hs : is_state s) by apply (run_inv g sp i).
  assert (Hz : z = fget (zscore (signals (init g sp))) i).
  { unfold z, sg, generate_signals. by rewrite run_zscore. }
  assert (Hs' : s' = (row_effect g s z).1.1).
  { rewrite Hz. apply (run_row g sp i Hi). }
  split; [reflexivity|]. split; [done|].
  split; [rewrite Hs'; by apply row_effect_transition|].
  split; [by apply position_is_state|].
  split; [intros j ->; apply position_is_state; lia|].
  split; [intros Hf; rewrite Hs'; by apply row_effect_unchanged|].
  split.
  { intros ->%is_nan_spec. rewrite Hs'.
    apply row_effect_unchanged; [done|apply fires_nan]. }
  split.
  { intros H0 t Ht. rewrite Hs'. by apply row_effect_deterministic. }
  intros H1 H2 Ht. rewrite Hs'. by apply row_effect_at_threshold.
Qed.

(** *** Entry and exit signals (C2) *)

(** C2.  In the frame returned by [generate_signals]: a timestamp with
    entry_signal <> 0 has position <> 0 and, when it has a predecessor,
    the preceding position is 0; a timestamp with exit_signal = 1 has
    position 0 and a predecessor whose position is not 0; entry_signal
    and exit_signal are never both nonzero. *)
Theorem generate_signals_entry_exit g sp hr i :
  i < length sp ->
  let sg := gen g sp hr in
  (zget (entry_signal sg) i <> 0%Z ->
   zget (position sg) i <> 0%Z /\
   forall j, i = S j -> zget (position sg) j = 0%Z) /\
  (zget (exit_signal sg) i = 1%Z ->
   zget (position sg) i = 0%Z /\
   exists j, i = S j /\ zget (position sg) j <> 0%Z) /\
  ~ (zget (entry_signal sg) i <> 0%Z /\ zget (exit_signal sg) i <> 0%Z).
Proof.
  intros Hi sg.
  destruct (run_row g sp i Hi) as [_ Hr].
  pose proof (run_inv g sp i) as (_ & _ & _ & Hs).
  assert (Hprev : forall j, i = S j ->
            zget (position sg) j = current_position (run g sp i)).
  { intros j ->. apply position_is_state. lia. }
  assert (H0 : i = 0 -> current_position (run g sp i) = 0%Z)
    by (intros ->; reflexivity).
  change (signals (run g sp (length sp))) with sg in Hr.
  unfold row in Hr.
  set (z := fget (zscore (signals (init g sp))) i) in *.
  revert Hr Hprev H0 Hs. generalize (current_position (run g sp i)) as s.
  generalize sg as f. clear sg.
  intros f s Hr Hprev H0 Hs.
  assert (Hcases :
    (s = 0%Z /\ zget (exit_signal f) i = 0%Z /\
     (zget (entry_signal f) i <> 0%Z -> zget (position f) i <> 0%Z)) \/
    (s <> 0%Z /\ zget (entry_signal f) i = 0%Z /\
     (zget (exit_signal f) i = 1%Z -> zget (position f) i = 0%Z))).
  { revert Hr Hs. unfold is_state, row_effect, Flat, Long, Short.
    intros Hr [-> | [-> | ->]]; cbn [Z.eqb Pos.eqb] in Hr;
      repeat case_match; injection Hr as Hp He Hx; rewrite Hp, He, Hx;
      first [left; done | right; done]. }
  destruct Hcases as [(-> & Hx & He) | (Hne & He & Hx)].
  - split; [|split].
    + intros Hent. split; [auto|]. intros j Hj. by rewrite (Hprev j Hj).
    + intros Hex. congruence.
    + intros [_ Hex]. congruence.
  - split; [|split].
    + intros Hent. congruence.
    + intros Hex. split; [auto|].
      destruct i as [|j]; [by destruct Hne; apply H0|].
      exists j. split; [done|]. by rewrite (Hprev j eq_refl).
    + intros [Hent _]. congruence.
Qed.

End SignalTheorems.

(** ** Columns of [calculate_returns] *)

Lemma fget_lookup (l : list float) i x : l !! i = Some x -> fget l i = x.
Proof. intros H. unfold fget. by rewrite nth_lookup, H. Qed.

Lemma fget_ge (l : list float) i : length l <= i -> fget l i = nan.
Proof.
  intros H. unfold fget. rewrite nth_lookup.
  by rewrite (proj2 (lookup_ge_None l i) H).
Qed.

Lemma fget_map (f : float -> float) l i :
  i < length l -> fget (map f l) i = f (fget l i).
Proof.
  intros H. destruct (lookup_lt_is_Some_2 l i H) as [x Hx].
  rewrite (fget_lookup l i x Hx).
  apply fget_lookup. change (map f l) with (f <$> l).
  by rewrite list_lookup_fmap, Hx.
Qed.

Lemma fget_zip_with (f : float -> float -> float) l k i :
  i < length l -> i < length k ->
  fget (zip_with f l k) i = f (fget l i) (fget k i).
Proof.
  intros Hl Hk.
  destruct (lookup_lt_is_Some_2 l i Hl) as [x Hx].
  destruct (lookup_lt_is_Some_2 k i Hk) as [y Hy].
  rewrite (fget_lookup l i x Hx), (fget_lookup k i y Hy).
  apply fget_lookup. rewrite lookup_zip_with, Hx, Hy. done.
Qed.

Lemma fget_replicate n i x : i < n -> fget (replicate n x) i = x.
Proof. intros H. apply fget_lookup. by apply lookup_replicate_2. Qed.

Lemma fget_align n l i : i < n -> fget (align n l) i = fget l i.
Proof.
  intros H. apply fget_lookup. unfold align.
  change (map (fget l) (seq 0 n)) with (fget l <$> seq 0 n).
  rewrite list_lookup_fmap, lookup_seq_lt by done. done.
Qed.

Lemma length_align n l : length (align n l) = n.
Proof. unfold align. by rewrite length_map, length_seq. Qed.

Lemma fget_pct_change p t :
  0 < t -> t < length p -> fget (pct_change p) t = simple_return p t.
Proof.
  intros H0 Ht. destruct (lookup_lt_is_Some_2 p t Ht) as [x Hx].
  apply fget_lookup. unfold pct_change, simple_return.
  rewrite list_lookup_imap, Hx. cbn. destruct t as [|j]; [lia|].
  rewrite (fget_lookup p (S j) x Hx). by rewrite Nat.sub_1_r.
Qed.

Lemma fget_diff_abs_0 pos : 0 < length pos -> fget (diff_abs pos) 0 = nan.
Proof.
  intros H. destruct pos as [|x r]; [cbn in H; lia|]. reflexivity.
Qed.

Lemma fget_diff_abs_S pos j :
  S j < length pos ->
  fget (diff_abs pos) (S j)
  = PrimFloat.abs (float_of_Z (zget pos (S j)) - float_of_Z (zget pos j)).
Proof.
  intros H. destruct (lookup_lt_is_Some_2 pos (S j) H) as [x Hx].
  assert (zget pos (S j) = x) as -> by (unfold zget; by rewrite nth_lookup, Hx).
  apply fget_lookup. unfold diff_abs.
  by rewrite list_lookup_imap, Hx.
Qed.

Lemma length_diff_abs pos : length (diff_abs pos) = length pos.
Proof. unfold diff_abs. by rewrite length_imap. Qed.

(** *** The loop over [strategy_return] *)

Lemma returns_body_insert pos r1 r2 col i :
  returns_body pos r1 r2 col i = <[i:=strategy_value pos r1 r2 i]> col.
Proof. unfold returns_body, strategy_value. by repeat case_match. Qed.

Lemma length_returns_loop pos r1 r2 a k col :
  length (fold_left (returns_body pos r1 r2) (seq a k) col) = length col.
Proof.
  revert col. induction k as [|k IH]; intros col; [done|].
  rewrite seq_S, fold_left_app. cbn.
  by rewrite returns_body_insert, length_insert.
Qed.

Lemma fget_returns_loop pos r1 r2 a k col j :
  fget (fold_left (returns_body pos r1 r2) (seq a k) col) j
  = if decide (a <= j < a + k /\ j < length col)
    then strategy_value pos r1 r2 j else fget col j.
Proof.
  induction k as [|k IH].
  - cbn. case_decide; [lia|done].
  - rewrite seq_S, fold_left_app. cbn. rewrite returns_body_insert.
    destruct (decide (a + k = j)) as [<-|Hne].
    + clear IH.
      destruct (decide (a <= a + k < a + S k /\ a + k < length col))
        as [Hd|Hd].
      * rewrite fget_insert_eq; [done|]. rewrite length_returns_loop. lia.
      * rewrite list_insert_ge by (rewrite length_returns_loop; lia).
        rewrite fget_ge by (rewrite length_returns_loop; lia).
        rewrite fget_ge by lia. done.
    + rewrite fget_insert_ne by done. rewrite IH.
      repeat case_decide; try done; lia.
Qed.

(** *** The cumulative product *)

Lemma lookup_map {A B} (f : A -> B) (l : list A) i :
  map f l !! i = f <$> (l !! i).
Proof. apply (list_lookup_fmap f l i). Qed.

Lemma length_cumprod_from acc l : length (cumprod_from acc l) = length l.
Proof. revert acc. induction l as [|x r IH]; intros acc; cbn; auto. Qed.

Lemma length_np_cumprod l : length (np_cumprod l) = length l.
Proof. destruct l; cbn; by rewrite ?length_cumprod_from. Qed.

Lemma length_series_cumprod l : length (series_cumprod l) = length l.
Proof.
  unfold series_cumprod, fill_nan.
  rewrite length_zip_with, length_np_cumprod, length_map. lia.
Qed.

Lemma lookup_cumprod_from acc r j :
  j < length r ->
  cumprod_from acc r !! j
  = Some (fold_left (fun a x => (a * x)%float) (take (S j) r) acc).
Proof.
  revert acc j. induction r as [|x r IH]; intros acc j H; cbn in H; [lia|].
  destruct j as [|j]; [done|]. cbn. apply IH. lia.
Qed.

Lemma take_fill_nan v l m :
  (forall k, k < m -> k < length l -> is_nan (fget l k) = false) ->
  take m (fill_nan v l) = take m l.
Proof.
  revert m. induction l as [|x r IH]; intros m H; [by destruct m|].
  destruct m as [|m]; [done|]. cbn.
  pose proof (H 0 ltac:(lia) ltac:(cbn; lia)) as Hx.
  change (fget (x :: r) 0) with x in Hx. rewrite Hx. f_equal. apply IH.
  intros k Hk Hl. apply (H (S k)); cbn; lia.
Qed.

Lemma fold_left_growth (l : list float) acc :
  fold_left (fun a x => (a * x)%float) (map (fun r => (1 + r)%float) l) acc
  = fold_left (fun a r => (a * (1 + r))%float) l acc.
Proof. revert acc. induction l as [|x r IH]; intros acc; cbn; auto. Qed.

(** The NaN of the first row is multiplied in as 1: from the second row
    on the cumulative product compounds the rows [1..t] only. *)
Lemma cumulative_product net t :
  0 < t -> t < length net ->
  is_nan (fget net 0) = true ->
  (forall k, 1 <= k <= t -> is_nan (fget net k) = false) ->
  fget (series_cumprod (map (fun r => (1 + r)%float) net)) t
  = compounded net t.
Proof.
  intros H0 Ht Hnan Hdef.
  destruct net as [|n0 rest]; [cbn in Ht; lia|].
  destruct t as [|j]; [lia|]. cbn in Ht.
  change (fget (n0 :: rest) 0) with n0 in Hnan.
  assert (Hrest : forall k, k < S j -> k < length rest ->
            is_nan (fget (map (fun r => (1 + r)%float) rest) k) = false).
  { intros k Hk Hl. rewrite fget_map, is_nan_one_plus by done.
    apply (Hdef (S k)). lia. }
  destruct (lookup_lt_is_Some_2 rest j ltac:(lia)) as [x Hx].
  apply fget_lookup. unfold series_cumprod, compounded.
  cbn [map fill_nan np_cumprod drop]. rewrite is_nan_one_plus, Hnan.
  rewrite lookup_zip_with.
  repeat match goal with
  | |- context [(?a :: ?l) !! S ?k] => change ((a :: l) !! S k) with (l !! k)
  end.
  rewrite lookup_map, Hx, drop_0.
  cbn [fmap option_fmap option_map mbind option_bind].
  rewrite lookup_cumprod_from by (rewrite !length_map; lia).
  cbn [mbind option_bind].
  change (map (fun x1 : float => if is_nan x1 then 1%float else x1))
    with (fill_nan 1%float).
  assert (is_nan (1 + x) = false) as ->.
  { specialize (Hrest j ltac:(lia) ltac:(lia)).
    by rewrite fget_map, (fget_lookup rest j x Hx) in Hrest by lia. }
  f_equal. rewrite take_fill_nan.
  - rewrite <- fold_left_growth. f_equal.
    symmetry. apply (fmap_take (fun r => (1 + r)%float)).
  - intros k Hk Hl. rewrite length_map in Hl. by apply Hrest.
Qed.

(** The masked rows of the cumulative product are NaN. *)
Lemma series_cumprod_nan l t :
  t < length l -> is_nan (fget l t) = true ->
  fget (series_cumprod l) t = nan.
Proof.
  intros Ht Hnan.
  destruct (lookup_lt_is_Some_2 l t Ht) as [x Hx].
  assert (t < length (np_cumprod (fill_nan 1 l))) as Hp
    by (unfold fill_nan; rewrite length_np_cumprod, length_map; lia).
  destruct (lookup_lt_is_Some_2 _ t Hp) as [y Hy].
  apply fget_lookup. unfold series_cumprod.
  rewrite lookup_zip_with, Hx, Hy. cbn.
  by rewrite <- (fget_lookup l t x Hx), Hnan.
Qed.

(** *** The rows of the returned frame *)

Section ReturnsRows.

Variables (bt : Backtester) (sg : Signals) (p1 p2 : list float).

Abbreviation res := (returns_of_columns bt sg p1 p2).
Abbreviation n := (length (position sg)).

Lemma length_strategy_return : length (strategy_return res) = n.
Proof. cbn. by rewrite length_returns_loop, length_replicate. Qed.

Lemma length_net_return : length (net_return res) = n.
Proof.
  cbn. rewrite !length_zip_with, !length_map, length_diff_abs,
    length_returns_loop, length_replicate. lia.
Qed.

Lemma row_position_change_0 :
  0 < n -> fget (position_change res) 0 = nan.
Proof. apply fget_diff_abs_0. Qed.

Lemma row_position_change j :
  S j < n ->
  fget (position_change res) (S j)
  = PrimFloat.abs (float_of_Z (zget (position sg) (S j))
                   - float_of_Z (zget (position sg) j)).
Proof. apply fget_diff_abs_S. Qed.

Lemma row_transaction_costs t :
  t < n ->
  fget (transaction_costs res) t
  = (fget (position_change res) t * transaction_cost bt)%float.
Proof. intros H. cbn. rewrite fget_map; [done|]. by rewrite length_diff_abs. Qed.

Lemma row_slippage t :
  t < n ->
  fget (slippage res) t
  = (fget (position_change res) t * slippage_rate bt)%float.
Proof. intros H. cbn. rewrite fget_map; [done|]. by rewrite length_diff_abs. Qed.

Lemma row_strategy_return_0 : 0 < n -> fget (strategy_return res) 0 = 0%float.
Proof.
  intros H. cbn. rewrite fget_returns_loop.
  case_decide; [lia|]. by apply fget_replicate.
Qed.

Lemma row_strategy_return t :
  1 <= t < n ->
  fget (strategy_return res) t
  = strategy_value (position sg) (symbol1_returns res) (symbol2_returns res) t.
Proof.
  intros H. cbn. rewrite fget_returns_loop.
  case_decide as Hd; [done|]. rewrite length_replicate in Hd. lia.
Qed.

Lemma row_net_return t :
  t < n ->
  fget (net_return res) t
  = (fget (strategy_return res) t - fget (transaction_costs res) t
     - fget (slippage res) t)%float.
Proof.
  intros H. pose proof length_strategy_return as Hs. cbn in Hs |- *.
  rewrite !fget_zip_with; try done;
    rewrite ?length_zip_with, ?length_map, ?length_diff_abs, ?Hs; lia.
Qed.

Lemma row_cumulative_return t :
  t < n ->
  fget (cumulative_return res) t
  = (fget (series_cumprod (map (fun r => (1 + r)%float) (net_return res))) t
     - 1)%float.
Proof.
  intros H. pose proof length_net_return as Hn.
  cbn in Hn |- *. rewrite fget_map; [done|].
  by rewrite length_series_cumprod, length_map, Hn.
Qed.

Lemma row_portfolio_value t :
  t < n ->
  fget (portfolio_value res) t
  = (initial_capital bt * (1 + fget (cumulative_return res) t))%float.
Proof.
  intros H. pose proof length_net_return as Hn.
  cbn in Hn |- *. rewrite fget_map; [done|].
  by rewrite length_map, length_series_cumprod, length_map, Hn.
Qed.

Lemma row_symbol_returns t :
  1 <= t < n -> t < length p1 -> t < length p2 ->
  fget (symbol1_returns res) t = simple_return p1 t /\
  fget (symbol2_returns res) t = simple_return p2 t.
Proof.
  intros H H1 H2. cbn.
  rewrite !fget_align, !fget_pct_change by lia. done.
Qed.

(** The first row: the costs and everything computed from them are NaN,
    the strategy return is the initial 0. *)
Lemma first_row :
  0 < n ->
  fget (transaction_costs res) 0 = nan /\
  fget (slippage res) 0 = nan /\
  fget (net_return res) 0 = nan /\
  fget (cumulative_return res) 0 = nan /\
  fget (portfolio_value res) 0 = nan /\
  fget (strategy_return res) 0 = 0%float.
Proof.
  intros H.
  assert (Htc : fget (transaction_costs res) 0 = nan)
    by (rewrite row_transaction_costs, row_position_change_0, mul_nan_l; done).
  assert (Hsl : fget (slippage res) 0 = nan)
    by (rewrite row_slippage, row_position_change_0, mul_nan_l; done).
  assert (Hnet : fget (net_return res) 0 = nan)
    by (rewrite row_net_return, Hsl, sub_nan_r; done).
  assert (Hcum : fget (cumulative_return res) 0 = nan).
  { rewrite row_cumulative_return by done.
    rewrite series_cumprod_nan; [apply sub_nan_l| |].
    - by rewrite length_map, length_net_return.
    - rewrite fget_map by (by rewrite length_net_return).
      by rewrite Hnet, add_nan_r. }
  repeat split; try done.
  - by rewrite row_portfolio_value, Hcum, add_nan_r, mul_nan_r.
  - by apply row_strategy_return_0.
Qed.

(** From the second row on the cumulative return compounds the net
    returns of the rows [1..t]. *)
Lemma row_compounded t :
  1 <= t < n ->
  (forall k, 1 <= k <= t -> is_nan (fget (net_return res) k) = false) ->
  fget (cumulative_return res) t
  = (compounded (net_return res) t - 1)%float.
Proof.
  intros H Hdef. rewrite row_cumulative_return by lia.
  f_equal. apply cumulative_product; try done; try lia.
  - rewrite length_net_return. lia.
  - destruct first_row as (_ & _ & -> & _); [lia|done].
Qed.

End ReturnsRows.

Lemma calculate_returns_columns bt sg s1 s2 prices p1 p2 :
  column prices s1 = Some p1 -> column prices s2 = Some p2 ->
  calculate_returns bt sg s1 s2 prices
  = Some (returns_of_columns bt sg p1 p2).
Proof. intros H1 H2. unfold calculate_returns. by rewrite H1, H2. Qed.

(** The turnover between two of the three positions. *)
Lemma turnover_values a b :
  is_state a -> is_state b ->
  let c := PrimFloat.abs (float_of_Z a - float_of_Z b) in
  c = float_of_Z (Z.abs (a - b)) /\
  is_finite c = true /\
  (c * 0)%float = 0%float.
Proof.
  unfold is_state, Flat, Long, Short.
  intros [-> | [-> | ->]] [-> | [-> | ->]]; vm_compute; done.
Qed.

(** *** Return attribution (C3) *)

(** C3.  For every timestamp t >= 1 the strategy return is attributed to
    the position of the previous timestamp: 0 when it is 0, the simple
    return of symbol2 minus that of symbol1 when it is +1, the simple
    return of symbol1 minus that of symbol2 when it is -1. *)
Theorem calculate_returns_strategy_return bt sg s1 s2 prices p1 p2 j :
  column prices s1 = Some p1 -> column prices s2 = Some p2 ->
  S j < length (position sg) -> S j < length p1 -> S j < length p2 ->
  exists res,
    calculate_returns bt sg s1 s2 prices = Some res /\
    let t := S j in
    let prev_pos := zget (position sg) j in
    (prev_pos = 0%Z -> fget (strategy_return res) t = 0%float) /\
    (prev_pos = 1%Z ->
     fget (strategy_return res) t
     = (simple_return p2 t - simple_return p1 t)%float) /\
    (prev_pos = (-1)%Z ->
     fget (strategy_return res) t
     = (simple_return p1 t - simple_return p2 t)%float).
Proof.
  intros H1 H2 Hn Hl1 Hl2. eexists. split.
  { by apply calculate_returns_columns. }
  cbn zeta. rewrite row_strategy_return by lia.
  unfold strategy_value. rewrite Nat.sub_1_r. cbn [Nat.pred].
  destruct (row_symbol_returns bt sg p1 p2 (S j)) as [-> ->]; try lia.
  repeat split; intros ->; reflexivity.
Qed.

(** *** Costs, net return and compounding (C4) *)


(** *** Zero costs (C8) *)

(** C8, amended.  With transaction_cost = 0 and slippage = 0, and
    positions in {-1, 0, +1}, net_return[t] equals strategy_return[t] at
    every timestamp t >= 1. *)
Theorem zero_costs_net_return bt sg s1 s2 prices p1 p2 t :
  column prices s1 = Some p1 -> column prices s2 = Some p2 ->
  valid_positions (position sg) ->
  transaction_cost bt = 0%float -> slippage_rate bt = 0%float ->
  1 <= t < length (position sg) ->
  exists res,
    calculate_returns bt sg s1 s2 prices = Some res /\
    fget (net_return res) t = fget (strategy_return res) t.
Proof.
  intros H1 H2 Hv Htc Hsl Ht. eexists. split.
  { by apply calculate_returns_columns. }
  destruct t as [|j]; [lia|].
  rewrite row_net_return, row_transaction_costs, row_slippage,
    row_position_change by lia.
  rewrite Htc, Hsl.
  destruct (turnover_values (zget (position sg) (S j))
              (zget (position sg) j)) as (_ & _ & ->);
    [apply Hv; lia | apply Hv; lia |].
  by rewrite !sub_zero_r.
Qed.

(** ** performance.py *)

(** *** The Sortino ratio (C7) *)

(** A machine integer converts to float. *)
Lemma py_float_machine p :
  (- 2 ^ 63 <= p < 2 ^ 64)%Z -> py_float p = Some (float_of_Z p).
Proof.
  intros H. unfold py_float.
  assert (Hb : (2 ^ 64 < 2 ^ 1024 - 2 ^ 970)%Z) by (by vm_compute).
  assert (H63 : (2 ^ 63 < 2 ^ 64)%Z) by (by vm_compute).
  by rewrite (proj2 (Z.ltb_lt _ _)) by lia.
Qed.

Lemma py_float_div_some x p :
  p <> 0%Z -> (Z.abs p < 2 ^ 1024 - 2 ^ 970)%Z ->
  py_float_div x p = Some (x / float_of_Z p)%float.
Proof.
  intros Hp Hb. unfold py_float_div, py_float.
  rewrite (proj2 (Z.ltb_lt _ _) Hb). cbn [mbind option_bind].
  by rewrite (proj2 (Z.eqb_neq _ _) Hp).
Qed.

Lemma np_sqrt_int_machine p :
  (- 2 ^ 63 <= p < 2 ^ 64)%Z ->
  np_sqrt_int p = Some (PrimFloat.sqrt (float_of_Z p)).
Proof.
  intros [H1 H2]. unfold np_sqrt_int.
  by rewrite (proj2 (Z.leb_le _ _) H1), (proj2 (Z.ltb_lt _ _) H2).
Qed.

Lemma np_sqrt_int_some p r :
  np_sqrt_int p = Some r -> (- 2 ^ 63 <= p < 2 ^ 64)%Z.
Proof.
  unfold np_sqrt_int.
  destruct (- 2 ^ 63 <=? p)%Z eqn:E1; [|done].
  destruct (p <? 2 ^ 64)%Z eqn:E2; [|done].
  intros _. split; [by apply Z.leb_le|by apply Z.ltb_lt].
Qed.

(** C7, amended.  For a [periods_per_year] that is not 0 and converts
    to a float (below 2^1024 - 2^970 in absolute value),
    [calculate_sortino_ratio] returns the sentinel (+infinity if the
    mean excess return is positive, else 0) when there are no negative
    excess returns or when their standard deviation equals 0; in every
    other case it returns sqrt(periods_per_year) * mean(excess returns) /
    std(negative excess returns) when NumPy can take the root of the
    integer, that is for -2^63 <= periods_per_year < 2^64, and raises
    TypeError for the other integers. *)
Theorem calculate_sortino_ratio_cases returns risk_free_rate periods :
  periods <> 0%Z -> (Z.abs periods < 2 ^ 1024 - 2 ^ 970)%Z ->
  let per_period := (risk_free_rate / float_of_Z periods)%float in
  let excess := map (fun r => (r - per_period)%float) returns in
  let downside := filter (fun x => (x <? 0)%float = true) excess in
  let sentinel :=
    if (0 <? series_mean excess)%float then infinity else 0%float in
  (downside = [] \/ (series_std downside =? 0)%float = true ->
   calculate_sortino_ratio returns risk_free_rate periods = Some sentinel) /\
  (downside <> [] -> (series_std downside =? 0)%float = false ->
   calculate_sortino_ratio returns risk_free_rate periods
   = if (- 2 ^ 63 <=? periods)%Z && (periods <? 2 ^ 64)%Z
     then Some (PrimFloat.sqrt (float_of_Z periods) * series_mean excess
                / series_std downside)%float
     else None).
Proof.
  intros Hp Hb per_period excess downside sentinel.
  unfold calculate_sortino_ratio.
  rewrite (py_float_div_some _ _ Hp Hb). cbn [mbind option_bind].
  fold per_period. fold excess. fold downside.
  destruct returns as [|r0 rs].
  - cbn. split; [done|]. intros H. by destruct H.
  - cbn [length Nat.eqb]. split.
    + intros [-> | ->]; [done|]. by rewrite orb_true_r.
    + intros Hne ->. destruct downside; [done|].
      cbn [length Nat.eqb orb]. unfold np_sqrt_int.
      by destruct (_ && _).
Qed.

(** *** First minimum and first maximum *)

Lemma fget_app_l (P l : list float) t :
  t < length P -> fget (P ++ l) t = fget P t.
Proof. intros H. unfold fget. by rewrite !nth_lookup, lookup_app_l. Qed.

Lemma fget_app_length (P l : list float) x :
  fget (P ++ x :: l) (length P) = x.
Proof. apply fget_lookup. by rewrite list_lookup_middle. Qed.

Lemma leb_spec_sf x y : (x <=? y)%float = SFleb (Prim2SF x) (Prim2SF y).
Proof. apply FloatAxioms.leb_spec. Qed.


Lemma leb_ltb_trans x y z :
  (x <=? y)%float = true -> (y <? z)%float = true -> (x <? z)%float = true.
Proof. rewrite leb_spec_sf, !FloatAxioms.ltb_spec. apply SFleb_ltb_trans. Qed.






Lemma ltb_is_nan_l x y : (x <? y)%float = true -> is_nan x = false.
Proof.
  intros H. destruct (is_nan x) eqn:E; [|done].
  apply is_nan_spec in E as ->. by rewrite ltb_nan_l in H.
Qed.


(** The first minimum: nothing in the array is below it. *)
Lemma argmin_from_spec P l bi b i k m :
  argmin_from bi b i l = (k, m) ->
  length P = i -> bi < i -> fget P bi = b ->
  (forall t, t < i -> (fget P t <? b)%float = false) ->
  k < length (P ++ l) /\ fget (P ++ l) k = m /\
  forall t, t < length (P ++ l) -> (fget (P ++ l) t <? m)%float = false.
Proof.
  revert P bi b i. induction l as [|x r IH]; intros P bi b i Hr HP Hbi Hb Hall.
  - cbn in Hr. injection Hr as <- <-. rewrite app_nil_r, HP. auto.
  - cbn in Hr. rewrite cons_middle, app_assoc.
    assert (HP' : length (P ++ [x]) = S i)
      by (rewrite length_app, HP; cbn; lia).
    assert (Hx : fget (P ++ [x]) i = x) by (rewrite <- HP; apply fget_app_length).
    destruct (x <? b)%float eqn:E.
    + apply (IH (P ++ [x]) i x (S i) Hr HP'); [lia|done|].
      intros t Ht. destruct (decide (t = i)) as [->|Hne].
      * rewrite Hx. apply ltb_irrefl.
      * rewrite fget_app_l by lia.
        destruct (fget P t <? x)%float eqn:E2; [|done].
        rewrite <- (Hall t ltac:(lia)). symmetry. by eapply ltb_trans.
    + apply (IH (P ++ [x]) bi b (S i) Hr HP'); [lia| |].
      * rewrite fget_app_l by lia. done.
      * intros t Ht. destruct (decide (t = i)) as [->|Hne].
        -- by rewrite Hx.
        -- rewrite fget_app_l by lia. apply Hall. lia.
Qed.




Lemma length_fill_nan v l : length (fill_nan v l) = length l.
Proof. apply length_map. Qed.

Lemma fget_fill_nan v l t :
  t < length l ->
  fget (fill_nan v l) t = if is_nan (fget l t) then v else fget l t.
Proof. intros H. unfold fill_nan. by rewrite fget_map. Qed.

Lemma fget_take (l : list float) n t : t < n -> fget (take n l) t = fget l t.
Proof. intros H. unfold fget. by rewrite !nth_lookup, lookup_take_lt. Qed.

Lemma fget_drop (l : list float) n t : fget (drop n l) t = fget l (n + t).
Proof. unfold fget. by rewrite !nth_lookup, lookup_drop. Qed.

Lemma all_nan_false l :
  all_nan l = false -> exists t, t < length l /\ is_nan (fget l t) = false.
Proof.
  induction l as [|x r IH]; [done|]. cbn.
  destruct (is_nan x) eqn:E.
  - intros H. destruct (IH H) as (t & Ht & Hn). exists (S t). split; [lia|done].
  - intros _. exists 0. split; [lia|done].
Qed.

Lemma all_nan_true l t :
  all_nan l = true -> t < length l -> is_nan (fget l t) = true.
Proof.
  revert t. induction l as [|x r IH]; intros t H Ht; [cbn in Ht; lia|].
  cbn in H. apply andb_true_iff in H as [Hx Hr].
  destruct t as [|t]; [done|]. apply IH; [done|cbn in Ht; lia].
Qed.

(** [idxmin] and [min]: the trough and the most negative value. *)
Lemma idxmin_spec l p :
  idxmin l = Some p ->
  p < length l /\
  fget (fill_nan infinity l) p = series_min l /\
  forall t, t < length l -> (fget l t <? series_min l)%float = false.
Proof.
  unfold idxmin, series_min. destruct (all_nan l); [done|].
  pose proof (length_fill_nan infinity l) as Hlen.
  pose proof (fget_fill_nan infinity l) as Hfill.
  destruct (fill_nan infinity l) as [|x r] eqn:E; [done|].
  intros [= <-].
  destruct (argmin_from 0 x 1 r) as [k m] eqn:Ea. cbn [fst snd].
  destruct (argmin_from_spec [x] r 0 x 1 k m Ea) as (Hk & Hm & Hall);
    try done; try lia.
  { intros t Ht. replace t with 0 by lia. apply ltb_irrefl. }
  cbn [app] in *. rewrite Hlen in Hk, Hall.
  repeat split; try done.
  intros t Ht. specialize (Hall t Ht). rewrite Hfill in Hall by done.
  destruct (is_nan (fget l t)) eqn:En; [|done].
  apply is_nan_spec in En as ->. apply ltb_nan_l.
Qed.



(** *** Running maximum, drawdown and recovery *)

Lemma length_expanding_max_from m l :
  length (expanding_max_from m l) = length l.
Proof. revert m. induction l as [|x r IH]; intros m; cbn; auto. Qed.

Lemma length_drawdown_series pv : length (drawdown_series pv) = length pv.
Proof.
  unfold drawdown_series, expanding_max.
  rewrite length_zip_with, length_expanding_max_from. lia.
Qed.

Lemma fget_drawdown_series pv t :
  t < length pv ->
  fget (drawdown_series pv) t
  = ((fget pv t - fget (expanding_max pv) t)
     / fget (expanding_max pv) t)%float.
Proof.
  intros H. unfold drawdown_series. rewrite fget_zip_with; [done..|].
  unfold expanding_max. by rewrite length_expanding_max_from.
Qed.



Lemma sub_nan_div_l y : is_nan ((nan - y) / y) = true.
Proof.
  rewrite sub_nan_l. apply is_nan_spec, Prim2SF_inj.
  rewrite div_spec. reflexivity.
Qed.

(** A valid drawdown comes from a valid portfolio value. *)
Lemma drawdown_valid_value pv t :
  t < length pv -> is_nan (fget (drawdown_series pv) t) = false ->
  is_nan (fget pv t) = false.
Proof.
  intros Ht H. rewrite fget_drawdown_series in H by done.
  destruct (is_nan (fget pv t)) eqn:E; [|done].
  apply is_nan_spec in E. rewrite E in H. by rewrite sub_nan_div_l in H.
Qed.


Lemma all_nan_witness l t :
  t < length l -> is_nan (fget l t) = false -> all_nan l = false.
Proof.
  intros Ht Hn. destruct (all_nan l) eqn:E; [|done].
  by rewrite (all_nan_true l t E Ht) in Hn.
Qed.

Lemma idxmin_some l : all_nan l = false -> exists p, idxmin l = Some p.
Proof.
  intros H. unfold idxmin. rewrite H.
  destruct l as [|x r]; [done|]. cbn. eauto.
Qed.

Lemma idxmax_some l : all_nan l = false -> exists k, idxmax l = Some k.
Proof.
  intros H. unfold idxmax. rewrite H.
  destruct l as [|x r]; [done|]. cbn. eauto.
Qed.

Lemma leb_is_nan_l x y : (x <=? y)%float = true -> is_nan x = false.
Proof.
  intros H. destruct (is_nan x) eqn:E; [|done].
  apply is_nan_spec in E as ->.
  by rewrite leb_spec_sf, Prim2SF_nan in H.
Qed.



(** The trough: the first timestamp with the most negative drawdown. *)
Lemma trough_spec pv :
  (exists t, t < length pv /\
             (fget (drawdown_series pv) t <=? 0)%float = true) ->
  exists p,
    idxmin (drawdown_series pv) = Some p /\
    p < length pv /\
    is_nan (fget pv p) = false /\
    fget (drawdown_series pv) p = series_min (drawdown_series pv) /\
    forall t, t < length pv ->
      (fget (drawdown_series pv) t <? series_min (drawdown_series pv))%float
      = false.
Proof.
  intros (t0 & Ht0 & Hle0).
  pose proof (length_drawdown_series pv) as Hlen.
  assert (Hnn : all_nan (drawdown_series pv) = false).
  { apply (all_nan_witness _ t0); [by rewrite Hlen|by eapply leb_is_nan_l]. }
  destruct (idxmin_some _ Hnn) as [p Hmin]. exists p.
  destruct (idxmin_spec _ _ Hmin) as (Hp & Hm & Hall).
  rewrite Hlen in Hp, Hall.
  assert (Hdp : is_nan (fget (drawdown_series pv) p) = false).
  { destruct (is_nan (fget (drawdown_series pv) p)) eqn:E; [|done].
    rewrite fget_fill_nan, E in Hm by (by rewrite Hlen).
    specialize (Hall t0 Ht0). rewrite <- Hm in Hall.
    by rewrite (leb_ltb_trans _ 0 infinity Hle0) in Hall. }
  rewrite fget_fill_nan, Hdp in Hm by (by rewrite Hlen).
  repeat split; try done. by apply drawdown_valid_value.
Qed.


(** *** The first minimum *)

Lemma leb_refl x : is_nan x = false -> (x <=? x)%float = true.
Proof.
  rewrite is_nan_sf, leb_spec_sf. unfold SFleb.
  destruct (Prim2SF x) as [[|]|[|]| |[|] m e]; cbn [sf_nan SFcompare];
    try done; intros _; change (Pos.compare_cont Eq) with Pos.compare;
    by rewrite ?Z.compare_refl, ?Pos.compare_refl.
Qed.








(** *** The running maximum *)





(** *** A drawdown equal to 0 *)






(** At its own running maximum a finite nonzero value has drawdown 0. *)
Lemma self_drawdown_zero x :
  is_finite x = true -> (x =? 0)%float = false ->
  (PrimFloat.abs ((x - x) / x) =? 0)%float = true /\
  ((x - x) / x <=? 0)%float = true.
Proof.
  rewrite is_finite_sf, !FloatAxioms.eqb_spec, leb_spec_sf, abs_spec, div_spec,
    sub_spec, Prim2SF_zero.
  destruct (Prim2SF x) as [[|]|[|]| |[|] m e]; try done; intros _ _;
    unfold SF64div, SF64sub, SFsub; rewrite Z.sub_diag; done.
Qed.





(** *** The maximum drawdown (C5) *)


(** ** pair_selector.py *)

(** *** Ranking *)

Lemma insert_by_not_nil {A} (lt : A -> A -> bool) x l : insert_by lt x l <> [].
Proof. destruct l; cbn; [done|]. by case_match. Qed.

Lemma insert_by_elem {A} (lt : A -> A -> bool) x l z :
  z ∈ insert_by lt x l <-> z = x \/ z ∈ l.
Proof.
  induction l as [|u l IH]; cbn.
  - rewrite list_elem_of_singleton, elem_of_nil. tauto.
  - destruct (lt u x); rewrite !elem_of_cons, ?IH; tauto.
Qed.

Lemma sort_by_elem {A} (lt : A -> A -> bool) l z :
  z ∈ sort_by lt l <-> z ∈ l.
Proof.
  induction l as [|x l IH]; [done|].
  change (sort_by lt (x :: l)) with (insert_by lt x (sort_by lt l)).
  rewrite insert_by_elem, elem_of_cons, IH. tauto.
Qed.

(** The head of a sorted list: on elements that [lt] orders as a strict
    weak order, none ranks strictly before it. *)
Lemma sort_by_top {A} (lt : A -> A -> bool) (P : A -> Prop) l h r :
  (forall x, lt x x = false) ->
  (forall x y z, lt x y = true -> lt y z = true -> lt x z = true) ->
  (forall x y z, P y -> lt x z = true -> lt x y = true \/ lt y z = true) ->
  (forall x, x ∈ l -> P x) ->
  sort_by lt l = h :: r ->
  forall y, y ∈ l -> lt y h = false.
Proof.
  intros Hirr Htr Hco. revert h r.
  induction l as [|x l IH]; intros h r HP Hs y Hy;
    [by apply elem_of_nil in Hy|].
  change (sort_by lt (x :: l)) with (insert_by lt x (sort_by lt l)) in Hs.
  assert (HPl : forall z, z ∈ l -> P z) by (intros z Hz; apply HP; by right).
  destruct (sort_by lt l) as [|h' r'] eqn:E.
  - assert (l = []) as ->.
    { destruct l as [|x' l']; [done|].
      by destruct (insert_by_not_nil lt x' (sort_by lt l')). }
    cbn in Hs. injection Hs as <- <-.
    apply list_elem_of_singleton in Hy as ->. apply Hirr.
  - pose proof (IH h' r' HPl eq_refl) as Hmin. cbn in Hs.
    assert (Hh' : h' ∈ l) by (apply (sort_by_elem lt); rewrite E; left).
    apply elem_of_cons in Hy.
    destruct (lt h' x) eqn:Ex; injection Hs as <- <-.
    + destruct Hy as [->|Hy]; [|by apply Hmin].
      destruct (lt x h') eqn:Ey; [|done].
      by rewrite <- (Hirr x), (Htr x h' x Ey Ex).
    + destruct Hy as [->|Hy]; [apply Hirr|].
      destruct (lt y x) eqn:Ey; [|done].
      destruct (Hco y h' x (HPl h' Hh') Ey) as [H|H]; [|congruence].
      by rewrite <- (Hmin y Hy).
Qed.

Lemma SFltb_cotrans x y z :
  SFeqb y y = true -> SFltb x z = true ->
  SFltb x y || SFltb y z = true.
Proof. unfold SFltb, SFeqb. sf_cases; cmp_solve. Qed.

Lemma ltb_cotrans x y z :
  is_nan y = false -> (x <? z)%float = true ->
  (x <? y)%float = true \/ (y <? z)%float = true.
Proof.
  unfold is_nan. rewrite FloatAxioms.eqb_spec, !FloatAxioms.ltb_spec.
  intros Hy%negb_false_iff Hxz.
  by apply orb_true_iff, SFltb_cotrans.
Qed.

Lemma SFtrichotomy x y :
  SFeqb x x = true -> SFeqb y y = true ->
  SFltb x y || SFeqb x y || SFltb y x = true.
Proof. unfold SFltb, SFeqb. sf_cases; cmp_solve. Qed.

Lemma trichotomy x y :
  is_nan x = false -> is_nan y = false ->
  (x <? y)%float = true \/ (x =? y)%float = true \/ (y <? x)%float = true.
Proof.
  unfold is_nan. rewrite !FloatAxioms.eqb_spec, !FloatAxioms.ltb_spec.
  intros Hx%negb_false_iff Hy%negb_false_iff.
  pose proof (SFtrichotomy _ _ Hx Hy) as H.
  apply orb_true_iff in H as [H|H]; [|auto].
  apply orb_true_iff in H as [H|H]; auto.
Qed.

Lemma SFeqb_trans x y z :
  SFeqb x y = true -> SFeqb y z = true -> SFeqb x z = true.
Proof. unfold SFeqb. sf_cases; cmp_solve. Qed.

Lemma SFeqb_sym x y : SFeqb x y = SFeqb y x.
Proof. unfold SFeqb. sf_cases; cmp_solve. Qed.

Lemma SFltb_not_eqb x y : SFltb x y = true -> SFeqb x y = false.
Proof. unfold SFltb, SFeqb. sf_cases; cmp_solve. Qed.

Lemma eqb_trans x y z :
  (x =? y)%float = true -> (y =? z)%float = true -> (x =? z)%float = true.
Proof. rewrite !FloatAxioms.eqb_spec. apply SFeqb_trans. Qed.

Lemma eqb_sym x y : (x =? y)%float = (y =? x)%float.
Proof. rewrite !FloatAxioms.eqb_spec. apply SFeqb_sym. Qed.

Lemma ltb_not_eqb x y : (x <? y)%float = true -> (x =? y)%float = false.
Proof. rewrite FloatAxioms.eqb_spec, FloatAxioms.ltb_spec. apply SFltb_not_eqb. Qed.

Lemma ltb_not_eqb_sym x y : (x <? y)%float = true -> (y =? x)%float = false.
Proof. rewrite eqb_sym. apply ltb_not_eqb. Qed.

Lemma is_nan_opp_abs x : is_nan (- PrimFloat.abs x) = is_nan x.
Proof.
  rewrite !is_nan_sf, FloatAxioms.opp_spec, abs_spec.
  by destruct (Prim2SF x) as [[|]|[|]| |[|] m e].
Qed.

Lemma pvalue_lt_irrefl a : pvalue_lt a a = false.
Proof. apply ltb_irrefl. Qed.

Lemma pvalue_lt_trans a b c :
  pvalue_lt a b = true -> pvalue_lt b c = true -> pvalue_lt a c = true.
Proof. apply ltb_trans. Qed.

Lemma pvalue_lt_cotrans a b c :
  is_nan (cointegration_pvalue b) = false ->
  pvalue_lt a c = true -> pvalue_lt a b = true \/ pvalue_lt b c = true.
Proof. apply ltb_cotrans. Qed.

Lemma corr_pvalue_lt_irrefl a : corr_pvalue_lt a a = false.
Proof. unfold corr_pvalue_lt. case_match; apply ltb_irrefl. Qed.

(** The two ways a tuple key is strictly smaller. *)
Lemma corr_pvalue_lt_cases a b :
  corr_pvalue_lt a b = true <->
  ((- PrimFloat.abs (correlation a) =? - PrimFloat.abs (correlation b))%float
   = true /\
   (cointegration_pvalue a <? cointegration_pvalue b)%float = true) \/
  (- PrimFloat.abs (correlation a) <? - PrimFloat.abs (correlation b))%float
  = true.
Proof.
  unfold corr_pvalue_lt.
  destruct (_ =? _)%float eqn:E.
  - split; [auto|]. intros [[_ H]|H]; [done|].
    by rewrite (ltb_not_eqb _ _ H) in E.
  - split; [auto|]. by intros [[? _]|H].
Qed.

Lemma corr_pvalue_lt_trans a b c :
  corr_pvalue_lt a b = true -> corr_pvalue_lt b c = true ->
  corr_pvalue_lt a c = true.
Proof.
  rewrite !corr_pvalue_lt_cases.
  intros [[E1 L1]|L1] [[E2 L2]|L2].
  - left. split; [by eapply eqb_trans|by eapply ltb_trans].
  - right. by rewrite (eqb_ltb_l _ _ _ E1).
  - right. by rewrite <- (eqb_ltb_r _ _ _ E2).
  - right. by eapply ltb_trans.
Qed.

Lemma corr_pvalue_lt_cotrans a b c :
  is_nan (correlation b) = false /\ is_nan (cointegration_pvalue b) = false ->
  corr_pvalue_lt a c = true ->
  corr_pvalue_lt a b = true \/ corr_pvalue_lt b c = true.
Proof.
  intros [Hk Hp]. rewrite <- is_nan_opp_abs in Hk.
  rewrite !corr_pvalue_lt_cases.
  set (ka := (- PrimFloat.abs (correlation a))%float) in *.
  set (kb := (- PrimFloat.abs (correlation b))%float) in *.
  set (kc := (- PrimFloat.abs (correlation c))%float) in *.
  intros [[E L]|L].
  - assert (Hka : is_nan ka = false).
    { destruct (is_nan ka) eqn:En; [|done].
      apply is_nan_spec in En. rewrite En in E.
      by rewrite FloatAxioms.eqb_spec, Prim2SF_nan in E. }
    destruct (trichotomy ka kb Hka Hk) as [H|[H|H]].
    + left. by right.
    + destruct (ltb_cotrans _ _ _ Hp L) as [H'|H'].
      * left. left. done.
      * right. left. split; [|done].
        apply (eqb_trans _ ka); [by rewrite eqb_sym|done].
    + right. right. by rewrite <- (eqb_ltb_r _ _ _ E).
  - destruct (ltb_cotrans _ _ _ Hk L) as [H|H]; [left|right]; by right.
Qed.

Section PairSelectionTheorems.

Variable corr : list float -> list float -> option float.
Variable coint : list float -> list float -> option (float * float).
Variable ols_slope : list float -> list float -> option float.
Variable ols_theta : list float -> list float -> option float.

Abbreviation strict_scan :=
  (find_cointegrated_pairs corr coint ols_slope ols_theta).
Abbreviation lenient_scan :=
  (find_correlation_based_pairs corr coint ols_slope ols_theta).
Abbreviation select := (select_best_pair corr coint ols_slope ols_theta).

Abbreviation test := (test_pair corr coint ols_slope ols_theta).

(** An accepted candidate passed the test on its p-value. *)
Lemma test_pair_pvalue prices mc bound s1 s2 info st :
  test prices mc bound s1 s2 = Some (info, st) ->
  (cointegration_pvalue info <? bound)%float = true.
Proof.
  unfold test_pair. intros H.
  repeat match type of H with
  | (match ?x with _ => _ end) = _ => destruct x eqn:?; try done
  | (?x ≫= _) = _ => destruct x eqn:?; cbn in H; try done
  | (if ?x then _ else _) = _ => destruct x eqn:?; try done
  end.
  by injection H as <- <-.
Qed.

Lemma strict_scan_pvalue self prices mc y :
  y ∈ (strict_scan self prices mc).1 ->
  is_nan (cointegration_pvalue y) = false.
Proof.
  unfold find_cointegrated_pairs. cbn [fst].
  rewrite sort_by_elem, list_elem_of_omap.
  intros ([s1 s2] & _ & H). cbn in H.
  destruct (test _ _ _ _ _) as [[info st]|] eqn:E; [|done].
  injection H as ->. by eapply ltb_is_nan_l, test_pair_pvalue.
Qed.

Lemma lenient_scan_pvalue prices mc mp y :
  y ∈ lenient_scan prices mc mp ->
  is_nan (cointegration_pvalue y) = false.
Proof.
  unfold find_correlation_based_pairs.
  rewrite sort_by_elem, list_elem_of_omap.
  intros ([s1 s2] & _ & H). cbn in H.
  destruct (test _ _ _ _ _) as [[info st]|] eqn:E; [|done]. cbn in H.
  destruct (_ && _); [|done].
  injection H as ->. by eapply ltb_is_nan_l, test_pair_pvalue.
Qed.

Lemma strict_scan_top self prices mc b l :
  (strict_scan self prices mc).1 = b :: l ->
  forall y, y ∈ (strict_scan self prices mc).1 -> pvalue_lt y b = false.
Proof.
  intros H y Hy.
  assert (Hp : forall x, x ∈ (strict_scan self prices mc).1 ->
                 is_nan (cointegration_pvalue x) = false)
    by (intros x; apply strict_scan_pvalue).
  revert H y Hy Hp. unfold find_cointegrated_pairs. cbn [fst].
  intros H y Hy Hp. apply sort_by_elem in Hy.
  eapply (sort_by_top pvalue_lt
            (fun x => is_nan (cointegration_pvalue x) = false));
    [apply pvalue_lt_irrefl | apply pvalue_lt_trans | apply pvalue_lt_cotrans
    | | exact H | exact Hy].
  intros x Hx. apply Hp. by apply sort_by_elem.
Qed.

Lemma lenient_scan_top prices mc mp b l :
  lenient_scan prices mc mp = b :: l ->
  (forall y, y ∈ lenient_scan prices mc mp -> is_nan (correlation y) = false) ->
  forall y, y ∈ lenient_scan prices mc mp -> corr_pvalue_lt y b = false.
Proof.
  intros H Hc y Hy.
  assert (Hp : forall x, x ∈ lenient_scan prices mc mp ->
                 is_nan (cointegration_pvalue x) = false)
    by (intros x; apply lenient_scan_pvalue).
  revert H Hc y Hy Hp. unfold find_correlation_based_pairs.
  intros H Hc y Hy Hp. apply sort_by_elem in Hy.
  eapply (sort_by_top corr_pvalue_lt
            (fun x => is_nan (correlation x) = false /\
                      is_nan (cointegration_pvalue x) = false));
    [apply corr_pvalue_lt_irrefl | apply corr_pvalue_lt_trans
    | apply corr_pvalue_lt_cotrans | | exact H | exact Hy].
  intros x Hx. split; [apply Hc|apply Hp]; by apply sort_by_elem.
Qed.

(** *** The fallback cascade (C6) *)

(** C6, amended.  [select_best_pair] first runs the strict
    cointegration scan; if that yields nothing and fallback is enabled,
    it retries with the caller's min_correlation and max_pvalue = 0.20,
    then with min_correlation = 0.6 and max_pvalue = 0.30; if every level
    yields nothing, or the strict scan does and fallback is disabled, it
    fails with the fixed "No suitable pairs found" error; otherwise it
    returns the top-ranked candidate of the first level that succeeds:
    no candidate of the strict level has a smaller p-value, and no
    candidate of a lenient level whose correlations are numbers ranks
    before it. *)
Theorem select_best_pair_cascade self prices min_correlation use_fallback :
  let strict := (strict_scan self prices min_correlation).1 in
  let lenient := lenient_scan prices min_correlation 0.20%float in
  let lenient2 := lenient_scan prices 0.6%float 0.30%float in
  let result := (select self prices min_correlation use_fallback).1 in
  (forall b l, strict = b :: l ->
     result = inr b /\ forall y, y ∈ strict -> pvalue_lt y b = false) /\
  (strict = [] -> use_fallback = true ->
     (forall b l, lenient = b :: l ->
        result = inr b /\ ranked_by_correlation b lenient) /\
     (lenient = [] ->
        (forall b l, lenient2 = b :: l ->
           result = inr b /\ ranked_by_correlation b lenient2) /\
        (lenient2 = [] -> result = inl (ValueError no_pairs_message)))) /\
  (strict = [] -> use_fallback = false ->
     result = inl (ValueError no_pairs_message)).
Proof.
  intros strict lenient lenient2 result.
  assert (Hres : result =
    match (match strict with
           | [] => if use_fallback
                   then match lenient with [] => lenient2 | _ => lenient end
                   else strict
           | _ => strict
           end) with
    | [] => inl (ValueError no_pairs_message)
    | best :: _ => inr best
    end).
  { unfold result, select_best_pair, strict.
    destruct (strict_scan self prices min_correlation) as [found self'].
    cbn [fst]. subst lenient lenient2.
    destruct found; [|done]. destruct use_fallback; [|done].
    destruct (lenient_scan prices min_correlation 0.2); [|done].
    by destruct (lenient_scan prices 0.6 0.3). }
  split; [|split].
  - intros b l Hs. split.
    + rewrite Hres, Hs. done.
    + by apply strict_scan_top with l.
  - intros Hs ->. split.
    + intros b l Hl. split; [by rewrite Hres, Hs, Hl|].
      intros Hc. by apply lenient_scan_top with l.
    + intros Hl. split.
      * intros b l Hl2. split; [by rewrite Hres, Hs, Hl, Hl2|].
        intros Hc. by apply lenient_scan_top with l.
      * intros Hl2. by rewrite Hres, Hs, Hl, Hl2.
  - intros Hs ->. by rewrite Hres, Hs.
Qed.

End PairSelectionTheorems.

(** * Concrete runs *)

Lemma sample_positions : position sample_signals = [0; 1; 1; 0]%Z.
Proof. vm_compute. reflexivity. Qed.

Lemma sample_positions_valid : valid_positions (position sample_signals).
Proof.
  rewrite sample_positions. intros i Hi. unfold is_state, Flat, Long, Short.
  do 4 (destruct i as [|i]; [cbn; auto|]). cbn in Hi. lia.
Qed.

(** A z-score equal to -exit_threshold leaves the Long state alone. *)
Lemma generate_signals_state_machine_witness :
  2 < length sample_spread /\
  current_position
    (run_loop unit_mean unit_std (fun _ => unit_mean) (fun _ => unit_std)
              default_generator sample_spread 3) = Long.
Proof.
  split; [cbn; lia|].
  destruct (generate_signals_state_machine
              unit_mean unit_std (fun _ => unit_mean) (fun _ => unit_std)
              default_generator sample_spread 1%float 2)
    as (_ & _ & _ & _ & _ & _ & _ & _ & Hthr); [cbn; lia|].
  rewrite Hthr; vm_compute; reflexivity.
Defined.

(** The exit at the fourth timestamp closes the position held before. *)
Lemma generate_signals_entry_exit_witness :
  3 < length sample_spread /\
  zget (position sample_signals) 3 = 0%Z /\
  exists j, 3 = S j /\ zget (position sample_signals) j <> 0%Z.
Proof.
  split; [cbn; lia|].
  destruct (generate_signals_entry_exit
              unit_mean unit_std (fun _ => unit_mean) (fun _ => unit_std)
              default_generator sample_spread 1%float 3)
    as (_ & Hexit & _); [cbn; lia|].
  apply Hexit. vm_compute. reflexivity.
Defined.

(** The long spread held over the third period earns B minus A. *)
Lemma calculate_returns_strategy_return_witness :
  exists res,
    calculate_returns default_backtester sample_signals "A" "B"
                      sample_prices = Some res /\
    fget (strategy_return res) 2
    = (simple_return [100; 103; 97; 100] 2
       - simple_return [100; 101; 99; 100] 2)%float.
Proof.
  destruct (calculate_returns_strategy_return
              default_backtester sample_signals "A" "B" sample_prices
              [100; 101; 99; 100]%float [100; 103; 97; 100]%float 1)
    as (res & Hres & _ & Hlong & _);
    try reflexivity; try (rewrite ?sample_positions; cbn; lia).
  exists res. split; [done|]. apply Hlong. vm_compute. reflexivity.
Defined.


(** Without costs the third period's net return is its strategy
    return. *)
Lemma zero_costs_net_return_witness :
  exists res,
    calculate_returns free_backtester sample_signals "A" "B"
                      sample_prices = Some res /\
    fget (net_return res) 2 = fget (strategy_return res) 2.
Proof.
  apply (zero_costs_net_return
           free_backtester sample_signals "A" "B" sample_prices
           [100; 101; 99; 100]%float [100; 103; 97; 100]%float 2);
    try reflexivity; [apply sample_positions_valid|].
  rewrite sample_positions. cbn. lia.
Defined.

(** C8 as stated fails at the first timestamp: without costs the net
    return is NaN there and the strategy return is 0. *)
Lemma zero_costs_counterexample :
  transaction_cost free_backtester = 0%float /\
  slippage_rate free_backtester = 0%float /\
  exists res,
    calculate_returns free_backtester sample_signals "A" "B"
                      sample_prices = Some res /\
    fget (net_return res) 0 = nan /\
    fget (strategy_return res) 0 = 0%float /\
    fget (net_return res) 0 <> fget (strategy_return res) 0.
Proof.
  split; [reflexivity|]. split; [reflexivity|].
  eexists. split; [reflexivity|].
  split; [vm_compute; reflexivity|]. split; [vm_compute; reflexivity|].
  intros H. apply (f_equal is_nan) in H. vm_compute in H. discriminate.
Qed.

(** With both downside days equal the deviation of the negative excess
    returns is 0: the sentinel is returned although negative excess
    returns exist, and it is not the quotient, which is -infinity. *)
Lemma calculate_sortino_ratio_counterexample :
  let excess := map (fun r => (r - 0 / float_of_Z 252)%float) losing_returns in
  let downside := filter (fun x => (x <? 0)%float = true) excess in
  downside <> [] /\
  calculate_sortino_ratio losing_returns 0 252 = Some 0%float /\
  (PrimFloat.sqrt (float_of_Z 252) * series_mean excess
   / series_std downside)%float = neg_infinity /\
  calculate_sortino_ratio losing_returns 0 252
  <> Some (PrimFloat.sqrt (float_of_Z 252) * series_mean excess
           / series_std downside)%float.
Proof.
  cbn zeta. split; [vm_compute; discriminate|].
  split; [vm_compute; reflexivity|]. split; [vm_compute; reflexivity|].
  intros H. apply (f_equal (fun o => match o with
                                     | Some x => is_finite x
                                     | None => false
                                     end)) in H.
  vm_compute in H. discriminate.
Qed.

(** Two losing days of different size: the quotient is returned. *)
Lemma calculate_sortino_ratio_cases_witness :
  let excess := map (fun r => (r - 0 / float_of_Z 252)%float) mixed_returns in
  let downside := filter (fun x => (x <? 0)%float = true) excess in
  calculate_sortino_ratio mixed_returns 0 252
  = Some (PrimFloat.sqrt (float_of_Z 252) * series_mean excess
          / series_std downside)%float.
Proof.
  destruct (calculate_sortino_ratio_cases mixed_returns 0%float 252)
    as [_ Hquot]; [discriminate|reflexivity|].
  apply Hquot; [vm_compute; discriminate|vm_compute; reflexivity].
Defined.



(** With min_correlation = 0.9 the first lenient level keeps 0.9: it
    finds nothing, and the second level ranks A-C first.  The cascade
    of the specification would have stopped at A-B. *)
Lemma select_best_pair_counterexample :
  (exists b,
     (select_best_pair sample_corr sample_coint sample_slope sample_theta
                       strict_selector sample_universe 0.9%float true).1
     = inr b /\ symbol1 b = "A" /\ symbol2 b = "C") /\
  (exists b,
     select_best_pair_spec sample_corr sample_coint sample_slope sample_theta
                           strict_selector sample_universe 0.9%float true
     = inr b /\ symbol1 b = "A" /\ symbol2 b = "B") /\
  (select_best_pair sample_corr sample_coint sample_slope sample_theta
                    strict_selector sample_universe 0.9%float true).1
  <> select_best_pair_spec sample_corr sample_coint sample_slope sample_theta
                           strict_selector sample_universe 0.9%float true.
Proof.
  split; [|split].
  - eexists. split; [vm_compute; reflexivity|]. split; reflexivity.
  - eexists. split; [vm_compute; reflexivity|]. split; reflexivity.
  - intros H. apply (f_equal (fun r => match r with
                                       | inr b => symbol2 b
                                       | inl _ => ""
                                       end)) in H.
    vm_compute in H. discriminate.
Qed.

(** The second lenient level supplies the pair when the first two
    levels find nothing. *)
Lemma select_best_pair_cascade_witness :
  exists b,
    (select_best_pair sample_corr sample_coint sample_slope sample_theta
                      strict_selector sample_universe 0.9%float true).1
    = inr b /\
    ranked_by_correlation b
      (find_correlation_based_pairs sample_corr sample_coint sample_slope
         sample_theta sample_universe 0.6%float 0.30%float).
Proof.
  destruct (select_best_pair_cascade sample_corr sample_coint sample_slope
              sample_theta strict_selector sample_universe 0.9%float true)
    as (_ & Hfall & _).
  destruct Hfall as [_ Hsecond]; [vm_compute; reflexivity|reflexivity|].
  destruct Hsecond as [Hfound _]; [vm_compute; reflexivity|].
  eexists. eapply Hfound. vm_compute. reflexivity.
Defined.

(** * Further properties of the sources *)

(** ** Binary64: exact products and signs *)

Lemma digits2_pos_shift52 m :
  Zpos (digits2_pos (4503599627370496 * m)) = (Zpos (digits2_pos m) + 52)%Z.
Proof. simpl. rewrite Pos.mul_1_l, !Pos2Z.inj_succ. lia. Qed.

Lemma SFmul_one_r x :
  valid_binary x = true ->
  SF64mul x (S754_finite false 4503599627370496 (-52)) = x.
Proof.
  destruct x as [[|]|[|]| |s m e]; try reflexivity.
  unfold valid_binary, SpecFloat.valid_binary, bounded, canonical_mantissa.
  intros [Hc He]%andb_true_iff. apply Z.eqb_eq in Hc.
  unfold SF64mul, SFmul, binary_round_aux.
  rewrite (Pos.mul_comm m).
  unfold shr_fexp at 1. unfold Zdigits2.
  rewrite digits2_pos_shift52.
  replace (Z.pos (digits2_pos m) + 52 + (e + -52))%Z
    with (Z.pos (digits2_pos m) + e)%Z by lia.
  rewrite Hc. replace (e - (e + -52))%Z with 52%Z by lia.
  let t := eval cbv beta iota delta [Pos.mul] in
             (4503599627370496 * m)%positive in
  change (4503599627370496 * m)%positive with t.
  cbn [shr shr_record_of_loc SpecFloat.iter_pos shr_1 orb
       shr_m loc_of_shr_record round_nearest_even].
  replace (e + -52 + 52)%Z with e by lia.
  unfold shr_fexp, Zdigits2. rewrite Hc, Z.sub_diag.
  cbn [shr shr_record_of_loc shr_m].
  rewrite He. by destruct s.
Qed.

Lemma mul_one_r x : (x * 1)%float = x.
Proof.
  apply Prim2SF_inj. rewrite mul_spec.
  change (Prim2SF 1) with (S754_finite false 4503599627370496 (-52)).
  apply SFmul_one_r, Prim2SF_valid.
Qed.

Lemma div_nan_r x : (x / nan)%float = nan.
Proof.
  apply Prim2SF_inj. rewrite div_spec, Prim2SF_nan.
  by destruct (Prim2SF x) as [[|]|[|]| |[|] m e].
Qed.

Lemma eqb_nan_l x : (nan =? x)%float = false.
Proof. by rewrite FloatAxioms.eqb_spec, Prim2SF_nan. Qed.

(** The product of +0 and a finite rate that is 0 or positive is +0. *)
Lemma mul_zero_rate x :
  is_finite x = true -> x = 0%float \/ (0 <? x)%float = true ->
  (0 * x)%float = 0%float.
Proof.
  intros Hf [->|Hp]; [reflexivity|].
  apply Prim2SF_inj. revert Hf Hp.
  rewrite is_finite_sf, FloatAxioms.ltb_spec, mul_spec, Prim2SF_zero.
  by destruct (Prim2SF x) as [[|]|[|]| |[|] m e].
Qed.

(** Charging a finite rate on no turnover leaves +0. *)
Lemma sub_zero_charge x :
  is_finite x = true -> (0 - 0 * x)%float = 0%float.
Proof.
  intros Hf. apply Prim2SF_inj. revert Hf.
  rewrite is_finite_sf, sub_spec, mul_spec, Prim2SF_zero.
  by destruct (Prim2SF x) as [[|]|[|]| |[|] m e].
Qed.

(** Rounding keeps the sign it is given. *)
Lemma binary_round_aux_unsigned mx ex lx :
  (0 <= mx)%Z -> sf_unsigned (binary_round_aux prec emax false mx ex lx) = true.
Proof.
  intros H. unfold binary_round_aux.
  pose proof (shr_fexp_nonneg mx ex lx H) as H1.
  destruct (shr_fexp prec emax mx ex lx) as [mrs' e']. cbn [fst] in H1.
  pose proof (shr_fexp_nonneg _ e' loc_Exact
                (round_nearest_even_nonneg _ (loc_of_shr_record mrs') H1)) as H2.
  destruct (shr_fexp prec emax _ e' loc_Exact) as [mrs'' e'']. cbn [fst] in H2.
  destruct (shr_m mrs''); [reflexivity| |lia].
  destruct (Z.leb _ _); reflexivity.
Qed.

Lemma binary_normalize_unsigned m e :
  (0 <= m)%Z -> sf_unsigned (binary_normalize prec emax m e false) = true.
Proof.
  intros H. destruct m as [|p|p]; [reflexivity| |lia].
  cbn [binary_normalize]. unfold binary_round.
  destruct (shl_align _ _ _). now apply binary_round_aux_unsigned.
Qed.

Lemma SFadd_unsigned x y :
  sf_unsigned x = true -> sf_unsigned y = true ->
  sf_unsigned (SF64add x y) = true.
Proof.
  destruct x as [[|]|[|]| |[|] mx ex], y as [[|]|[|]| |[|] my ey];
    unfold SF64add, SFadd; cbn [sf_unsigned negb cond_Zopp];
    try discriminate; try reflexivity; intros _ _.
  apply binary_normalize_unsigned. lia.
Qed.

Lemma SFdiv_unsigned x y :
  sf_unsigned x = true -> sf_unsigned y = true ->
  sf_unsigned (SF64div x y) = true.
Proof.
  destruct x as [[|]|[|]| |[|] mx ex], y as [[|]|[|]| |[|] my ey];
    unfold SF64div, SFdiv; cbn [sf_unsigned negb xorb];
    try discriminate; try reflexivity; intros _ _.
  unfold SFdiv_core_binary.
  set (m' := match _ with Z.pos _ => _ | 0%Z => _ | Z.neg _ => _ end).
  assert (Hm : (0 <= m')%Z).
  { subst m'. destruct (_ - _ - _)%Z; try lia.
    apply Z.shiftl_nonneg. lia. }
  pose proof (Z.div_pos m' (Z.pos my) Hm ltac:(lia)) as Hq.
  unfold Z.div in Hq. destruct (Z.div_eucl m' (Z.pos my)) as [q r].
  now apply binary_round_aux_unsigned.
Qed.

Lemma SFdiv_opp_opp x y : SF64div (SFopp x) (SFopp y) = SF64div x y.
Proof.
  destruct x as [[|]|[|]| |[|] mx ex], y as [[|]|[|]| |[|] my ey];
    reflexivity.
Qed.

Lemma sf_unsigned_not_negative x :
  sf_unsigned x = true -> SFltb x (S754_zero false) = false.
Proof. by destruct x as [[|]|[|]| |[|] m e]. Qed.

Lemma sf_positive_unsigned x :
  SFltb (S754_zero false) x = true -> sf_unsigned x = true.
Proof. by destruct x as [[|]|[|]| |[|] m e]. Qed.

Lemma unsigned_not_negative x : unsigned x = true -> (x <? 0)%float = false.
Proof.
  rewrite FloatAxioms.ltb_spec, Prim2SF_zero. apply sf_unsigned_not_negative.
Qed.

Lemma positive_unsigned x : (0 <? x)%float = true -> unsigned x = true.
Proof.
  rewrite FloatAxioms.ltb_spec, Prim2SF_zero. apply sf_positive_unsigned.
Qed.

Lemma add_unsigned x y :
  unsigned x = true -> unsigned y = true -> unsigned (x + y) = true.
Proof. unfold unsigned. rewrite add_spec. apply SFadd_unsigned. Qed.

Lemma div_unsigned x y :
  unsigned x = true -> unsigned y = true -> unsigned (x / y) = true.
Proof. unfold unsigned. rewrite div_spec. apply SFdiv_unsigned. Qed.

Lemma abs_unsigned x : unsigned (PrimFloat.abs x) = true.
Proof.
  unfold unsigned. rewrite abs_spec.
  by destruct (Prim2SF x) as [[|]|[|]| |[|] m e].
Qed.

Lemma div_opp_opp x y : (- x / - y)%float = (x / y)%float.
Proof.
  apply Prim2SF_inj. rewrite !div_spec, !FloatAxioms.opp_spec.
  apply SFdiv_opp_opp.
Qed.

(** ** Pairwise summation *)

(** -0.0 is the identity of the addition. *)
Lemma add_neg_zero_l x : (neg_zero + x)%float = x.
Proof.
  apply Prim2SF_inj. rewrite add_spec.
  change (Prim2SF neg_zero) with (S754_zero true).
  by destruct (Prim2SF x) as [[|]|[|]| |[|] m e].
Qed.

Lemma sum_from_cons acc x l : sum_from acc (x :: l) = sum_from (acc + x) l.
Proof. reflexivity. Qed.

(** Where a long array is cut. *)
Lemma cut_bounds n : 128 < n -> 0 < n / 2 - (n / 2) mod 8 < n.
Proof.
  intros Hn.
  pose proof (Nat.div_mod_eq n 2) as Hq.
  pose proof (Nat.mod_upper_bound n 2 ltac:(lia)) as Hr.
  pose proof (Nat.mod_upper_bound (n / 2) 8 ltac:(lia)) as Hm.
  lia.
Qed.

Section Summation.

(** [P] holds of every term and is kept by the addition; [Q] marks a
    sum that has taken in a marked term. *)
Variables P Q : float -> Prop.
Hypothesis P_add : forall a b, P a -> P b -> P (a + b)%float.
Hypothesis Q_add_l : forall a b, Q a -> P b -> Q (a + b)%float.
Hypothesis Q_add_r : forall a b, P a -> Q b -> Q (a + b)%float.

Lemma sum_from_kept acc l :
  P acc -> Forall P l -> P (sum_from acc l).
Proof.
  revert acc. induction l as [|x l IH]; intros acc Ha Hl; [done|].
  inversion_clear Hl. rewrite sum_from_cons. apply IH; auto.
Qed.

Lemma sum_from_marked acc l :
  P acc -> Forall P l -> Q acc \/ Exists Q l -> Q (sum_from acc l).
Proof.
  revert acc. induction l as [|x l IH]; intros acc Ha Hl Hq.
  - destruct Hq as [Hq|Hq]; [done|by apply Exists_nil in Hq].
  - inversion_clear Hl. rewrite sum_from_cons. apply IH; auto.
    destruct Hq as [Hq|Hq]; [left; auto|].
    apply Exists_cons in Hq as [Hq|Hq]; [left; auto|by right].
Qed.

Lemma zip_add_kept (r g : list float) :
  Forall P r -> Forall P g ->
  Forall P (zip_with (fun a b => (a + b)%float) r g).
Proof.
  intros Hr. revert g. induction Hr as [|a r Ha Hr IH]; intros g Hg; [done|].
  destruct Hg as [|b g Hb Hg]; [done|]. cbn. constructor; auto.
Qed.

Lemma zip_add_marked (r g : list float) :
  length r = length g -> Forall P r -> Forall P g ->
  Exists Q r \/ Exists Q g ->
  Exists Q (zip_with (fun a b => (a + b)%float) r g).
Proof.
  intros Hlen Hr. revert g Hlen.
  induction Hr as [|a r Ha Hr IH]; intros g Hlen Hg Hq.
  - destruct g; [|done].
    destruct Hq as [Hq|Hq]; by apply Exists_nil in Hq.
  - destruct Hg as [|b g Hb Hg]; [done|]. cbn.
    assert (Hcase : (Q a \/ Q b) \/ (Exists Q r \/ Exists Q g)).
    { destruct Hq as [Hq|Hq]; apply Exists_cons in Hq as [Hq|Hq]; auto. }
    destruct Hcase as [[Hq'|Hq']|Hq'].
    + apply Exists_cons_hd; auto.
    + apply Exists_cons_hd; auto.
    + apply Exists_cons_tl, IH; auto.
Qed.

Lemma accumulate8_spec n l r :
  length l <= n -> length r = 8 -> Forall P r -> Forall P l ->
  let '(r', rest) := accumulate8 r l in
  length r' = 8 /\ Forall P r' /\ Forall P rest /\
  (Exists Q r \/ Exists Q l -> Exists Q r' \/ Exists Q rest).
Proof.
  revert l r. induction n as [|n IH]; intros l r Hn Hr HPr HPl.
  { destruct l; [|cbn in Hn; lia]. cbn. auto. }
  destruct l as [|a0 [|a1 [|a2 [|a3 [|a4 [|a5 [|a6 [|a7 l]]]]]]]];
    try (cbn; auto; fail).
  cbn [accumulate8].
  assert (Hg : Forall P [a0; a1; a2; a3; a4; a5; a6; a7])
    by (repeat (inversion_clear HPl as [|? ? ? HPl']; rename HPl' into HPl;
                constructor; [done|]); constructor).
  assert (Hl : Forall P l)
    by (do 8 (inversion_clear HPl as [|? ? ? HPl']; rename HPl' into HPl);
        done).
  set (g := [a0; a1; a2; a3; a4; a5; a6; a7]) in *.
  specialize (IH l (zip_with (fun a b => (a + b)%float) r g)).
  destruct (accumulate8 _ l) as [r' rest].
  destruct IH as (H1 & H2 & H3 & H4).
  - cbn in Hn. lia.
  - rewrite length_zip_with. rewrite Hr. reflexivity.
  - by apply zip_add_kept.
  - done.
  - repeat split; try done. intros Hq. apply H4.
    assert (Hcase : (Exists Q r \/ Exists Q g) \/ Exists Q l).
    { destruct Hq as [Hq|Hq]; [auto|].
      change (a0 :: a1 :: a2 :: a3 :: a4 :: a5 :: a6 :: a7 :: l)
        with (g ++ l) in Hq.
      apply Exists_app in Hq as [Hq|Hq]; auto. }
    destruct Hcase as [Hq'|Hq']; [left|by right].
    apply zip_add_marked; auto.
Qed.

Lemma tree8_kept r : length r = 8 -> Forall P r -> P (tree8 r).
Proof.
  intros Hr Hp.
  destruct r as [|r0 [|r1 [|r2 [|r3 [|r4 [|r5 [|r6 [|r7 [|]]]]]]]]];
    try done.
  repeat (inversion_clear Hp as [|? ? ? Hp']; rename Hp' into Hp).
  cbn. auto 10.
Qed.

Lemma tree8_marked r :
  length r = 8 -> Forall P r -> Exists Q r -> Q (tree8 r).
Proof.
  intros Hr Hp Hq.
  destruct r as [|r0 [|r1 [|r2 [|r3 [|r4 [|r5 [|r6 [|r7 [|]]]]]]]]];
    try done.
  repeat (inversion_clear Hp as [|? ? ? Hp']; rename Hp' into Hp).
  cbn.
  repeat (apply Exists_cons in Hq as [Hq|Hq]; [auto 10|]).
  by apply Exists_nil in Hq.
Qed.

Lemma block_sum_spec l :
  8 <= length l -> Forall P l ->
  P (block_sum l) /\ (Exists Q l -> Q (block_sum l)).
Proof.
  intros Hn HP. unfold block_sum.
  pose proof (accumulate8_spec (length (drop 8 l)) (drop 8 l) (take 8 l)) as H.
  destruct (accumulate8 _ _) as [r rest].
  destruct H as (H1 & H2 & H3 & H4).
  - done.
  - rewrite length_take. lia.
  - by apply Forall_take.
  - by apply Forall_drop.
  - split.
    + apply sum_from_kept; [by apply tree8_kept|done].
    + intros Hq. rewrite <- (take_drop 8 l) in Hq.
      apply Exists_app in Hq.
      apply sum_from_marked; [by apply tree8_kept|done|].
      destruct (H4 Hq) as [Hq'|Hq']; [left; by apply tree8_marked|by right].
Qed.

Lemma pairwise_sum_spec d l :
  l <> [] -> Forall P l ->
  P (pairwise_sum d l) /\ (Exists Q l -> Q (pairwise_sum d l)).
Proof.
  revert l. induction d as [|d IH]; intros l Hne HP.
  - cbn [pairwise_sum]. destruct (length l <? 8)%nat eqn:E8.
    + destruct l as [|x l]; [done|]. inversion_clear HP.
      rewrite sum_from_cons, add_neg_zero_l. split.
      * by apply sum_from_kept.
      * intros Hq. apply sum_from_marked; [done|done|].
        apply Exists_cons in Hq. tauto.
    + apply Nat.ltb_ge in E8.
      destruct (length l <=? 128)%nat; by apply block_sum_spec.
  - cbn [pairwise_sum]. destruct (length l <? 8)%nat eqn:E8.
    + destruct l as [|x l]; [done|]. inversion_clear HP.
      rewrite sum_from_cons, add_neg_zero_l. split.
      * by apply sum_from_kept.
      * intros Hq. apply sum_from_marked; [done|done|].
        apply Exists_cons in Hq. tauto.
    + apply Nat.ltb_ge in E8.
      destruct (length l <=? 128)%nat eqn:E128; [by apply block_sum_spec|].
      apply Nat.leb_gt in E128.
      set (n2 := length l / 2 - (length l / 2) mod 8).
      assert (Hn2 : 0 < n2 < length l) by (by apply cut_bounds).
      destruct (IH (take n2 l)) as [Ha Ha'].
      { intros E. apply (f_equal length) in E. rewrite length_take in E.
        change (length (@nil float)) with 0 in E. lia. }
      { by apply Forall_take. }
      destruct (IH (drop n2 l)) as [Hb Hb'].
      { intros E. apply (f_equal length) in E. rewrite length_drop in E.
        change (length (@nil float)) with 0 in E. lia. }
      { by apply Forall_drop. }
      split; [auto|]. intros Hq. rewrite <- (take_drop n2 l) in Hq.
      apply Exists_app in Hq as [Hq|Hq]; auto.
Qed.

End Summation.

(** The depth never runs out when it is the length of the array. *)
Lemma pairwise_sum_depth d d' l :
  length l <= d -> length l <= d' -> pairwise_sum d l = pairwise_sum d' l.
Proof.
  revert d' l. induction d as [|d IH]; intros d' l Hd Hd'.
  - destruct l; [|cbn in Hd; lia]. by destruct d'.
  - destruct d' as [|d'].
    { destruct l; [|cbn in Hd'; lia]. reflexivity. }
    cbn [pairwise_sum]. destruct (length l <? 8)%nat; [done|].
    destruct (length l <=? 128)%nat eqn:E128; [done|].
    apply Nat.leb_gt in E128.
    set (n2 := length l / 2 - (length l / 2) mod 8).
    assert (Hn2 : 0 < n2 < length l) by (by apply cut_bounds).
    f_equal; apply IH; rewrite ?length_take, ?length_drop; lia.
Qed.

Lemma np_sum_pairwise x l :
  np_sum (x :: l) = pairwise_sum (length (x :: l)) (x :: l).
Proof. unfold np_sum. apply add_neg_zero_l. Qed.

(** A sum of values without a minus sign has none. *)
Lemma np_sum_unsigned l :
  (forall x, x ∈ l -> unsigned x = true) -> unsigned (np_sum l) = true.
Proof.
  intros H. destruct l as [|x l]; [done|]. rewrite np_sum_pairwise.
  destruct (pairwise_sum_spec (fun v => unsigned v = true) (fun _ => True)
              add_unsigned (fun _ _ _ _ => I) (fun _ _ _ _ => I)
              (length (x :: l)) (x :: l)) as [Hk _];
    [done|by apply Forall_forall|done].
Qed.

Lemma add_zeros a b : is_zero a -> is_zero b -> is_zero (a + b)%float.
Proof. intros [-> | ->] [-> | ->]; vm_compute; auto. Qed.

Lemma add_zero_plus_l a b :
  a = 0%float -> is_zero b -> (a + b)%float = 0%float.
Proof. by intros -> [-> | ->]. Qed.

Lemma add_zero_plus_r a b :
  is_zero a -> b = 0%float -> (a + b)%float = 0%float.
Proof. by intros [-> | ->] ->. Qed.

(** A sum of zeros is a zero, and it is +0 when one of them is. *)
Lemma np_sum_zeros l :
  (forall x, x ∈ l -> is_zero x) ->
  is_zero (np_sum l) /\ (l = [] \/ 0%float ∈ l -> np_sum l = 0%float).
Proof.
  intros H. destruct l as [|x l]; [split; [by left|done]|].
  rewrite np_sum_pairwise.
  destruct (pairwise_sum_spec is_zero (fun v => v = 0%float)
              add_zeros add_zero_plus_l add_zero_plus_r
              (length (x :: l)) (x :: l)) as [Hk Hm];
    [done|by apply Forall_forall|].
  split; [done|]. intros [Hz|Hz]; [done|].
  apply Hm, Exists_exists. by exists 0%float.
Qed.

Lemma SFmul_one_l x :
  valid_binary x = true ->
  SF64mul (S754_finite false 4503599627370496 (-52)) x = x.
Proof.
  destruct x as [[|]|[|]| |s m e]; try reflexivity.
  unfold valid_binary, SpecFloat.valid_binary, bounded, canonical_mantissa.
  intros [Hc He]%andb_true_iff. apply Z.eqb_eq in Hc.
  unfold SF64mul, SFmul, binary_round_aux.
  unfold shr_fexp at 1. unfold Zdigits2.
  rewrite digits2_pos_shift52.
  replace (Z.pos (digits2_pos m) + 52 + (-52 + e))%Z
    with (Z.pos (digits2_pos m) + e)%Z by lia.
  rewrite Hc. replace (e - (-52 + e))%Z with 52%Z by lia.
  let t := eval cbv beta iota delta [Pos.mul] in
             (4503599627370496 * m)%positive in
  change (4503599627370496 * m)%positive with t.
  cbn [shr shr_record_of_loc SpecFloat.iter_pos shr_1 orb
       shr_m loc_of_shr_record round_nearest_even].
  replace (-52 + e + 52)%Z with e by lia.
  unfold shr_fexp, Zdigits2. rewrite Hc, Z.sub_diag.
  cbn [shr shr_record_of_loc shr_m].
  rewrite He. reflexivity.
Qed.

Lemma mul_one_l x : (1 * x)%float = x.
Proof.
  apply Prim2SF_inj. rewrite mul_spec.
  change (Prim2SF 1) with (S754_finite false 4503599627370496 (-52)).
  apply SFmul_one_l, Prim2SF_valid.
Qed.

(** Adding the charge of a finite rate on no turnover to +0 leaves +0. *)
Lemma add_zero_charge x :
  is_finite x = true -> (0 + 0 * x)%float = 0%float.
Proof.
  intros Hf. apply Prim2SF_inj. revert Hf.
  rewrite is_finite_sf, add_spec, mul_spec, Prim2SF_zero.
  by destruct (Prim2SF x) as [[|]|[|]| |[|] m e].
Qed.

(** A quotient of +0, or NaN, times anything is not positive. *)
Lemma zero_quotient_not_positive f g :
  (0 <? 0 / f * g)%float = false /\ (0 <? nan * g)%float = false.
Proof.
  split; [|by rewrite mul_nan_l, ltb_nan_r].
  rewrite FloatAxioms.ltb_spec, mul_spec, div_spec, Prim2SF_zero.
  by destruct (Prim2SF f) as [[|]|[|]| |[|] m e],
              (Prim2SF g) as [[|]|[|]| |[|] m' e'].
Qed.

(** The opposite of a value that is not at least 0 has no minus sign. *)
Lemma opp_unsigned x : (0 <=? x)%float = false -> unsigned (- x) = true.
Proof.
  unfold unsigned. rewrite leb_spec_sf, FloatAxioms.opp_spec, Prim2SF_zero.
  by destruct (Prim2SF x) as [[|]|[|]| |[|] m e].
Qed.

Lemma div_nan_l x : (nan / x)%float = nan.
Proof. apply Prim2SF_inj. rewrite div_spec. reflexivity. Qed.

(** Division by +0. *)
Lemma div_by_zero d :
  ((0 <? d)%float = true -> (d / 0)%float = infinity) /\
  ((d <? 0)%float = true -> (d / 0)%float = neg_infinity) /\
  ((d =? 0)%float = true -> (d / 0)%float = nan).
Proof.
  repeat split; intros H; apply Prim2SF_inj; revert H;
    rewrite ?FloatAxioms.ltb_spec, ?FloatAxioms.eqb_spec, div_spec, Prim2SF_zero;
    by destruct (Prim2SF d) as [[|]|[|]| |[|] m e].
Qed.

(** ** signal_generator.py: what the loop keeps *)

Lemma abs_sum_from (l : list Z) a :
  fold_left (fun acc x => (acc + Z.abs x)%Z) l a = (a + abs_sum l)%Z.
Proof.
  unfold abs_sum. revert a. induction l as [|x l IH]; intros a; cbn; [lia|].
  rewrite (IH (a + _)%Z), (IH (0 + _)%Z). lia.
Qed.

Lemma abs_sum_app l k : abs_sum (l ++ k) = (abs_sum l + abs_sum k)%Z.
Proof. unfold abs_sum at 1. by rewrite fold_left_app, abs_sum_from. Qed.

Lemma abs_sum_take_S (l : list Z) k :
  k < length l ->
  abs_sum (take (S k) l) = (abs_sum (take k l) + Z.abs (zget l k))%Z.
Proof.
  intros H. destruct (lookup_lt_is_Some_2 l k H) as [x Hx].
  rewrite (take_S_r l k x Hx), abs_sum_app.
  unfold zget. rewrite nth_lookup, Hx. cbn. lia.
Qed.

(** One iteration changes the count of entries less the count of exits
    by the change of the exposure. *)
Lemma row_effect_balance g s z :
  is_state s ->
  let e := row_effect g s z in
  (Z.abs e.1.2 + Z.abs s = Z.abs e.2 + Z.abs e.1.1)%Z.
Proof.
  unfold is_state, row_effect, Flat, Long, Short.
  intros [-> | [-> | ->]]; cbn [Z.eqb Pos.eqb]; repeat case_match; cbn; lia.
Qed.

(** The signals of a row are read off the state before it and the
    position after it. *)
Lemma row_effect_signals g s z :
  is_state s ->
  let e := row_effect g s z in
  e.1.2 = (if (s =? 0)%Z then e.1.1 else 0%Z) /\
  e.2 = (if negb (s =? 0)%Z && (e.1.1 =? 0)%Z then 1%Z else 0%Z).
Proof.
  unfold is_state, row_effect, Flat, Long, Short.
  intros [-> | [-> | ->]]; cbn [Z.eqb Pos.eqb]; repeat case_match; cbn; done.
Qed.

Lemma row_effect_step g s z :
  is_state s ->
  let e := row_effect g s z in
  is_state e.1.1 /\ (Z.abs (e.1.1 - s) <= 1)%Z.
Proof.
  unfold is_state, row_effect, Flat, Long, Short.
  intros [-> | [-> | ->]]; cbn [Z.eqb Pos.eqb]; repeat case_match; cbn;
    split; auto; lia.
Qed.

Section SignalProperties.

Variables expanding_mean expanding_std : list float -> list float.
Variables rolling_mean rolling_std : nat -> list float -> list float.

Abbreviation run' := (run_loop expanding_mean expanding_std
                           rolling_mean rolling_std).
Abbreviation gen' := (generate_signals expanding_mean expanding_std
                                   rolling_mean rolling_std).
Abbreviation zs := (calculate_zscore expanding_mean expanding_std
                                 rolling_mean rolling_std).

(** The state before row [i] is the position recorded at row [i - 1],
    and Flat before the first row. *)
Lemma state_before g sp hr i :
  i < length sp ->
  current_position (run' g sp i)
  = match i with O => 0%Z | S j => zget (position (gen' g sp hr)) j end.
Proof.
  intros Hi. destruct i as [|j]; [done|].
  symmetry. apply position_is_state. lia.
Qed.

Lemma generated_row g sp hr i :
  i < length sp ->
  row (gen' g sp hr) i
  = row_effect g (current_position (run' g sp i))
               (fget (zs sp (lookback_window g)) i).
Proof.
  intros Hi. unfold generate_signals.
  by destruct (run_row expanding_mean expanding_std rolling_mean rolling_std
                 g sp i Hi) as [_ ->].
Qed.

Lemma run_state g sp k : is_state (current_position (run' g sp k)).
Proof.
  by destruct (run_inv expanding_mean expanding_std rolling_mean rolling_std
                 g sp k) as (_ & _ & _ & ?).
Qed.

(** X1.  Every entry is closed by at most one exit: over the whole
    frame the number of entry signals is the number of exit signals
    plus the exposure left open at the last timestamp (0 or 1).  These
    are the counts that [main] prints and [run_backtest] reports as
    total_trades. *)
Theorem generate_signals_trade_balance g sp hr :
  let s := gen' g sp hr in
  abs_sum (entry_signal s)
  = (abs_sum (exit_signal s)
     + Z.abs (zget (position s) (length sp - 1)))%Z /\
  (abs_sum (exit_signal s) <= abs_sum (entry_signal s)
   <= abs_sum (exit_signal s) + 1)%Z.
Proof.
  cbn zeta. set (s := gen' g sp hr).
  pose proof (run_inv expanding_mean expanding_std rolling_mean rolling_std
                g sp (length sp)) as (Hp & He & Hx & _).
  fold (gen' g sp hr) in Hp, He, Hx. fold s in Hp, He, Hx.
  assert (Hk : forall k, k <= length sp ->
            abs_sum (take k (entry_signal s))
            = (abs_sum (take k (exit_signal s))
               + Z.abs (current_position (run' g sp k)))%Z).
  { induction k as [|k IH]; intros Hle; [done|].
    rewrite !abs_sum_take_S by lia. rewrite IH by lia.
    pose proof (generated_row g sp hr k ltac:(lia)) as Hrow.
    fold s in Hrow. unfold row in Hrow.
    destruct (run_row expanding_mean expanding_std rolling_mean rolling_std
                g sp k ltac:(lia)) as [Hc _].
    cbn zeta in Hc. rewrite Hc.
    pose proof (row_effect_balance g (current_position (run' g sp k))
                  (fget (zs sp (lookback_window g)) k) (run_state g sp k))
      as Hb.
    cbn zeta in Hb. rewrite <- Hrow in Hb. cbn [fst snd] in Hb.
    change (zscore (signals (initial_state expanding_mean expanding_std
                               rolling_mean rolling_std g sp)))
      with (zs sp (lookback_window g)).
    rewrite <- Hrow. cbn [fst snd]. lia. }
  assert (Heq : abs_sum (entry_signal s)
                = (abs_sum (exit_signal s)
                   + Z.abs (zget (position s) (length sp - 1)))%Z).
  { specialize (Hk (length sp) ltac:(lia)).
    rewrite !firstn_all2 in Hk by lia. rewrite Hk. f_equal. f_equal.
    destruct (length sp) as [|m] eqn:En.
    - cbn. destruct (position s); [done|cbn in Hp; lia].
    - rewrite Nat.sub_1_r. cbn [Nat.pred]. subst s.
      rewrite (position_is_state expanding_mean expanding_std rolling_mean
                 rolling_std g sp hr m) by lia. done. }
  split; [done|].
  assert (Hs : is_state (zget (position s) (length sp - 1))).
  { destruct (length sp) as [|m] eqn:En.
    - left. cbn. destruct (position s); [done|cbn in Hp; lia].
    - rewrite Nat.sub_1_r. cbn [Nat.pred]. subst s.
      rewrite (position_is_state expanding_mean expanding_std rolling_mean
                 rolling_std g sp hr m) by lia. apply run_state. }
  rewrite Heq. unfold is_state, Flat, Long, Short in Hs.
  destruct Hs as [-> | [-> | ->]]; cbn; lia.
Qed.

(** X2.  The two signal columns are determined by the position column:
    with prev the position of the preceding timestamp (0 before the
    first one), entry_signal[t] is position[t] when prev = 0 and 0
    otherwise, and exit_signal[t] is 1 exactly when prev <> 0 and
    position[t] = 0.  So every change of position is flagged. *)
Theorem generate_signals_flags_changes g sp hr t :
  t < length sp ->
  let s := gen' g sp hr in
  let prev := match t with O => 0%Z | S j => zget (position s) j end in
  zget (entry_signal s) t
  = (if (prev =? 0)%Z then zget (position s) t else 0%Z) /\
  zget (exit_signal s) t
  = (if negb (prev =? 0)%Z && (zget (position s) t =? 0)%Z
     then 1%Z else 0%Z) /\
  (zget (position s) t <> prev ->
   zget (entry_signal s) t <> 0%Z \/ zget (exit_signal s) t = 1%Z).
Proof.
  intros Ht. cbn zeta.
  rewrite <- (state_before g sp hr t Ht).
  pose proof (generated_row g sp hr t Ht) as Hrow. unfold row in Hrow.
  pose proof (row_effect_signals g (current_position (run' g sp t))
                (fget (zs sp (lookback_window g)) t) (run_state g sp t))
    as [He Hx].
  rewrite <- Hrow in He, Hx. cbn [fst snd] in He, Hx.
  split; [done|]. split; [done|].
  rewrite He, Hx. intros Hne.
  destruct (current_position (run' g sp t) =? 0)%Z eqn:E0.
  - left. apply Z.eqb_eq in E0. congruence.
  - right. cbn [negb andb].
    destruct (zget (position (gen' g sp hr)) t =? 0)%Z eqn:E1; [done|].
    exfalso. apply Hne.
    pose proof (run_state g sp t) as Hs.
    unfold is_state, Flat, Long, Short in Hs.
    revert Hrow E0 E1. unfold row_effect.
    destruct Hs as [-> | [-> | ->]]; cbn [Z.eqb Pos.eqb];
      repeat case_match; intros [= -> _ _]; done.
Qed.

(** The shape of the generated frame and the steps of its positions. *)
Lemma generate_signals_shape g sp hr :
  let s := gen' g sp hr in
  length (position s) = length sp /\
  valid_positions (position s) /\
  forall j, S j < length sp ->
    (Z.abs (zget (position s) (S j) - zget (position s) j) <= 1)%Z.
Proof.
  cbn zeta.
  pose proof (run_inv expanding_mean expanding_std rolling_mean rolling_std
                g sp (length sp)) as (Hp & _).
  split; [done|]. split.
  - intros i Hi. fold (gen' g sp hr) in Hp. rewrite Hp in Hi.
    rewrite (position_is_state expanding_mean expanding_std rolling_mean
               rolling_std g sp hr i Hi).
    apply run_state.
  - intros j Hj.
    rewrite <- (state_before g sp hr (S j) Hj).
    pose proof (generated_row g sp hr (S j) Hj) as Hrow. unfold row in Hrow.
    pose proof (row_effect_step g (current_position (run' g sp (S j)))
                  (fget (zs sp (lookback_window g)) (S j))
                  (run_state g sp (S j))) as [_ Hstep].
    by rewrite <- Hrow in Hstep.
Qed.

(** X3.  The frame of signals has one row per timestamp of the spread;
    every recorded position is -1, 0 or +1; and the position never
    flips between long and short from one timestamp to the next: it
    moves by at most 1. *)
Theorem generate_signals_no_flip g sp hr :
  let s := gen' g sp hr in
  length (position s) = length sp /\
  length (entry_signal s) = length sp /\
  length (exit_signal s) = length sp /\
  zscore s = zs sp (lookback_window g) /\
  valid_positions (position s) /\
  forall j, S j < length sp ->
    (Z.abs (zget (position s) (S j) - zget (position s) j) <= 1)%Z.
Proof.
  cbn zeta.
  pose proof (run_inv expanding_mean expanding_std rolling_mean rolling_std
                g sp (length sp)) as (Hp & He & Hx & _).
  destruct (generate_signals_shape g sp hr) as (_ & Hv & Hstep).
  split; [done|]. split; [done|]. split; [done|]. split; [|done].
  unfold generate_signals.
  by rewrite (run_zscore expanding_mean expanding_std rolling_mean
                rolling_std g sp (length sp)).
Qed.

(** The state stays Flat while neither entry test fires. *)
Lemma flat_while_quiet g sp k :
  k <= length sp ->
  (forall i, i < k ->
     let z := fget (zs sp (lookback_window g)) i in
     (z <? - entry_threshold g)%float = false /\
     (entry_threshold g <? z)%float = false) ->
  current_position (run' g sp k) = 0%Z.
Proof.
  induction k as [|k IH]; intros Hk Hq; [done|].
  destruct (run_row expanding_mean expanding_std rolling_mean rolling_std
              g sp k ltac:(lia)) as [Hc _].
  cbn zeta in Hc. rewrite Hc, IH by (lia || (intros i Hi; apply Hq; lia)).
  destruct (Hq k ltac:(lia)) as [H1 H2]. cbn zeta in H1, H2.
  unfold row_effect. cbn [Z.eqb].
  change (zscore (signals (initial_state expanding_mean expanding_std
                             rolling_mean rolling_std g sp)))
    with (zs sp (lookback_window g)).
  by rewrite H1, H2.
Qed.

(** X4.  No position is opened while the z-score stays inside the entry
    band, in particular while it is NaN (the warm-up of the window
    statistics): if at every timestamp before k the z-score is NaN or
    neither below -entry_threshold nor above entry_threshold, then the
    first k rows hold position 0, entry_signal 0 and exit_signal 0. *)
Theorem generate_signals_flat_in_band g sp hr k :
  (forall i, i < k ->
     let z := fget (zs sp (lookback_window g)) i in
     is_nan z = true \/
     ((z <? - entry_threshold g)%float = false /\
      (entry_threshold g <? z)%float = false)) ->
  forall i, i < k -> i < length sp ->
    let s := gen' g sp hr in
    zget (position s) i = 0%Z /\
    zget (entry_signal s) i = 0%Z /\
    zget (exit_signal s) i = 0%Z.
Proof.
  intros Hq i Hi Hn. cbn zeta.
  assert (Hq' : forall j, j < k ->
            let z := fget (zs sp (lookback_window g)) j in
            (z <? - entry_threshold g)%float = false /\
            (entry_threshold g <? z)%float = false).
  { intros j Hj. cbn zeta. destruct (Hq j Hj) as [Hnan|H]; [|done].
    apply is_nan_spec in Hnan. rewrite Hnan.
    by rewrite ltb_nan_l, ltb_nan_r. }
  pose proof (generated_row g sp hr i Hn) as Hrow.
  rewrite (flat_while_quiet g sp i) in Hrow
    by (lia || (intros j Hj; apply Hq'; lia)).
  destruct (Hq' i Hi) as [H1 H2]. cbn zeta in H1, H2.
  unfold row_effect in Hrow. cbn [Z.eqb] in Hrow. rewrite H1, H2 in Hrow.
  unfold row in Hrow. by injection Hrow as -> -> ->.
Qed.

(** The state before a row depends on the earlier z-scores only. *)
Lemma state_causal g sp sp' k :
  k <= length sp -> k <= length sp' ->
  (forall j, j < k ->
     fget (zs sp (lookback_window g)) j
     = fget (zs sp' (lookback_window g)) j) ->
  current_position (run' g sp k) = current_position (run' g sp' k).
Proof.
  induction k as [|k IH]; intros H1 H2 Hz; [done|].
  destruct (run_row expanding_mean expanding_std rolling_mean rolling_std
              g sp k ltac:(lia)) as [Hc _].
  destruct (run_row expanding_mean expanding_std rolling_mean rolling_std
              g sp' k ltac:(lia)) as [Hc' _].
  cbn zeta in Hc, Hc'. rewrite Hc, Hc'.
  change (zscore (signals (initial_state expanding_mean expanding_std
                             rolling_mean rolling_std g ?x)))
    with (zs x (lookback_window g)).
  rewrite IH by (lia || (intros j Hj; apply Hz; lia)).
  by rewrite (Hz k) by lia.
Qed.

(** X5.  The signals look at the past only: two spreads whose z-scores
    agree up to timestamp t have the same position, entry_signal and
    exit_signal at t, whatever follows. *)
Theorem generate_signals_causal g sp sp' hr hr' t :
  t < length sp -> t < length sp' ->
  (forall j, j <= t ->
     fget (zs sp (lookback_window g)) j
     = fget (zs sp' (lookback_window g)) j) ->
  zget (position (gen' g sp hr)) t = zget (position (gen' g sp' hr')) t /\
  zget (entry_signal (gen' g sp hr)) t
  = zget (entry_signal (gen' g sp' hr')) t /\
  zget (exit_signal (gen' g sp hr)) t
  = zget (exit_signal (gen' g sp' hr')) t.
Proof.
  intros H1 H2 Hz.
  pose proof (generated_row g sp hr t H1) as Hrow.
  pose proof (generated_row g sp' hr' t H2) as Hrow'.
  rewrite (state_causal g sp sp' t) in Hrow
    by (lia || (intros j Hj; apply Hz; lia)).
  rewrite (Hz t) in Hrow by lia. rewrite <- Hrow' in Hrow.
  unfold row in Hrow. by injection Hrow as -> -> ->.
Qed.

(** X26.  The z-score of a timestamp is (spread - mean) / std of that
    timestamp.  It is NaN as soon as the spread, the mean or the
    deviation is NaN, as during the warm-up of the window.  A deviation
    of 0 gives NaN only where the spread equals the mean: where it lies
    above the mean the z-score is +infinity, below it -infinity. *)
Theorem calculate_zscore_undefined sp lookback i :
  i < length sp ->
  let mean := match lookback with
              | None => expanding_mean sp
              | Some w => rolling_mean w sp
              end in
  let std := match lookback with
             | None => expanding_std sp
             | Some w => rolling_std w sp
             end in
  let z := fget (zs sp lookback) i in
  let d := (fget sp i - fget mean i)%float in
  length (zs sp lookback) = length sp /\
  z = (d / fget std i)%float /\
  (is_nan (fget sp i) = true \/ is_nan (fget mean i) = true \/
   is_nan (fget std i) = true -> z = nan) /\
  (fget std i = 0%float ->
   ((0 <? d)%float = true -> z = infinity) /\
   ((d <? 0)%float = true -> z = neg_infinity) /\
   ((d =? 0)%float = true -> z = nan)).
Proof.
  intros Hi. cbn zeta.
  assert (Hz : fget (zs sp lookback) i
               = ((fget sp i
                   - fget (match lookback with
                           | None => expanding_mean sp
                           | Some w => rolling_mean w sp
                           end) i)
                  / fget (match lookback with
                          | None => expanding_std sp
                          | Some w => rolling_std w sp
                          end) i)%float).
  { destruct (lookup_lt_is_Some_2 sp i Hi) as [x Hx].
    rewrite (fget_lookup sp i x Hx). apply fget_lookup.
    unfold calculate_zscore. by rewrite list_lookup_imap, Hx. }
  split; [unfold calculate_zscore; by rewrite length_imap|].
  split; [done|]. rewrite Hz. split.
  - intros [H|[H|H]]; apply is_nan_spec in H; rewrite H;
      by rewrite ?sub_nan_l, ?sub_nan_r, ?div_nan_l, ?div_nan_r.
  - intros ->. apply div_by_zero.
Qed.

End SignalProperties.

Lemma filter_none {A} (P : A -> Prop) `{!forall x, Decision (P x)} (l : list A) :
  (forall x, x ∈ l -> ~ P x) -> filter P l = [].
Proof.
  induction l as [|x r IH]; intros Hall; [done|].
  rewrite filter_cons. destruct (decide (P x)) as [Hp|_].
  - by destruct (Hall x ltac:(left) Hp).
  - apply IH. intros y Hy. apply Hall. by right.
Qed.

(** ** signal_generator.py: [get_position_sizes] *)

Section PositionSizes.

Variables (pos : list Z) (symbol1 symbol2 : string).
Variables (prices : PriceTable) (capital : float).

Abbreviation body := (sizes_body pos symbol1 symbol2 prices capital).
Abbreviation blank :=
  (Some (replicate (length pos) 0%float, replicate (length pos) 0%float)).

Lemma sizes_body_none l : fold_left body l None = None.
Proof. by induction l. Qed.

Lemma sizes_loop_S k st :
  fold_left body (seq 0 (S k)) st = body (fold_left body (seq 0 k) st) k.
Proof. by rewrite seq_S, fold_left_app. Qed.

(** One iteration on a row that is still blank. *)
Lemma sizes_body_row c i :
  length c.1 = length pos -> length c.2 = length pos -> i < length pos ->
  fget c.1 i = 0%float -> fget c.2 i = 0%float ->
  priced pos symbol1 symbol2 prices i ->
  exists c',
    body (Some c) i = Some c' /\
    length c'.1 = length pos /\ length c'.2 = length pos /\
    (fget c'.1 i, fget c'.2 i)
    = row_shares pos symbol1 symbol2 prices capital i /\
    forall j, j <> i -> fget c'.1 j = fget c.1 j /\ fget c'.2 j = fget c.2 j.
Proof.
  intros H1 H2 Hi Hz1 Hz2 Hp. unfold sizes_body, row_shares. cbn [mbind option_bind].
  destruct c as [c1 c2]. cbn [fst snd] in *.
  destruct (zget pos i =? 0)%Z eqn:E0.
  { apply Z.eqb_eq in E0. rewrite E0. cbn [Z.eqb].
    exists (c1, c2). cbn [fst snd]. rewrite Hz1, Hz2.
    repeat split; try done. by repeat case_match. }
  apply Z.eqb_neq in E0. destruct (Hp E0) as (R1 & R2 & Hpr).
  rewrite R1, R2. cbn [andb].
  destruct (zget pos i =? 1)%Z eqn:E1;
    [|destruct (zget pos i =? -1)%Z eqn:E2].
  - apply Z.eqb_eq in E1.
    destruct Hpr as [[price1 Hp1] [price2 Hp2]]; [by left|].
    rewrite Hp1, Hp2. cbn [mbind option_bind].
    eexists. split; [done|]. unfold set_shares1, set_shares2. cbn [fst snd].
    destruct (String.eqb symbol1 symbol2);
      rewrite ?length_insert, ?fget_insert_eq by (rewrite ?length_insert; lia);
      (split; [done|]); (split; [done|]); (split; [done|]);
      intros j Hj; rewrite ?fget_insert_ne by done; done.
  - apply Z.eqb_eq in E2.
    destruct Hpr as [[price1 Hp1] [price2 Hp2]]; [by right|].
    rewrite Hp1, Hp2. cbn [mbind option_bind].
    eexists. split; [done|]. unfold set_shares1, set_shares2. cbn [fst snd].
    destruct (String.eqb symbol1 symbol2);
      rewrite ?length_insert, ?fget_insert_eq by (rewrite ?length_insert; lia);
      (split; [done|]); (split; [done|]); (split; [done|]);
      intros j Hj; rewrite ?fget_insert_ne by done; done.
  - exists (c1, c2). cbn [fst snd]. rewrite Hz1, Hz2.
    repeat split; try done. by repeat case_match.
Qed.

(** The loop as far as every row met can be priced. *)
Lemma sizes_loop_some k :
  k <= length pos ->
  (forall i, i < k -> priced pos symbol1 symbol2 prices i) ->
  exists c,
    fold_left body (seq 0 k) blank = Some c /\
    length c.1 = length pos /\ length c.2 = length pos /\
    forall j, j < length pos ->
      (fget c.1 j, fget c.2 j)
      = if decide (j < k)
        then row_shares pos symbol1 symbol2 prices capital j
        else (0%float, 0%float).
Proof.
  induction k as [|k IH]; intros Hk Hp.
  - eexists. split; [done|]. cbn [fst snd]. rewrite !length_replicate.
    split; [done|]. split; [done|].
    intros j Hj. case_decide; [lia|]. by rewrite !fget_replicate.
  - destruct IH as (c & Hc & H1 & H2 & Hrows);
      [lia | intros i Hi; apply Hp; lia |].
    pose proof (Hrows k ltac:(lia)) as Hk0.
    case_decide; [lia|]. injection Hk0 as Hz1 Hz2.
    destruct (sizes_body_row c k H1 H2 ltac:(lia) Hz1 Hz2 (Hp k ltac:(lia)))
      as (c' & Hb & H1' & H2' & Hrow & Hother).
    exists c'. rewrite sizes_loop_S, Hc.
    split; [done|]. split; [done|]. split; [done|].
    intros j Hj. destruct (decide (j = k)) as [->|Hne].
    + case_decide; [done|lia].
    + destruct (Hother j Hne) as [-> ->]. rewrite Hrows by done.
      repeat case_decide; try done; lia.
Qed.

(** A row with a position whose prices cannot be read stops the loop. *)
Lemma sizes_loop_none k i st :
  i < k -> ~ priced pos symbol1 symbol2 prices i ->
  fold_left body (seq 0 k) st = None.
Proof.
  induction k as [|k IH]; intros Hi Hnp; [lia|].
  rewrite sizes_loop_S.
  destruct (decide (i = k)) as [->|Hne].
  - destruct (fold_left body (seq 0 k) st) as [c|]; [|done].
    unfold sizes_body. cbn [mbind option_bind].
    destruct (zget pos k =? 0)%Z eqn:E0.
    { exfalso. apply Hnp. intros H. by apply Z.eqb_eq in E0. }
    destruct (readable prices symbol1 k) eqn:R1; [|done].
    destruct (readable prices symbol2 k) eqn:R2; [|done].
    cbn [andb].
    destruct (zget pos k =? 1)%Z eqn:E1;
      [|destruct (zget pos k =? -1)%Z eqn:E2].
    + destruct (price_at prices symbol1 k) as [price1|] eqn:P1; [|done].
      destruct (price_at prices symbol2 k) as [price2|] eqn:P2; [|done].
      exfalso. apply Hnp. intros _. by rewrite P1, P2.
    + destruct (price_at prices symbol1 k) as [price1|] eqn:P1; [|done].
      destruct (price_at prices symbol2 k) as [price2|] eqn:P2; [|done].
      exfalso. apply Hnp. intros _. by rewrite P1, P2.
    + exfalso. apply Hnp. intros _. split; [done|]. split; [done|].
      apply Z.eqb_neq in E1, E2. by intros [?|?].
  - by rewrite IH by (lia || done).
Qed.

Lemma priced_dec i :
  priced pos symbol1 symbol2 prices i \/
  ~ priced pos symbol1 symbol2 prices i.
Proof.
  unfold priced.
  destruct (decide (zget pos i = 0%Z)) as [E0|E0]; [by left|].
  destruct (readable prices symbol1 i) eqn:R1;
    [|right; intros H; by destruct (H E0) as (? & _)].
  destruct (readable prices symbol2 i) eqn:R2;
    [|right; intros H; by destruct (H E0) as (_ & ? & _)].
  destruct (decide (zget pos i = 1%Z \/ zget pos i = (-1)%Z)) as [Hd|Hd];
    [|left; by intros _].
  destruct (price_at prices symbol1 i) as [price1|] eqn:P1;
    [destruct (price_at prices symbol2 i) as [price2|] eqn:P2|].
  - left. by intros _.
  - right. intros H. destruct (H E0) as (_ & _ & Hp).
    destruct (Hp Hd) as [_ [? ?]]. congruence.
  - right. intros H. destruct (H E0) as (_ & _ & Hp).
    destruct (Hp Hd) as [[? ?] _]. congruence.
Qed.

End PositionSizes.

(** A frame is returned only when every row with a position is priced. *)
Lemma sizes_some_priced sg symbol1 symbol2 prices capital :
  is_Some (get_position_sizes sg symbol1 symbol2 prices capital) ->
  forall i, i < length (position sg) ->
    priced (position sg) symbol1 symbol2 prices i.
Proof.
  intros Hs i Hi.
  destruct (priced_dec (position sg) symbol1 symbol2 prices i) as [Hp|Hp];
    [done|].
  exfalso. unfold get_position_sizes in Hs.
  rewrite (sizes_loop_none (position sg) symbol1 symbol2 prices capital
             (length (position sg)) i) in Hs by done.
  by destruct Hs.
Qed.

(** A single column that reaches the row can be read. *)
Lemma price_at_readable prices s i x :
  price_at prices s i = Some x -> readable prices s i = true.
Proof.
  unfold price_at, column, readable.
  destruct (labelled prices s) as [|c [|c' r]]; try done.
  cbn [mbind option_bind forallb]. intros H.
  apply lookup_lt_Some in H. rewrite andb_true_r. by apply Nat.ltb_lt.
Qed.

(** On a table whose labels differ, what can be read is a price. *)
Lemma labelled_distinct prices s :
  NoDup (map fst prices) -> length (labelled prices s) <= 1.
Proof.
  unfold labelled. induction prices as [|[c col] r IH]; [cbn; lia|].
  change (map fst ((c, col) :: r)) with (c :: map fst r).
  intros [Hn Hd]%NoDup_cons. rewrite filter_cons.
  destruct (decide ((c, col).1 = s)) as [E|E]; [|by apply IH].
  cbn in E. subst c.
  assert (filter (fun c : string * list float => c.1 = s) r = []) as ->;
    [|cbn; lia].
  apply filter_none. intros [c' col'] Hin E. cbn in E. subst c'.
  apply Hn. apply list_elem_of_fmap. by exists (s, col').
Qed.

Lemma readable_price_at prices s i :
  NoDup (map fst prices) ->
  readable prices s i = true -> is_Some (price_at prices s i).
Proof.
  intros Hd. pose proof (labelled_distinct prices s Hd) as Hl.
  unfold price_at, column, readable.
  destruct (labelled prices s) as [|c [|c' r]]; try done;
    [|cbn in Hl; lia].
  cbn [mbind option_bind forallb]. rewrite andb_true_r.
  intros H%Nat.ltb_lt. by apply lookup_lt_is_Some_2.
Qed.

(** X6.  [get_position_sizes] reads the prices only on rows that hold
    a position, and uses them only on a long or a short row.  It
    returns a frame exactly when, on every row whose position is not
    0, both labels select columns of the price table that reach the
    row (otherwise KeyError or IndexError) and, when the row is long or
    short, each label selects a single column (a label carried by
    several columns gives a row of prices, and the cell write raises
    ValueError).  On a price table whose labels differ this is: both
    symbols are columns that reach the row.  A frame without any
    position is sized, with all shares 0, against any price table. *)
Theorem get_position_sizes_defined sg symbol1 symbol2 prices capital :
  (is_Some (get_position_sizes sg symbol1 symbol2 prices capital) <->
   forall i, i < length (position sg) -> zget (position sg) i <> 0%Z ->
     readable prices symbol1 i = true /\
     readable prices symbol2 i = true /\
     (zget (position sg) i = 1%Z \/ zget (position sg) i = (-1)%Z ->
      is_Some (price_at prices symbol1 i) /\
      is_Some (price_at prices symbol2 i))) /\
  (NoDup (map fst prices) ->
   (is_Some (get_position_sizes sg symbol1 symbol2 prices capital) <->
    forall i, i < length (position sg) -> zget (position sg) i <> 0%Z ->
      is_Some (price_at prices symbol1 i) /\
      is_Some (price_at prices symbol2 i))) /\
  ((forall i, zget (position sg) i = 0%Z) ->
   get_position_sizes sg symbol1 symbol2 prices capital
   = Some (mkSizes sg (replicate (length (position sg)) 0%float)
                      (replicate (length (position sg)) 0%float))).
Proof.
  assert (Hiff :
    is_Some (get_position_sizes sg symbol1 symbol2 prices capital) <->
    forall i, i < length (position sg) ->
      priced (position sg) symbol1 symbol2 prices i).
  { split.
    - apply sizes_some_priced.
    - intros Hp.
      destruct (sizes_loop_some (position sg) symbol1 symbol2 prices capital
                  (length (position sg)) ltac:(lia)) as (c & Hc & _);
        [done|].
      unfold get_position_sizes. by rewrite Hc. }
  split; [done|]. split.
  - intros Hd. rewrite Hiff. split.
    + intros Hp i Hi Hne. destruct (Hp i Hi Hne) as (R1 & R2 & _).
      split; by apply readable_price_at.
    + intros Hp i Hi Hne. destruct (Hp i Hi Hne) as [[x1 P1] [x2 P2]].
      split; [by eapply price_at_readable|].
      split; [by eapply price_at_readable|]. intros _. by rewrite P1, P2.
  - intros Hflat.
    destruct (sizes_loop_some (position sg) symbol1 symbol2 prices capital
                (length (position sg)) ltac:(lia)) as (c & Hc & H1 & H2 & Hr).
    { intros i Hi Hne. by destruct (Hne (Hflat i)). }
    unfold get_position_sizes. rewrite Hc. cbn [mbind option_bind].
    destruct c as [c1 c2]. cbn [fst snd] in *.
    assert (Hrow : forall j, j < length (position sg) ->
              fget c1 j = 0%float /\ fget c2 j = 0%float).
    { intros j Hj. specialize (Hr j Hj). case_decide; [|lia].
      unfold row_shares in Hr. rewrite (Hflat j) in Hr. cbn [Z.eqb] in Hr.
      by repeat case_match; injection Hr as -> ->. }
    f_equal. f_equal.
    + apply list_eq. intros j. destruct (decide (j < length (position sg))).
      * rewrite lookup_replicate_2 by done.
        destruct (lookup_lt_is_Some_2 c1 j ltac:(lia)) as [x Hx].
        rewrite Hx. f_equal. rewrite <- (fget_lookup c1 j x Hx).
        by apply Hrow.
      * rewrite !(proj2 (lookup_ge_None _ _))
          by (rewrite ?length_replicate; lia). done.
    + apply list_eq. intros j. destruct (decide (j < length (position sg))).
      * rewrite lookup_replicate_2 by done.
        destruct (lookup_lt_is_Some_2 c2 j ltac:(lia)) as [x Hx].
        rewrite Hx. f_equal. rewrite <- (fget_lookup c2 j x Hx).
        by apply Hrow.
      * rewrite !(proj2 (lookup_ge_None _ _))
          by (rewrite ?length_replicate; lia). done.
Qed.

(** X7.  The frame returned by [get_position_sizes] keeps the signal
    columns and has one cell of shares per row and symbol.  With
    leg = capital / 2: a row without position holds 0 shares of both
    symbols; a long row holds -leg / price1 shares of symbol1 and
    leg / price2 shares of symbol2; a short row holds leg / price1 and
    -leg / price2; a position outside {-1, 0, +1} leaves 0.  When both
    symbols are the same name the frame has a single share column,
    which keeps the value written for symbol1. *)
Theorem get_position_sizes_rows sg symbol1 symbol2 prices capital r i :
  get_position_sizes sg symbol1 symbol2 prices capital = Some r ->
  i < length (position sg) ->
  let leg := (capital / 2)%float in
  let p := zget (position sg) i in
  let shares1 := fget (symbol1_shares r) i in
  let shares2 := fget (symbol2_shares r) i in
  sized r = sg /\
  length (symbol1_shares r) = length (position sg) /\
  length (symbol2_shares r) = length (position sg) /\
  (p = 0%Z -> shares1 = 0%float /\ shares2 = 0%float) /\
  (p = 1%Z ->
   exists price1 price2,
     price_at prices symbol1 i = Some price1 /\
     price_at prices symbol2 i = Some price2 /\
     shares1 = (- leg / price1)%float /\
     shares2 = if String.eqb symbol1 symbol2 then (- leg / price1)%float
               else (leg / price2)%float) /\
  (p = (-1)%Z ->
   exists price1 price2,
     price_at prices symbol1 i = Some price1 /\
     price_at prices symbol2 i = Some price2 /\
     shares1 = (leg / price1)%float /\
     shares2 = if String.eqb symbol1 symbol2 then (leg / price1)%float
               else (- leg / price2)%float) /\
  (p <> 0%Z -> p <> 1%Z -> p <> (-1)%Z ->
   shares1 = 0%float /\ shares2 = 0%float).
Proof.
  intros Hr Hi. cbn zeta.
  assert (Hs : is_Some (get_position_sizes sg symbol1 symbol2 prices capital))
    by (by rewrite Hr).
  pose proof (sizes_some_priced sg symbol1 symbol2 prices capital Hs) as Hp.
  destruct (sizes_loop_some (position sg) symbol1 symbol2 prices capital
              (length (position sg)) ltac:(lia)) as (c & Hc & H1 & H2 & Hrow).
  { intros j Hj Hne. by apply Hp. }
  unfold get_position_sizes in Hr. rewrite Hc in Hr. injection Hr as <-.
  cbn [sized symbol1_shares symbol2_shares].
  specialize (Hrow i Hi). case_decide; [|lia].
  unfold row_shares in Hrow.
  split; [done|]. split; [done|]. split; [done|].
  split; [|split; [|split]].
  - intros E. rewrite E in Hrow. cbn [Z.eqb] in Hrow.
    by repeat case_match; injection Hrow as -> ->.
  - intros E. destruct (Hp i Hi) as (_ & _ & Hpr); [by rewrite E|].
    destruct Hpr as [[price1 E1] [price2 E2]]; [by left|].
    exists price1, price2. rewrite E, E1, E2 in Hrow. cbn [Z.eqb Pos.eqb] in Hrow.
    by injection Hrow as -> ->.
  - intros E. destruct (Hp i Hi) as (_ & _ & Hpr); [by rewrite E|].
    destruct Hpr as [[price1 E1] [price2 E2]]; [by right|].
    exists price1, price2. rewrite E, E1, E2 in Hrow. cbn [Z.eqb Pos.eqb] in Hrow.
    by injection Hrow as -> ->.
  - intros N0 N1 N2.
    apply Z.eqb_neq in N1, N2. rewrite N1, N2 in Hrow.
    by repeat case_match; injection Hrow as -> ->.
Qed.

(** ** backtester.py: costs, flat frames and the summary *)

Lemma length_cumulative_return bt sg p1 p2 :
  length (cumulative_return (returns_of_columns bt sg p1 p2))
  = length (position sg).
Proof.
  pose proof (length_net_return bt sg p1 p2) as Hn. cbn in Hn |- *.
  by rewrite length_map, length_series_cumprod, length_map, Hn.
Qed.

Lemma length_portfolio_value bt sg p1 p2 :
  length (portfolio_value (returns_of_columns bt sg p1 p2))
  = length (position sg).
Proof.
  pose proof (length_cumulative_return bt sg p1 p2) as Hn. cbn in Hn |- *.
  by rewrite length_map, Hn.
Qed.

Lemma length_costs bt sg p1 p2 :
  length (transaction_costs (returns_of_columns bt sg p1 p2))
  = length (position sg) /\
  length (slippage (returns_of_columns bt sg p1 p2)) = length (position sg).
Proof. cbn. by rewrite !length_map, length_diff_abs. Qed.

Lemma last_fget (l : list float) :
  l <> [] -> last l = Some (fget l (length l - 1)).
Proof.
  intros H. rewrite last_lookup.
  destruct (lookup_lt_is_Some_2 l (pred (length l))) as [x Hx].
  { destruct l; [done|cbn; lia]. }
  rewrite Hx. f_equal. symmetry. apply fget_lookup.
  by rewrite Nat.sub_1_r.
Qed.

(** The summary of a frame with at least one row. *)
Lemma run_backtest_columns bt sg s1 s2 prices p1 p2 :
  column prices s1 = Some p1 -> column prices s2 = Some p2 ->
  0 < length (position sg) ->
  let res := returns_of_columns bt sg p1 p2 in
  let n := length (position sg) in
  run_backtest bt sg s1 s2 prices
  = Some (mkBacktest res (fget (cumulative_return res) (n - 1))
            (fget (portfolio_value res) (n - 1))
            (abs_sum (entry_signal sg))
            (series_sum (transaction_costs res)
             + series_sum (slippage res))%float
            (initial_capital bt)).
Proof.
  intros H1 H2 Hn. cbn zeta. unfold run_backtest.
  rewrite (calculate_returns_columns bt sg s1 s2 prices p1 p2 H1 H2).
  cbn [mbind option_bind].
  rewrite (last_fget (cumulative_return _)), (last_fget (portfolio_value _)).
  - cbn [mbind option_bind].
    by rewrite length_cumulative_return, length_portfolio_value.
  - intros E. apply (f_equal length) in E.
    rewrite length_portfolio_value in E. cbn in E. lia.
  - intros E. apply (f_equal length) in E.
    rewrite length_cumulative_return in E. cbn in E. lia.
Qed.

(** X8.  [run_backtest] fails exactly when one of the two symbols is
    not the label of exactly one column of the price table (KeyError
    when no column carries it; when several do, [prices[symbol]] is a
    frame and assigning its [pct_change] to one column raises
    ValueError) or the frame of signals has no row (IndexError).
    Otherwise total_return and final_value are
    the last cumulative return and portfolio value, so that
    final_value = initial_capital * (1 + total_return), and total_trades
    is the number of entry signals. *)
Theorem run_backtest_summary bt sg s1 s2 prices :
  (run_backtest bt sg s1 s2 prices = None <->
   column prices s1 = None \/ column prices s2 = None \/ position sg = []) /\
  forall b, run_backtest bt sg s1 s2 prices = Some b ->
    let n := length (position sg) in
    calculate_returns bt sg s1 s2 prices = Some (results b) /\
    total_return b = fget (cumulative_return (results b)) (n - 1) /\
    final_value b = fget (portfolio_value (results b)) (n - 1) /\
    final_value b = (initial_capital bt * (1 + total_return b))%float /\
    total_trades b = abs_sum (entry_signal sg) /\
    backtest_capital b = initial_capital bt.
Proof.
  destruct (column prices s1) as [p1|] eqn:E1;
    [destruct (column prices s2) as [p2|] eqn:E2|].
  - destruct (position sg) as [|x r] eqn:Ep.
    + split; [split; [auto|]|].
      * intros _. unfold run_backtest, calculate_returns.
        rewrite E1, E2. cbn. by rewrite Ep.
      * intros b. unfold run_backtest, calculate_returns.
        rewrite E1, E2. cbn. by rewrite Ep.
    + pose proof (run_backtest_columns bt sg s1 s2 prices p1 p2 E1 E2) as Hb.
      rewrite Ep in Hb. specialize (Hb ltac:(cbn; lia)). cbn zeta in Hb.
      split.
      * rewrite Hb. split; [done|]. by intros [?|[?|?]].
      * intros b. rewrite Hb. intros [= <-].
        cbn [results total_return final_value total_trades backtest_capital].
        split; [by apply calculate_returns_columns|].
        split; [done|]. split; [done|]. split; [|done].
        apply row_portfolio_value. rewrite Ep. cbn. lia.
  - split; [split; [auto|]|].
    + intros _. unfold run_backtest, calculate_returns. by rewrite E1, E2.
    + intros b. unfold run_backtest, calculate_returns. by rewrite E1, E2.
  - split; [split; [auto|]|].
    + intros _. unfold run_backtest, calculate_returns. by rewrite E1.
    + intros b. unfold run_backtest, calculate_returns. by rewrite E1.
Qed.

Lemma zero_sum_is_zero x : (0 + x)%float = 0%float -> is_zero x.
Proof.
  intros H. apply (f_equal Prim2SF) in H.
  rewrite add_spec, Prim2SF_zero in H. unfold is_zero.
  destruct (Prim2SF x) as [[|]|[|]| |[|] m e] eqn:E; try discriminate.
  - right. apply Prim2SF_inj. by rewrite E.
  - left. apply Prim2SF_inj. by rewrite E, Prim2SF_zero.
Qed.

(** The sum of a column that is NaN in its first row and NaN or a zero
    in the others is +0. *)
Lemma series_sum_zeros l :
  (forall t, t < length l ->
     is_nan (fget l t) = true \/ (0 + fget l t)%float = 0%float) ->
  (0 < length l -> is_nan (fget l 0) = true) ->
  series_sum l = 0%float.
Proof.
  intros H H0. unfold series_sum. apply np_sum_zeros.
  - intros x Hx. apply list_elem_of_lookup in Hx as [t Ht].
    assert (Hlt : t < length l).
    { apply lookup_lt_Some in Ht. by rewrite length_fill_nan in Ht. }
    apply fget_lookup in Ht. rewrite fget_fill_nan in Ht by done. subst x.
    destruct (H t Hlt) as [-> | Hz]; [by left|].
    destruct (is_nan (fget l t)); [by left|by apply zero_sum_is_zero].
  - destruct l as [|x l]; [by left|]. right.
    specialize (H0 ltac:(cbn; lia)). change (fget (x :: l) 0) with x in H0.
    cbn. rewrite H0. left.
Qed.

(** No turnover between equal positions. *)
Lemma turnover_none a :
  is_state a -> PrimFloat.abs (float_of_Z a - float_of_Z a) = 0%float.
Proof.
  unfold is_state, Flat, Long, Short. by intros [-> | [-> | ->]]; vm_compute.
Qed.

(** Between two of the three positions that differ by at most 1 the
    turnover is 0 or 1. *)
Lemma turnover_step a b :
  is_state a -> is_state b -> (Z.abs (a - b) <= 1)%Z ->
  let c := PrimFloat.abs (float_of_Z a - float_of_Z b) in
  c = 0%float \/ c = 1%float.
Proof.
  unfold is_state, Flat, Long, Short.
  intros [-> | [-> | ->]] [-> | [-> | ->]] H; cbn in H; try lia;
    vm_compute; auto.
Qed.

(** X9.  With transaction_cost = 0 and slippage = 0 the total_costs
    reported by [run_backtest] are exactly 0, for positions in
    {-1, 0, +1}: the NaN costs of the first row are skipped by the two
    sums. *)
Theorem run_backtest_zero_rates bt sg s1 s2 prices b :
  valid_positions (position sg) ->
  transaction_cost bt = 0%float -> slippage_rate bt = 0%float ->
  run_backtest bt sg s1 s2 prices = Some b ->
  total_costs b = 0%float.
Proof.
  intros Hv Htc Hsl Hb.
  destruct (column prices s1) as [p1|] eqn:E1;
    [|unfold run_backtest, calculate_returns in Hb; by rewrite E1 in Hb].
  destruct (column prices s2) as [p2|] eqn:E2;
    [|unfold run_backtest, calculate_returns in Hb; by rewrite E1, E2 in Hb].
  destruct (decide (0 < length (position sg))) as [Hn|Hn].
  2:{ unfold run_backtest, calculate_returns in Hb. rewrite E1, E2 in Hb.
      assert (position sg = []) as Ep by (destruct (position sg); [done|cbn in Hn; lia]).
      cbn in Hb. by rewrite Ep in Hb. }
  rewrite (run_backtest_columns bt sg s1 s2 prices p1 p2 E1 E2 Hn) in Hb.
  apply (inj Some) in Hb. subst b. cbn [total_costs].
  destruct (length_costs bt sg p1 p2) as [Hl1 Hl2].
  assert (Hrow : forall t, t < length (position sg) ->
            is_nan (fget (position_change (returns_of_columns bt sg p1 p2)) t)
            = true \/
            (fget (position_change (returns_of_columns bt sg p1 p2)) t * 0)%float
            = 0%float).
  { intros [|j] Ht.
    - left. by rewrite row_position_change_0.
    - right. rewrite row_position_change by done.
      apply turnover_values; apply Hv; lia. }
  destruct (first_row bt sg p1 p2 Hn) as (Ftc & Fsl & _).
  rewrite (series_sum_zeros (transaction_costs _)),
    (series_sum_zeros (slippage _)); [done| | | |].
  - intros t Ht. rewrite Hl2 in Ht. rewrite row_slippage, Hsl by done.
    destruct (Hrow t Ht) as [Hnan | ->]; [left|by right].
    apply is_nan_spec in Hnan. by rewrite Hnan, mul_nan_l.
  - intros _. by rewrite Fsl.
  - intros t Ht. rewrite Hl1 in Ht.
    rewrite row_transaction_costs, Htc by done.
    destruct (Hrow t Ht) as [Hnan | ->]; [left|by right].
    apply is_nan_spec in Hnan. by rewrite Hnan, mul_nan_l.
  - intros _. by rewrite Ftc.
Qed.

(** X10.  Costs are charged on changes of position only: at a
    timestamp t >= 1 whose position equals the one before, for
    positions in {-1, 0, +1} and finite rates that are 0 or positive,
    transaction_costs[t] and slippage[t] are 0 and net_return[t] is
    strategy_return[t]. *)
Theorem calculate_returns_holding_free bt sg s1 s2 prices res j :
  calculate_returns bt sg s1 s2 prices = Some res ->
  valid_positions (position sg) ->
  S j < length (position sg) ->
  zget (position sg) (S j) = zget (position sg) j ->
  is_finite (transaction_cost bt) = true ->
  transaction_cost bt = 0%float \/ (0 <? transaction_cost bt)%float = true ->
  is_finite (slippage_rate bt) = true ->
  slippage_rate bt = 0%float \/ (0 <? slippage_rate bt)%float = true ->
  fget (position_change res) (S j) = 0%float /\
  fget (transaction_costs res) (S j) = 0%float /\
  fget (slippage res) (S j) = 0%float /\
  fget (net_return res) (S j) = fget (strategy_return res) (S j).
Proof.
  intros Hres Hv Hj Heq Hft Hpt Hfs Hps.
  unfold calculate_returns in Hres.
  destruct (column prices s1) as [p1|]; [|done].
  destruct (column prices s2) as [p2|]; [|done].
  injection Hres as <-.
  assert (Hpc : fget (position_change (returns_of_columns bt sg p1 p2)) (S j)
                = 0%float).
  { rewrite row_position_change, Heq by done.
    apply turnover_none, Hv. lia. }
  assert (Htc : fget (transaction_costs (returns_of_columns bt sg p1 p2)) (S j)
                = 0%float)
    by (rewrite row_transaction_costs, Hpc by done; by apply mul_zero_rate).
  assert (Hsl : fget (slippage (returns_of_columns bt sg p1 p2)) (S j)
                = 0%float)
    by (rewrite row_slippage, Hpc by done; by apply mul_zero_rate).
  repeat split; try done.
  by rewrite row_net_return, Htc, Hsl, !sub_zero_r by done.
Qed.

(** The compounded growth of net returns that are all +0 is 1. *)
Lemma compounded_zero net t :
  (forall k, 1 <= k <= t -> fget net k = 0%float) ->
  t < length net ->
  compounded net t = 1%float.
Proof.
  intros H Ht. unfold compounded.
  assert (Hall : forall x, x ∈ take t (drop 1 net) -> x = 0%float).
  { intros x Hx. apply list_elem_of_lookup in Hx as [k Hk].
    pose proof (lookup_lt_Some _ _ _ Hk) as Hlt.
    rewrite length_take, length_drop in Hlt.
    apply fget_lookup in Hk. rewrite fget_take, fget_drop in Hk by lia.
    rewrite <- Hk. apply H. lia. }
  revert Hall. generalize (take t (drop 1 net)). intros l.
  induction l as [|x l IH]; intros Hall; [done|].
  cbn. rewrite (Hall x) by left.
  change (1 * (1 + 0))%float with 1%float.
  apply IH. intros y Hy. apply Hall. by right.
Qed.

(** The rows of a frame that never holds a position. *)
Lemma flat_rows bt sg p1 p2 :
  (forall i, zget (position sg) i = 0%Z) ->
  is_finite (transaction_cost bt) = true ->
  is_finite (slippage_rate bt) = true ->
  let res := returns_of_columns bt sg p1 p2 in
  forall t, 1 <= t < length (position sg) ->
    fget (position_change res) t = 0%float /\
    fget (strategy_return res) t = 0%float /\
    fget (net_return res) t = 0%float /\
    fget (cumulative_return res) t = 0%float /\
    fget (portfolio_value res) t = initial_capital bt.
Proof.
  intros Hflat Hft Hfs. cbn zeta.
  set (res := returns_of_columns bt sg p1 p2).
  assert (Hpc : forall t, 1 <= t < length (position sg) ->
            fget (position_change res) t = 0%float).
  { intros [|j] Hj; [lia|]. unfold res. rewrite row_position_change by lia.
    by rewrite !Hflat. }
  assert (Hsr : forall t, 1 <= t < length (position sg) ->
            fget (strategy_return res) t = 0%float).
  { intros t Ht. unfold res. rewrite row_strategy_return by done.
    unfold strategy_value. by rewrite Hflat. }
  assert (Hnet : forall t, 1 <= t < length (position sg) ->
            fget (net_return res) t = 0%float).
  { intros t Ht. unfold res.
    rewrite row_net_return, row_transaction_costs, row_slippage by lia.
    fold res. rewrite Hsr, Hpc by lia.
    by rewrite sub_zero_charge, sub_zero_charge. }
  assert (Hcum : forall t, 1 <= t < length (position sg) ->
            fget (cumulative_return res) t = 0%float).
  { intros t Ht. unfold res. rewrite row_compounded.
    - fold res. rewrite compounded_zero; [done| |].
      + intros k Hk. apply Hnet. lia.
      + unfold res. rewrite length_net_return. lia.
    - done.
    - intros k Hk. fold res. by rewrite Hnet by lia. }
  intros t Ht. split; [by apply Hpc|]. split; [by apply Hsr|].
  split; [by apply Hnet|]. split; [by apply Hcum|].
  unfold res. rewrite row_portfolio_value by lia.
  fold res. rewrite Hcum by done.
  change (1 + 0)%float with 1%float. apply mul_one_r.
Qed.

(** X11.  A frame that never holds a position keeps its capital: with
    finite rates, at every timestamp t >= 1 the strategy return, the
    net return and the cumulative return are 0 and the portfolio value
    is the initial capital; [run_backtest] then reports total_return 0,
    final_value = initial_capital and total_costs 0 when the frame has
    at least two rows. *)
Theorem calculate_returns_flat bt sg s1 s2 prices res :
  calculate_returns bt sg s1 s2 prices = Some res ->
  (forall i, zget (position sg) i = 0%Z) ->
  is_finite (transaction_cost bt) = true ->
  is_finite (slippage_rate bt) = true ->
  (forall t, 1 <= t < length (position sg) ->
     fget (strategy_return res) t = 0%float /\
     fget (net_return res) t = 0%float /\
     fget (cumulative_return res) t = 0%float /\
     fget (portfolio_value res) t = initial_capital bt) /\
  (2 <= length (position sg) ->
   exists b,
     run_backtest bt sg s1 s2 prices = Some b /\
     results b = res /\
     total_return b = 0%float /\
     final_value b = initial_capital bt /\
     total_costs b = 0%float).
Proof.
  intros Hres Hflat Hft Hfs.
  unfold calculate_returns in Hres.
  destruct (column prices s1) as [p1|] eqn:E1; [|done].
  destruct (column prices s2) as [p2|] eqn:E2; [|done].
  injection Hres as <-.
  pose proof (flat_rows bt sg p1 p2 Hflat Hft Hfs) as Hrows.
  cbn zeta in Hrows.
  split; [intros t Ht; by destruct (Hrows t Ht) as (_ & ? & ? & ? & ?)|].
  intros Hn. eexists. split.
  { apply (run_backtest_columns bt sg s1 s2 prices p1 p2 E1 E2). lia. }
  cbn [results total_return final_value total_costs].
  split; [done|].
  split; [by destruct (Hrows (length (position sg) - 1) ltac:(lia))
               as (_ & _ & _ & ? & _)|].
  split; [by destruct (Hrows (length (position sg) - 1) ltac:(lia))
               as (_ & _ & _ & _ & ?)|].
  destruct (length_costs bt sg p1 p2) as [Hl1 Hl2].
  destruct (first_row bt sg p1 p2 ltac:(lia)) as (Ftc & Fsl & _).
  rewrite (series_sum_zeros (transaction_costs _)),
    (series_sum_zeros (slippage _)); [done| | | |].
  - intros [|j] Ht; rewrite Hl2 in Ht.
    + left. by rewrite Fsl.
    + right. rewrite row_slippage by done.
      destruct (Hrows (S j) ltac:(lia)) as (-> & _).
      by apply add_zero_charge.
  - intros _. by rewrite Fsl.
  - intros [|j] Ht; rewrite Hl1 in Ht.
    + left. by rewrite Ftc.
    + right. rewrite row_transaction_costs by done.
      destruct (Hrows (S j) ltac:(lia)) as (-> & _).
      by apply add_zero_charge.
  - intros _. by rewrite Ftc.
Qed.

Section GeneratedBacktest.

Variables expanding_mean expanding_std : list float -> list float.
Variables rolling_mean rolling_std : nat -> list float -> list float.

(** X12.  In a backtest of generated signals the turnover of a
    timestamp t >= 1 is 0 or 1, never 2, since the position does not
    flip: a row is charged nothing but the product of 0 and the rates,
    or exactly transaction_cost and slippage once. *)
Theorem generated_signals_turnover g sp hr bt s1 s2 prices res j :
  calculate_returns bt
    (generate_signals expanding_mean expanding_std rolling_mean rolling_std
       g sp hr) s1 s2 prices = Some res ->
  S j < length sp ->
  let c := fget (position_change res) (S j) in
  (c = 0%float \/ c = 1%float) /\
  (c = 1%float ->
   fget (transaction_costs res) (S j) = transaction_cost bt /\
   fget (slippage res) (S j) = slippage_rate bt).
Proof.
  intros Hres Hj. cbn zeta.
  set (sg := generate_signals expanding_mean expanding_std rolling_mean
               rolling_std g sp hr) in *.
  destruct (generate_signals_shape expanding_mean expanding_std rolling_mean
              rolling_std g sp hr) as (Hlen & Hv & Hstep).
  fold sg in Hlen, Hv, Hstep.
  unfold calculate_returns in Hres.
  destruct (column prices s1) as [p1|]; [|done].
  destruct (column prices s2) as [p2|]; [|done].
  injection Hres as <-.
  rewrite row_transaction_costs, row_slippage, row_position_change
    by (rewrite Hlen; lia).
  split.
  - apply turnover_step; [apply Hv; lia | apply Hv; lia | by apply Hstep].
  - intros ->. by rewrite !mul_one_l.
Qed.

End GeneratedBacktest.

(** ** performance.py: the ratios *)

Lemma series_std_few l : count_valid l <= 1 -> series_std l = nan.
Proof.
  intros H. unfold series_std.
  by rewrite (proj2 (Nat.leb_le _ _) H).
Qed.

(** X13.  [calculate_sharpe_ratio] returns the sentinel 0 for an empty
    series and whenever the standard deviation of the returns, computed
    as pandas does with NumPy's pairwise sums, equals 0, without looking
    at periods_per_year.  A series with a single valid
    observation is not caught by that guard: its deviation is NaN, and
    for a nonzero machine-sized periods_per_year the ratio is NaN.
    With periods_per_year = 0 a series past the guard raises
    ZeroDivisionError. *)
Theorem calculate_sharpe_ratio_edges returns risk_free_rate periods :
  (returns = [] ->
   calculate_sharpe_ratio returns risk_free_rate periods = Some 0%float) /\
  ((series_std returns =? 0)%float = true ->
   calculate_sharpe_ratio returns risk_free_rate periods = Some 0%float) /\
  (0 < length returns -> count_valid returns <= 1 ->
   periods <> 0%Z -> (- 2 ^ 63 <= periods < 2 ^ 64)%Z ->
   calculate_sharpe_ratio returns risk_free_rate periods = Some nan) /\
  (0 < length returns -> (series_std returns =? 0)%float = false ->
   periods = 0%Z ->
   calculate_sharpe_ratio returns risk_free_rate periods = None).
Proof.
  unfold calculate_sharpe_ratio. split; [|split; [|split]].
  - by intros ->.
  - intros ->. by rewrite orb_true_r.
  - intros Hn Hc Hp Hr.
    rewrite (proj2 (Nat.eqb_neq _ _)) by lia.
    rewrite (series_std_few returns Hc), eqb_nan_l. cbn [orb].
    unfold py_float_div. rewrite (py_float_machine periods Hr).
    cbn [mbind option_bind].
    rewrite (proj2 (Z.eqb_neq _ _) Hp), (np_sqrt_int_machine periods Hr).
    cbn [mbind option_bind]. by rewrite div_nan_r.
  - intros Hn Hs ->.
    rewrite (proj2 (Nat.eqb_neq _ _)) by lia. rewrite Hs. cbn [orb].
    reflexivity.
Qed.

Lemma series_sum_unsigned l :
  (forall x, x ∈ l -> unsigned x = true) -> unsigned (series_sum l) = true.
Proof.
  intros H. unfold series_sum. apply np_sum_unsigned.
  intros x Hx. unfold fill_nan in Hx.
  apply list_elem_of_fmap in Hx as (y & -> & Hy).
  destruct (is_nan y); [done|by apply H].
Qed.

(** X14.  The profit factor is never negative, and a series without a
    negative return gets the sentinel (+infinity when the gross profit
    is positive, else 0) instead of a division by a zero loss. *)
Theorem calculate_profit_factor_sign returns :
  (calculate_profit_factor returns <? 0)%float = false /\
  ((forall x, x ∈ returns -> (x <? 0)%float = false) ->
   calculate_profit_factor returns
   = if (0 <? series_sum
                (filter (fun x => (0 <? x)%float = true) returns))%float
     then infinity else 0%float).
Proof.
  unfold calculate_profit_factor. split.
  - destruct (_ =? 0)%float; [by destruct (0 <? _)%float|].
    apply unsigned_not_negative, div_unsigned; [|apply abs_unsigned].
    apply series_sum_unsigned. intros x Hx.
    apply list_elem_of_filter in Hx as [Hx _]. by apply positive_unsigned.
  - intros Hno.
    assert (filter (fun x => (x <? 0)%float = true) returns = []) as ->.
    { induction returns as [|x r IH]; [done|].
      rewrite filter_cons. rewrite (Hno x) by left.
      destruct (decide _); [done|]. apply IH.
      intros y Hy. apply Hno. by right. }
    reflexivity.
Qed.

(** A valid value that no earlier valid value exceeds is the running
    maximum at its timestamp. *)
Lemma expanding_max_from_weak m0 l p x :
  l !! p = Some x -> is_nan x = false ->
  (forall b, m0 = Some b -> (b <=? x)%float = true) ->
  (forall t y, t < p -> l !! t = Some y -> is_nan y = false ->
               (y <=? x)%float = true) ->
  expanding_max_from m0 l !! p = Some x.
Proof.
  revert m0 p. induction l as [|y r IH]; intros m0 p Hp Hx Hm Hle; [done|].
  destruct p as [|p].
  - injection Hp as ->. cbn. rewrite Hx.
    destruct m0 as [b|]; [|done]. by rewrite (Hm b eq_refl).
  - cbn. apply IH; [done|done| |].
    + intros b. destruct (is_nan y) eqn:Ey; [apply Hm|].
      assert (Hy : (y <=? x)%float = true) by (apply (Hle 0 y); [lia|done..]).
      destruct m0 as [b0|]; [|by intros [= <-]].
      destruct (b0 <=? y)%float; intros [= <-]; [done|by apply Hm].
    + intros t z Ht Hz. apply (Hle (S t) z); [lia|done].
Qed.

Lemma never_declines_drawdown pv t :
  never_declines pv -> t < length pv -> is_nan (fget pv t) = false ->
  (PrimFloat.abs (fget (drawdown_series pv) t) =? 0)%float = true /\
  (fget (drawdown_series pv) t <=? 0)%float = true.
Proof.
  intros Hnd Ht Hv. destruct (Hnd t Ht Hv) as (Hf & Hz & Hle).
  destruct (lookup_lt_is_Some_2 pv t Ht) as [x Hx].
  rewrite (fget_lookup pv t x Hx) in Hv, Hf, Hz, Hle.
  assert (Hrm : fget (expanding_max pv) t = x).
  { apply fget_lookup, expanding_max_from_weak; try done.
    intros s y Hs Hy Hny. rewrite <- (fget_lookup pv s y Hy).
    apply Hle; [done|]. by rewrite (fget_lookup pv s y Hy). }
  rewrite fget_drawdown_series, Hrm, (fget_lookup pv t x Hx) by done.
  by apply self_drawdown_zero.
Qed.

(** On an index of timestamps the drawdown is computed as soon as one
    drawdown is a number at most 0. *)
Lemma max_drawdown_timestamps pv :
  (exists t, t < length pv /\
             (fget (drawdown_series pv) t <=? 0)%float = true) ->
  exists d p,
    calculate_max_drawdown TimestampIndex pv = Some d /\
    p < length pv /\ is_nan (fget pv p) = false /\
    max_drawdown d = fget (drawdown_series pv) p.
Proof.
  intros Hex. destruct (trough_spec pv Hex) as (p & Hmin & Hp & Hv & Hm & _).
  destruct (idxmax_some (take (S p) pv)) as [k Hk].
  { apply (all_nan_witness _ p); [rewrite length_take; lia|].
    by rewrite fget_take by lia. }
  unfold calculate_max_drawdown. rewrite Hmin. cbn [slice_until].
  rewrite Hk. eexists _, p. split; [done|]. by cbn [max_drawdown].
Qed.

(** X15.  On an index of timestamps, a portfolio that never declines
    (its valid values are finite, nonzero and at least every earlier
    one; NaN rows such as the first row of a backtest are skipped) has
    maximum drawdown 0.  Its Calmar ratio is the sentinel, +infinity
    when the annual return is positive and else 0, for a
    periods_per_year that converts to a float (below 2^1024 - 2^970 in
    absolute value); for a larger integer the product
    mean * periods_per_year raises OverflowError. *)
Theorem calculate_calmar_ratio_no_drawdown returns pv periods :
  (exists t, t < length pv /\ is_nan (fget pv t) = false) ->
  never_declines pv ->
  (exists d, calculate_max_drawdown TimestampIndex pv = Some d /\
             (PrimFloat.abs (max_drawdown d) =? 0)%float = true) /\
  calculate_calmar_ratio TimestampIndex returns pv periods
  = if (Z.abs periods <? 2 ^ 1024 - 2 ^ 970)%Z
    then Some (if (0 <? series_mean returns * float_of_Z periods)%float
               then infinity else 0%float)
    else None.
Proof.
  intros (t0 & Ht0 & Hv0) Hnd.
  destruct (max_drawdown_timestamps pv) as (d & p & Hd & Hp & Hv & Hm).
  { exists t0. split; [done|]. by apply never_declines_drawdown. }
  assert (Hz : (PrimFloat.abs (max_drawdown d) =? 0)%float = true)
    by (rewrite Hm; by apply never_declines_drawdown).
  split; [by exists d|].
  unfold calculate_calmar_ratio, py_float.
  destruct (Z.abs periods <? 2 ^ 1024 - 2 ^ 970)%Z; [|done].
  cbn [mbind option_bind]. rewrite Hd. cbn [mbind option_bind].
  by rewrite Hz.
Qed.

(** ** performance.py: [analyze_performance] *)

Lemma sharpe_is_some returns rf p :
  p <> 0%Z -> (- 2 ^ 63 <= p < 2 ^ 64)%Z ->
  is_Some (calculate_sharpe_ratio returns rf p).
Proof.
  intros Hp Hr. unfold calculate_sharpe_ratio, py_float_div.
  destruct (_ || _); [done|].
  rewrite (py_float_machine p Hr). cbn [mbind option_bind].
  rewrite (proj2 (Z.eqb_neq _ _) Hp), (np_sqrt_int_machine p Hr). done.
Qed.

Lemma sortino_is_some returns rf p :
  p <> 0%Z -> (- 2 ^ 63 <= p < 2 ^ 64)%Z ->
  is_Some (calculate_sortino_ratio returns rf p).
Proof.
  intros Hp Hr. unfold calculate_sortino_ratio, py_float_div.
  rewrite (py_float_machine p Hr). cbn [mbind option_bind].
  rewrite (proj2 (Z.eqb_neq _ _) Hp), (np_sqrt_int_machine p Hr).
  cbn [mbind option_bind]. by repeat case_match.
Qed.

Lemma sortino_zero_periods returns rf :
  0 < length returns -> calculate_sortino_ratio returns rf 0 = None.
Proof.
  intros Hn. unfold calculate_sortino_ratio.
  by rewrite (proj2 (Nat.eqb_neq _ _)) by lia.
Qed.

Lemma calmar_is_some kind returns pv p d :
  (- 2 ^ 63 <= p < 2 ^ 64)%Z ->
  calculate_max_drawdown kind pv = Some d ->
  is_Some (calculate_calmar_ratio kind returns pv p).
Proof.
  intros Hr Hd. unfold calculate_calmar_ratio.
  rewrite (py_float_machine p Hr). cbn [mbind option_bind]. rewrite Hd.
  cbn [mbind option_bind]. by case_match.
Qed.

(** When the analysis of a backtest returns. *)
Lemma analysis_defined kind bt sg p1 p2 periods :
  is_Some (analyze_performance kind (returns_of_columns bt sg p1 p2) periods)
  <->
  0 < length (position sg) /\ periods <> 0%Z /\
  (- 2 ^ 63 <= periods < 2 ^ 64)%Z /\
  is_Some (calculate_max_drawdown kind
             (portfolio_value (returns_of_columns bt sg p1 p2))).
Proof.
  set (res := returns_of_columns bt sg p1 p2).
  pose proof (length_cumulative_return bt sg p1 p2) as Hlc.
  pose proof (length_net_return bt sg p1 p2) as Hln.
  fold res in Hlc, Hln. unfold analyze_performance. split.
  - intros Hs.
    destruct (last (cumulative_return res)) as [total|] eqn:El;
      [|by destruct Hs].
    assert (Hn : 0 < length (position sg)).
    { rewrite <- Hlc. destruct (cumulative_return res); [done|cbn; lia]. }
    cbn [mbind option_bind] in Hs.
    destruct (py_float periods) as [f|]; [|by destruct Hs].
    cbn [mbind option_bind] in Hs.
    destruct (np_sqrt_int periods) as [root|] eqn:Er; [|by destruct Hs].
    cbn [mbind option_bind] in Hs.
    destruct (calculate_sharpe_ratio _ _ _) as [sharpe|]; [|by destruct Hs].
    cbn [mbind option_bind] in Hs.
    destruct (calculate_sortino_ratio _ _ _) as [sortino|] eqn:Es;
      [|by destruct Hs].
    cbn [mbind option_bind] in Hs.
    destruct (calculate_max_drawdown _ _) as [d|]; [|by destruct Hs].
    split; [done|]. split; [|split; [by eapply np_sqrt_int_some|done]].
    intros ->. rewrite sortino_zero_periods in Es; [done|].
    by rewrite Hln.
  - intros (Hn & Hp & Hr & [d Hd]).
    rewrite (last_fget (cumulative_return res))
      by (intros E; rewrite E in Hlc; cbn in Hlc; lia).
    cbn [mbind option_bind].
    rewrite (py_float_machine periods Hr). cbn [mbind option_bind].
    rewrite (np_sqrt_int_machine periods Hr). cbn [mbind option_bind].
    destruct (sharpe_is_some (net_return res) 0 periods Hp Hr) as [s ->].
    cbn [mbind option_bind].
    destruct (sortino_is_some (net_return res) 0 periods Hp Hr) as [s' ->].
    cbn [mbind option_bind]. rewrite Hd. cbn [mbind option_bind].
    destruct (calmar_is_some kind (net_return res) (portfolio_value res)
                periods d Hr Hd) as [c ->].
    done.
Qed.

(** X16.  The analysis of a backtest returns exactly when the frame has
    a row, periods_per_year is a nonzero integer of machine size and
    the drawdown of the portfolio can be computed; an empty frame
    (IndexError), periods_per_year = 0 (ZeroDivisionError), an integer
    NumPy cannot take the root of (TypeError) or a portfolio without a
    valid drawdown make it raise. *)
Theorem analyze_performance_defined kind bt sg s1 s2 prices res periods :
  calculate_returns bt sg s1 s2 prices = Some res ->
  (is_Some (analyze_performance kind res periods) <->
   0 < length (position sg) /\ periods <> 0%Z /\
   (- 2 ^ 63 <= periods < 2 ^ 64)%Z /\
   is_Some (calculate_max_drawdown kind (portfolio_value res))).
Proof.
  unfold calculate_returns.
  destruct (column prices s1) as [p1|]; [|done].
  destruct (column prices s2) as [p2|]; [|done].
  intros [= <-]. apply analysis_defined.
Qed.

Lemma all_nan_rows l :
  (forall t, t < length l -> is_nan (fget l t) = true) -> all_nan l = true.
Proof.
  induction l as [|x r IH]; intros H; [done|].
  pose proof (H 0 ltac:(cbn; lia)) as Hx. change (fget (x :: r) 0) with x in Hx.
  cbn. rewrite Hx. apply IH.
  intros t Ht. apply (H (S t)). cbn. lia.
Qed.

(** A portfolio without a valid value has no drawdown. *)
Lemma max_drawdown_all_nan kind pv :
  all_nan pv = true -> calculate_max_drawdown kind pv = None.
Proof.
  intros H. unfold calculate_max_drawdown, idxmin.
  assert (all_nan (drawdown_series pv) = true) as ->; [|done].
  apply all_nan_rows. intros t Ht. rewrite length_drawdown_series in Ht.
  rewrite fget_drawdown_series by done.
  pose proof (all_nan_true pv t H Ht) as Hn. apply is_nan_spec in Hn.
  rewrite Hn. apply sub_nan_div_l.
Qed.

(** The only portfolio value of a one-row backtest is NaN. *)
Lemma single_row_no_drawdown kind bt sg p1 p2 :
  length (position sg) = 1 ->
  calculate_max_drawdown kind
    (portfolio_value (returns_of_columns bt sg p1 p2)) = None.
Proof.
  intros Hn. apply max_drawdown_all_nan.
  pose proof (length_portfolio_value bt sg p1 p2) as Hl.
  destruct (first_row bt sg p1 p2 ltac:(lia)) as (_ & _ & _ & _ & Hpv & _).
  destruct (portfolio_value (returns_of_columns bt sg p1 p2)) as [|x [|y r]];
    cbn in Hl; try lia.
  change (fget [x] 0) with x in Hpv. by rewrite Hpv.
Qed.

(** X17.  A backtest needs two rows to be analysed: on a frame with at
    most one row [analyze_performance] raises, since the only portfolio
    value of a one-row backtest is NaN. *)
Theorem analyze_performance_single_row kind bt sg s1 s2 prices res periods :
  calculate_returns bt sg s1 s2 prices = Some res ->
  length (position sg) <= 1 ->
  analyze_performance kind res periods = None.
Proof.
  unfold calculate_returns.
  destruct (column prices s1) as [p1|]; [|done].
  destruct (column prices s2) as [p2|]; [|done].
  intros [= <-] Hn.
  destruct (analyze_performance kind _ periods) as [m|] eqn:E; [|done].
  exfalso.
  destruct (proj1 (analysis_defined kind bt sg p1 p2 periods))
    as (H0 & _ & _ & [d Hd]); [by rewrite E|].
  by rewrite single_row_no_drawdown in Hd by lia.
Qed.

Lemma elem_of_fget (l : list float) x :
  x ∈ l -> exists t, t < length l /\ fget l t = x.
Proof.
  intros Hx. apply list_elem_of_lookup in Hx as [t Ht].
  exists t. split; [by eapply lookup_lt_Some|by apply fget_lookup].
Qed.

(** The mean of a series of NaN and +0 entries, times anything, is not
    positive. *)
Lemma mean_zeros_not_positive l g :
  (forall t, t < length l ->
     is_nan (fget l t) = true \/ fget l t = 0%float) ->
  (0 <? series_mean l * g)%float = false.
Proof.
  intros H. unfold series_mean. destruct (_ =? _)%nat.
  - apply zero_quotient_not_positive; exact 0%float.
  - change (map (fun x : float => if is_nan x then 0%float else x) l)
      with (fill_nan 0%float l).
    change (np_sum (fill_nan 0%float l)) with (series_sum l).
    assert (series_sum l = 0%float) as ->;
      [|apply zero_quotient_not_positive].
    unfold series_sum. apply np_sum_zeros.
    + intros x Hx. apply list_elem_of_fmap in Hx as (y & -> & Hy).
      apply elem_of_fget in Hy as (t & Ht & <-).
      destruct (H t Ht) as [-> | ->]; by left.
    + destruct l as [|x l]; [by left|]. right.
      destruct (H 0 ltac:(cbn; lia)) as [Hx|Hx];
        change (fget (x :: l) 0) with x in Hx; cbn; rewrite Hx; left.
Qed.

(** X18.  A frame that never holds a position is analysed without
    surprise: for at least two rows on an index of timestamps, finite
    rates, a finite nonzero initial capital and a nonzero machine-sized
    periods_per_year, [analyze_performance] returns with total_return
    0, maximum drawdown 0, Calmar ratio 0, profit factor 0 and no
    trading day. *)
Theorem analyze_performance_flat bt sg s1 s2 prices res periods :
  calculate_returns bt sg s1 s2 prices = Some res ->
  (forall i, zget (position sg) i = 0%Z) ->
  2 <= length (position sg) ->
  is_finite (transaction_cost bt) = true ->
  is_finite (slippage_rate bt) = true ->
  is_finite (initial_capital bt) = true ->
  (initial_capital bt =? 0)%float = false ->
  periods <> 0%Z -> (- 2 ^ 63 <= periods < 2 ^ 64)%Z ->
  exists m,
    analyze_performance TimestampIndex res periods = Some m /\
    Metrics.total_return m = 0%float /\
    (PrimFloat.abs (Metrics.max_drawdown m) =? 0)%float = true /\
    Metrics.calmar_ratio m = 0%float /\
    Metrics.profit_factor m = 0%float /\
    Metrics.total_days m = length (position sg) /\
    Metrics.trading_days m = 0.
Proof.
  unfold calculate_returns.
  destruct (column prices s1) as [p1|]; [|done].
  destruct (column prices s2) as [p2|]; [|done].
  intros [= <-] Hflat Hn Hft Hfs Hfc Hnz Hp Hr.
  pose proof (flat_rows bt sg p1 p2 Hflat Hft Hfs) as Hrows.
  cbn zeta in Hrows.
  set (res := returns_of_columns bt sg p1 p2) in *.
  pose proof (length_cumulative_return bt sg p1 p2) as Hlc.
  pose proof (length_portfolio_value bt sg p1 p2) as Hlp.
  pose proof (length_net_return bt sg p1 p2) as Hln.
  destruct (first_row bt sg p1 p2 ltac:(lia)) as (_ & _ & Hn0 & _ & Hp0 & _).
  fold res in Hlc, Hlp, Hln, Hn0, Hp0.
  assert (Hpv : forall t, t < length (portfolio_value res) ->
            is_nan (fget (portfolio_value res) t) = false ->
            1 <= t /\ fget (portfolio_value res) t = initial_capital bt).
  { intros [|t] Ht Hv; [by rewrite Hp0 in Hv|].
    split; [lia|]. rewrite Hlp in Ht.
    by destruct (Hrows (S t) ltac:(lia)) as (_ & _ & _ & _ & ?). }
  assert (Hnd : never_declines (portfolio_value res)).
  { intros t Ht Hv. destruct (Hpv t Ht Hv) as [_ ->].
    split; [done|]. split; [done|]. intros s Hs Hvs.
    destruct (Hpv s ltac:(lia) Hvs) as [_ ->].
    by apply leb_refl, is_finite_not_nan. }
  destruct (max_drawdown_timestamps (portfolio_value res))
    as (d & p & Hd & Hpl & Hvp & Hm).
  { exists 1. rewrite Hlp. split; [lia|].
    apply never_declines_drawdown; [done|rewrite Hlp; lia|].
    destruct (Hrows 1 ltac:(lia)) as (_ & _ & _ & _ & ->).
    by apply is_finite_not_nan. }
  assert (Hz : (PrimFloat.abs (max_drawdown d) =? 0)%float = true)
    by (rewrite Hm; by apply never_declines_drawdown).
  assert (Hnet : forall t, t < length (net_return res) ->
            is_nan (fget (net_return res) t) = true \/
            fget (net_return res) t = 0%float).
  { intros [|t] Ht; [left; by rewrite Hn0|right].
    rewrite Hln in Ht.
    by destruct (Hrows (S t) ltac:(lia)) as (_ & _ & ? & _). }
  unfold analyze_performance.
  rewrite (last_fget (cumulative_return res))
    by (intros E; rewrite E in Hlc; cbn in Hlc; lia).
  cbn [mbind option_bind].
  rewrite (py_float_machine periods Hr). cbn [mbind option_bind].
  rewrite (np_sqrt_int_machine periods Hr). cbn [mbind option_bind].
  destruct (sharpe_is_some (net_return res) 0 periods Hp Hr) as [s ->].
  cbn [mbind option_bind].
  destruct (sortino_is_some (net_return res) 0 periods Hp Hr) as [s' ->].
  cbn [mbind option_bind]. rewrite Hd. cbn [mbind option_bind].
  unfold calculate_calmar_ratio.
  rewrite (py_float_machine periods Hr). cbn [mbind option_bind].
  rewrite Hd. cbn [mbind option_bind].
  rewrite Hz, (mean_zeros_not_positive _ _ Hnet).
  eexists. split; [done|].
  cbn [Metrics.total_return Metrics.max_drawdown Metrics.calmar_ratio
       Metrics.profit_factor Metrics.total_days Metrics.trading_days].
  split; [rewrite Hlc; by destruct (Hrows (length (position sg) - 1)
                                      ltac:(lia)) as (_ & _ & _ & ? & _)|].
  split; [done|]. split; [done|]. split; [|split; [done|]].
  - unfold calculate_profit_factor.
    rewrite !filter_none; [done| |].
    + intros x Hx Hneg. apply elem_of_fget in Hx as (t & Ht & <-).
      destruct (Hnet t Ht) as [Hnan|H0].
      * apply is_nan_spec in Hnan.
        by rewrite Hnan, ?ltb_nan_l, ?ltb_nan_r in Hneg.
      * by rewrite H0 in Hneg.
    + intros x Hx Hpos. apply elem_of_fget in Hx as (t & Ht & <-).
      destruct (Hnet t Ht) as [Hnan|H0].
      * apply is_nan_spec in Hnan.
        by rewrite Hnan, ?ltb_nan_l, ?ltb_nan_r in Hpos.
      * by rewrite H0 in Hpos.
  - change (position (base res)) with (position sg).
    rewrite filter_none; [done|].
    intros x Hx. apply list_elem_of_lookup in Hx as [i Hi].
    intros Hne. apply Hne. rewrite <- (Hflat i).
    unfold zget. by rewrite nth_lookup, Hi.
Qed.

(** ** pair_selector.py: the scans *)

Lemma combinations2_lookup {A} (l : list A) a b :
  (a, b) ∈ combinations2 l <->
  exists i j, i < j /\ l !! i = Some a /\ l !! j = Some b.
Proof.
  induction l as [|x r IH]; cbn [combinations2].
  - split; [by intros ?%elem_of_nil|]. by intros (i & j & _ & ? & _).
  - rewrite elem_of_app, IH. split.
    + intros [H|(i & j & Hij & Hi & Hj)].
      * change (map (pair x) r) with (pair x <$> r) in H.
        apply list_elem_of_fmap in H as (y & [= -> ->] & Hy).
        apply list_elem_of_lookup in Hy as [j Hj].
        exists 0, (S j). split; [lia|done].
      * exists (S i), (S j). split; [lia|done].
    + intros (i & j & Hij & Hi & Hj).
      destruct j as [|j]; [lia|]. destruct i as [|i].
      * left. injection Hi as ->.
        change (map (pair a) r) with (pair a <$> r).
        apply list_elem_of_fmap. exists b. split; [done|].
        by apply list_elem_of_lookup_2 with j.
      * right. exists i, j. split; [lia|done].
Qed.

(** *** Sorting keeps the candidates and orders them *)

Lemma insert_by_perm {A} (lt : A -> A -> bool) x l :
  insert_by lt x l ≡ₚ x :: l.
Proof.
  induction l as [|y r IH]; cbn; [done|].
  destruct (lt y x); [|done]. by rewrite IH, Permutation_swap.
Qed.

Lemma sort_by_perm {A} (lt : A -> A -> bool) l : sort_by lt l ≡ₚ l.
Proof.
  induction l as [|x l IH]; [done|].
  change (sort_by lt (x :: l)) with (insert_by lt x (sort_by lt l)).
  by rewrite insert_by_perm, IH.
Qed.

Lemma ranked_cons {A} (lt : A -> A -> bool) x l :
  ranked lt (x :: l) <-> (forall z, z ∈ l -> lt z x = false) /\ ranked lt l.
Proof.
  unfold ranked. split.
  - intros H. split.
    + intros z Hz. apply list_elem_of_lookup in Hz as [j Hj].
      by apply (H 0 (S j) x z); [lia|..].
    + intros i j a b Hij Hi Hj. by apply (H (S i) (S j)); [lia|..].
  - intros [Hx Hl] i j a b Hij Hi Hj.
    destruct j as [|j]; [lia|]. destruct i as [|i].
    + injection Hi as <-. apply Hx. by apply list_elem_of_lookup_2 with j.
    + by apply (Hl i j); [lia|..].
Qed.

Lemma insert_by_ranked {A} (lt : A -> A -> bool) (P : A -> Prop) x l :
  (forall a, lt a a = false) ->
  (forall a b c, lt a b = true -> lt b c = true -> lt a c = true) ->
  (forall a b c, P b -> lt a c = true -> lt a b = true \/ lt b c = true) ->
  (forall z, z ∈ l -> P z) ->
  ranked lt l -> ranked lt (insert_by lt x l).
Proof.
  intros Hirr Htr Hco. induction l as [|y r IH]; intros HP Hr; cbn.
  - apply ranked_cons. split; [by intros z ?%elem_of_nil|done].
  - apply ranked_cons in Hr as [Hy Hr].
    destruct (lt y x) eqn:E; apply ranked_cons.
    + split.
      * intros z Hz. apply insert_by_elem in Hz as [->|Hz]; [|by apply Hy].
        destruct (lt x y) eqn:E'; [|done].
        by rewrite <- (Hirr y), (Htr y x y E E').
      * apply IH; [|done]. intros z Hz. apply HP. by right.
    + split.
      * intros z Hz. apply elem_of_cons in Hz as [->|Hz]; [done|].
        destruct (lt z x) eqn:E'; [|done].
        destruct (Hco z y x (HP y ltac:(left)) E') as [H|H];
          [by rewrite (Hy z Hz) in H|congruence].
      * apply ranked_cons. by split.
Qed.

Lemma sort_by_ranked {A} (lt : A -> A -> bool) (P : A -> Prop) l :
  (forall a, lt a a = false) ->
  (forall a b c, lt a b = true -> lt b c = true -> lt a c = true) ->
  (forall a b c, P b -> lt a c = true -> lt a b = true \/ lt b c = true) ->
  (forall z, z ∈ l -> P z) ->
  ranked lt (sort_by lt l).
Proof.
  intros Hirr Htr Hco. induction l as [|x l IH]; intros HP.
  - by intros i j a b _ ?.
  - change (sort_by lt (x :: l)) with (insert_by lt x (sort_by lt l)).
    apply (insert_by_ranked lt P); try done.
    + intros z Hz. apply HP. right. by apply (sort_by_elem lt).
    + apply IH. intros z Hz. apply HP. by right.
Qed.

Lemma length_omap_le {A B} (f : A -> option B) (l : list A) :
  length (omap f l) <= length l.
Proof.
  induction l as [|x l IH]; cbn; [lia|]. destruct (f x); cbn; lia.
Qed.

Section ScanProperties.

Variable corr : list float -> list float -> option float.
Variable coint : list float -> list float -> option (float * float).
Variable ols_slope : list float -> list float -> option float.
Variable ols_theta : list float -> list float -> option float.

Abbreviation strict_scan' :=
  (find_cointegrated_pairs corr coint ols_slope ols_theta).
Abbreviation lenient_scan' :=
  (find_correlation_based_pairs corr coint ols_slope ols_theta).
Abbreviation select' := (select_best_pair corr coint ols_slope ols_theta).
Abbreviation test' := (test_pair corr coint ols_slope ols_theta).
Abbreviation accepted' := (accepted corr coint ols_slope ols_theta).

Lemma test_pair_accepted prices mc bound s1 s2 info st :
  test' prices mc bound s1 s2 = Some (info, st) ->
  symbol1 info = s1 /\ symbol2 info = s2 /\
  stat_half_life st = half_life info /\
  accepted' prices mc bound info.
Proof.
  unfold test_pair, accepted. intros H.
  destruct (column prices s1) as [p1|] eqn:E1; [|done].
  destruct (column prices s2) as [p2|] eqn:E2; [|done].
  cbn [mbind option_bind] in H.
  destruct (corr p1 p2) as [c|] eqn:Ec; [|done].
  cbn [mbind option_bind] in H.
  destruct (PrimFloat.abs c <? mc)%float eqn:Em; [done|].
  destruct (coint p1 p2) as [[score pvalue]|] eqn:Ei; [|done].
  cbn [mbind option_bind] in H.
  destruct (pvalue <? bound)%float eqn:Ep; [|done].
  destruct (ols_slope p2 p1) as [h|] eqn:Eh; [|done].
  cbn [mbind option_bind] in H.
  unfold calculate_spread_stats in H.
  destruct (calculate_half_life ols_theta _) as [hl|] eqn:El; [|done].
  cbn [mbind option_bind] in H. injection H as <- <-.
  cbn [symbol1 symbol2 stat_half_life half_life correlation
       cointegration_pvalue cointegration_score hedge_ratio pair_spread
       spread_mean spread_std stat_mean stat_std].
  split; [done|]. split; [done|]. split; [done|].
  exists p1, p2. by rewrite E1, E2.
Qed.

(** The candidates of the strict scan, before sorting. *)
Lemma strict_scan_elem self prices mc y :
  y ∈ (strict_scan' self prices mc).1 <->
  exists s1 s2 st,
    (s1, s2) ∈ combinations2 (map fst prices) /\
    test' prices mc (pvalue_threshold self) s1 s2 = Some (y, st).
Proof.
  unfold find_cointegrated_pairs. cbn [fst].
  rewrite sort_by_elem, list_elem_of_omap. split.
  - intros ([s1 s2] & Hin & H). cbn [fst snd] in H.
    destruct (test' _ _ _ _ _) as [[info st]|] eqn:E; [|done].
    injection H as ->. by exists s1, s2, st.
  - intros (s1 & s2 & st & Hin & H). exists (s1, s2).
    split; [done|]. cbn [fst snd]. by rewrite H.
Qed.

Lemma lenient_scan_elem prices mc mp y :
  y ∈ lenient_scan' prices mc mp <->
  exists s1 s2 st,
    (s1, s2) ∈ combinations2 (map fst prices) /\
    test' prices mc mp s1 s2 = Some (y, st) /\
    (stat_half_life st <? 252)%float = true /\
    (0 <? stat_half_life st)%float = true.
Proof.
  unfold find_correlation_based_pairs.
  rewrite sort_by_elem, list_elem_of_omap. split.
  - intros ([s1 s2] & Hin & H). cbn [fst snd] in H.
    destruct (test' _ _ _ _ _) as [[info st]|] eqn:E; [|done].
    cbn [mbind option_bind] in H.
    destruct (stat_half_life st <? 252)%float eqn:E1; [|done].
    destruct (0 <? stat_half_life st)%float eqn:E2; [|done].
    injection H as ->. by exists s1, s2, st.
  - intros (s1 & s2 & st & Hin & H & E1 & E2). exists (s1, s2).
    split; [done|]. cbn [fst snd]. rewrite H. cbn [mbind option_bind].
    by rewrite E1, E2.
Qed.

(** X19.  The strict scan is sound, complete and sorted.  Every pair it
    returns joins an earlier column of the price table with a later
    one, has a correlation that is not below min_correlation in
    absolute value and a cointegration p-value below pvalue_threshold,
    and carries the hedge ratio, the spread symbol2 - hedge_ratio *
    symbol1 and its statistics; every pair of columns that passes
    these tests is returned; and the list is in ascending order of
    p-value. *)
Theorem find_cointegrated_pairs_sound self prices min_correlation :
  let found := (strict_scan' self prices min_correlation).1 in
  (forall y, y ∈ found <->
     (exists i j, i < j /\
        map fst prices !! i = Some (symbol1 y) /\
        map fst prices !! j = Some (symbol2 y)) /\
     exists st,
       test' prices min_correlation (pvalue_threshold self)
             (symbol1 y) (symbol2 y) = Some (y, st)) /\
  (forall y, y ∈ found ->
     accepted' prices min_correlation (pvalue_threshold self) y) /\
  ranked pvalue_lt found.
Proof.
  cbn zeta. split; [|split].
  - intros y. rewrite strict_scan_elem. split.
    + intros (s1 & s2 & st & Hin & H).
      destruct (test_pair_accepted _ _ _ _ _ _ _ H) as (<- & <- & _).
      split; [by apply combinations2_lookup|by exists st].
    + intros [Hin [st H]]. exists (symbol1 y), (symbol2 y), st.
      split; [by apply combinations2_lookup|done].
  - intros y (s1 & s2 & st & _ & H)%strict_scan_elem.
    by destruct (test_pair_accepted _ _ _ _ _ _ _ H) as (_ & _ & _ & ?).
  - unfold find_cointegrated_pairs. cbn [fst].
    apply (sort_by_ranked pvalue_lt
             (fun x => is_nan (cointegration_pvalue x) = false));
      [apply pvalue_lt_irrefl | apply pvalue_lt_trans
      | apply pvalue_lt_cotrans |].
    intros z Hz.
    apply (strict_scan_pvalue corr coint ols_slope ols_theta self prices
             min_correlation).
    unfold find_cointegrated_pairs. cbn [fst]. by apply sort_by_elem.
Qed.

(** X20.  The lenient scan is sound: every candidate it returns joins
    an earlier column with a later one, passed the tests on the
    correlation and on the p-value (below max_pvalue), and has a
    half-life of mean reversion strictly between 0 and 252 periods;
    candidates whose correlations are numbers are ranked by descending
    absolute correlation, then ascending p-value. *)
Theorem find_correlation_based_pairs_sound prices min_correlation max_pvalue :
  let found := lenient_scan' prices min_correlation max_pvalue in
  (forall y, y ∈ found ->
     (exists i j, i < j /\
        map fst prices !! i = Some (symbol1 y) /\
        map fst prices !! j = Some (symbol2 y)) /\
     accepted' prices min_correlation max_pvalue y /\
     (half_life y <? 252)%float = true /\
     (0 <? half_life y)%float = true) /\
  ((forall y, y ∈ found -> is_nan (correlation y) = false) ->
   ranked corr_pvalue_lt found).
Proof.
  cbn zeta. split.
  - intros y (s1 & s2 & st & Hin & H & E1 & E2)%lenient_scan_elem.
    destruct (test_pair_accepted _ _ _ _ _ _ _ H) as (<- & <- & Eh & Ha).
    rewrite Eh in E1, E2.
    split; [by apply combinations2_lookup|done].
  - intros Hc.
    assert (Hp : forall x, x ∈ lenient_scan' prices min_correlation max_pvalue ->
                   is_nan (cointegration_pvalue x) = false)
      by (intros x; apply lenient_scan_pvalue).
    revert Hc Hp. unfold find_correlation_based_pairs. intros Hc Hp.
    apply (sort_by_ranked corr_pvalue_lt
             (fun x => is_nan (correlation x) = false /\
                       is_nan (cointegration_pvalue x) = false));
      [apply corr_pvalue_lt_irrefl | apply corr_pvalue_lt_trans
      | apply corr_pvalue_lt_cotrans |].
    intros z Hz. split; [apply Hc|apply Hp]; by apply sort_by_elem.
Qed.

(** The pair that [select_best_pair] returns comes from one of the
    three scans. *)
Lemma select_elem self prices mc fb best :
  (select' self prices mc fb).1 = inr best ->
  best ∈ (strict_scan' self prices mc).1 \/
  best ∈ lenient_scan' prices mc 0.20%float \/
  best ∈ lenient_scan' prices 0.6%float 0.30%float.
Proof.
  unfold select_best_pair.
  destruct (strict_scan' self prices mc) as [found self'] eqn:E.
  cbn [fst]. destruct found as [|b l].
  - destruct fb; [|done].
    destruct (lenient_scan' prices mc 0.2) as [|b l] eqn:E1.
    + destruct (lenient_scan' prices 0.6 0.3) as [|b l] eqn:E2; [done|].
      cbn [fst]. intros [= <-]. right. right. left.
    + cbn [fst]. intros [= <-]. right. left. left.
  - cbn [fst]. intros [= <-]. left. left.
Qed.

Lemma select_small self prices mc fb :
  length prices <= 1 ->
  (select' self prices mc fb).1 = inl (ValueError no_pairs_message).
Proof.
  intros H. destruct prices as [|c [|c' r]]; [| |cbn in H; lia];
    unfold select_best_pair, find_cointegrated_pairs,
      find_correlation_based_pairs; cbn; by destruct fb.
Qed.

(** X21.  A price table with fewer than two columns has no pair to
    test: [select_best_pair] raises its ValueError whatever the
    thresholds and the statistics, with or without fallback. *)
Theorem select_best_pair_small_universe self prices min_correlation
  use_fallback :
  length prices <= 1 ->
  (select' self prices min_correlation use_fallback).1
  = inl (ValueError no_pairs_message).
Proof. apply select_small. Qed.

(** The columns behind a selected pair. *)
Lemma selected_columns self prices mc fb best :
  (select' self prices mc fb).1 = inr best ->
  exists i j p1 p2, i < j /\
    map fst prices !! i = Some (symbol1 best) /\
    map fst prices !! j = Some (symbol2 best) /\
    column prices (symbol1 best) = Some p1 /\
    column prices (symbol2 best) = Some p2 /\
    pair_spread best
    = zip_with (fun b a => (b - hedge_ratio best * a)%float) p2 p1.
Proof.
  intros Hsel.
  assert (Hpos : exists i j, i < j /\
            map fst prices !! i = Some (symbol1 best) /\
            map fst prices !! j = Some (symbol2 best)).
  { destruct (select_elem _ _ _ _ _ Hsel) as [H|[H|H]].
    - apply strict_scan_elem in H as (s1 & s2 & st & Hin & H).
      destruct (test_pair_accepted _ _ _ _ _ _ _ H) as (<- & <- & _).
      by apply combinations2_lookup.
    - apply lenient_scan_elem in H as (s1 & s2 & st & Hin & H & _).
      destruct (test_pair_accepted _ _ _ _ _ _ _ H) as (<- & <- & _).
      by apply combinations2_lookup.
    - apply lenient_scan_elem in H as (s1 & s2 & st & Hin & H & _).
      destruct (test_pair_accepted _ _ _ _ _ _ _ H) as (<- & <- & _).
      by apply combinations2_lookup. }
  assert (Hacc : exists mc' bound, accepted' prices mc' bound best).
  { destruct (select_elem _ _ _ _ _ Hsel) as [H|[H|H]].
    - apply strict_scan_elem in H as (s1 & s2 & st & Hin & H).
      destruct (test_pair_accepted _ _ _ _ _ _ _ H) as (_ & _ & _ & ?).
      by eexists _, _.
    - apply lenient_scan_elem in H as (s1 & s2 & st & Hin & H & _).
      destruct (test_pair_accepted _ _ _ _ _ _ _ H) as (_ & _ & _ & ?).
      by eexists _, _.
    - apply lenient_scan_elem in H as (s1 & s2 & st & Hin & H & _).
      destruct (test_pair_accepted _ _ _ _ _ _ _ H) as (_ & _ & _ & ?).
      by eexists _, _. }
  destruct Hpos as (i & j & Hij & Hi & Hj).
  destruct Hacc as (mc' & bound & p1 & p2 & H1 & H2 & _ & _ & _ & _ & _
                    & Hsp & _).
  by exists i, j, p1, p2.
Qed.

(** X22.  The pair that [select_best_pair] returns can be backtested:
    its two symbols are columns of the price table, the first one
    standing before the second and so different from it when the
    column names are distinct; its spread is symbol2 - hedge_ratio *
    symbol1; and [calculate_returns] finds both columns, for any
    frame of signals. *)
Theorem select_best_pair_columns self prices min_correlation use_fallback
  best :
  (select' self prices min_correlation use_fallback).1 = inr best ->
  (exists i j p1 p2, i < j /\
     map fst prices !! i = Some (symbol1 best) /\
     map fst prices !! j = Some (symbol2 best) /\
     column prices (symbol1 best) = Some p1 /\
     column prices (symbol2 best) = Some p2 /\
     pair_spread best
     = zip_with (fun b a => (b - hedge_ratio best * a)%float) p2 p1) /\
  (NoDup (map fst prices) -> symbol1 best <> symbol2 best) /\
  forall bt sg,
    is_Some (calculate_returns bt sg (symbol1 best) (symbol2 best) prices).
Proof.
  intros Hsel.
  destruct (selected_columns _ _ _ _ _ Hsel)
    as (i & j & p1 & p2 & Hij & Hi & Hj & H1 & H2 & Hsp).
  split; [by exists i, j, p1, p2|]. split.
  - intros Hnd E. rewrite <- E in Hj.
    pose proof (NoDup_lookup _ _ _ _ Hnd Hi Hj). lia.
  - intros bt sg. unfold calculate_returns. by rewrite H1, H2.
Qed.

(** X23.  The half-life of mean reversion is never negative: it is
    +infinity when fewer than two differences are available or the
    regression slope theta is at least 0, and -ln 2 / theta, the
    quotient of two negative numbers, otherwise (NaN for a NaN
    slope). *)
Theorem calculate_half_life_not_negative sp h :
  calculate_half_life ols_theta sp = Some h ->
  (h <? 0)%float = false /\
  (length sp <= 2 -> h = infinity).
Proof.
  unfold calculate_half_life.
  set (lag := omap _ (zip _ (imap _ sp))).
  set (dif := omap _ (zip _ (zip_with _ sp _))).
  intros H. split.
  - destruct (length lag <? 2)%nat; [by injection H as <-|].
    destruct (ols_theta dif lag) as [theta|]; [|done].
    cbn [mbind option_bind] in H.
    destruct (0 <=? theta)%float eqn:E; injection H as <-; [done|].
    rewrite <- (opp_involutive theta) at 1.
    change ((- ln2 / - - theta <? 0)%float = false). rewrite div_opp_opp.
    apply unsigned_not_negative, div_unsigned; [done|by apply opp_unsigned].
  - intros Hlen.
    assert (Hl : length lag <= 1).
    { subst lag. destruct sp as [|x r]; [cbn; lia|].
      cbn [imap zip_with zip omap]. rewrite sub_nan_r. cbn.
      etransitivity; [apply length_omap_le|].
      rewrite length_zip_with, length_zip_with, !length_imap.
      cbn in Hlen. lia. }
    by rewrite (proj2 (Nat.ltb_lt _ _)) in H by lia; injection H as <-.
Qed.

End ScanProperties.

(** ** main.py: how the stages compose *)

Lemma column_elem prices s p :
  column prices s = Some p -> (s, p) ∈ prices.
Proof.
  unfold column.
  destruct (labelled prices s) as [|[c l] [|c' r]] eqn:E; try done.
  intros [= <-].
  assert (Hin : (c, l) ∈ labelled prices s) by (rewrite E; left).
  apply list_elem_of_filter in Hin as [Hc Hin]. cbn in Hc. by subst c.
Qed.

Section MainProperties.

Variable corr : list float -> list float -> option float.
Variable coint : list float -> list float -> option (float * float).
Variable ols_slope : list float -> list float -> option float.
Variable ols_theta : list float -> list float -> option float.
Variables expanding_mean expanding_std : list float -> list float.
Variables rolling_mean rolling_std : nat -> list float -> list float.

Abbreviation main' :=
  (main corr coint ols_slope ols_theta expanding_mean expanding_std
        rolling_mean rolling_std).
Abbreviation selected prices :=
  (select_best_pair corr coint ols_slope ols_theta selector prices
                    0.7%float true).1.
Abbreviation signals_of best :=
  (generate_signals expanding_mean expanding_std rolling_mean rolling_std
                    signal_gen (pair_spread best) (hedge_ratio best)).

(** X24.  [main] stops with a message, without raising, when the
    fetching step raised or returned a frame without rows, and when
    fewer than two symbols could be fetched: the selection then fails
    with its ValueError. *)
Theorem main_reports_errors :
  main' None = FetchError /\
  (forall prices, frame_length prices = 0 ->
     main' (Some prices) = FetchError) /\
  (forall prices, 0 < frame_length prices -> length prices <= 1 ->
     main' (Some prices) = PairError (ValueError no_pairs_message)) /\
  (forall prices e, 0 < frame_length prices ->
     selected prices = inl e -> main' (Some prices) = PairError e).
Proof.
  split; [done|]. split; [|split].
  - intros prices H. unfold main. by rewrite H.
  - intros prices H0 H1. unfold main.
    rewrite (proj2 (Nat.eqb_neq _ _)) by lia.
    by rewrite (select_small corr coint ols_slope ols_theta selector prices
                  0.7%float true H1).
  - intros prices e H0 He. unfold main.
    rewrite (proj2 (Nat.eqb_neq _ _)) by lia. by rewrite He.
Qed.

(** X25.  In [main] the backtest of a selected pair always runs: on a
    frame of n >= 1 rows the signals have n rows, both symbols are
    found and [run_backtest] returns.  [main] can then raise only in
    the analysis, exactly when the drawdown of the portfolio cannot be
    computed, which is the case whenever the frame has a single row;
    otherwise it reaches its plots with the analysed backtest. *)
Theorem main_backtest_runs prices n best :
  rectangular prices n -> 0 < n ->
  selected prices = inr best ->
  let sg := signals_of best in
  length (position sg) = n /\
  exists b,
    run_backtest backtester sg (symbol1 best) (symbol2 best) prices
    = Some b /\
    (main' (Some prices) = Raised <->
     calculate_max_drawdown TimestampIndex (portfolio_value (results b))
     = None) /\
    (main' (Some prices) <> Raised ->
     exists m, main' (Some prices) = Analysed best sg b m) /\
    (n = 1 -> main' (Some prices) = Raised).
Proof.
  intros Hrect Hn Hsel. cbn zeta.
  destruct (selected_columns corr coint ols_slope ols_theta _ _ _ _ _ Hsel)
    as (i & j & p1 & p2 & Hij & Hi & Hj & H1 & H2 & Hsp).
  pose proof (Hrect _ _ (column_elem _ _ _ H1)) as Hl1.
  pose proof (Hrect _ _ (column_elem _ _ _ H2)) as Hl2.
  assert (Hlen : length (position (signals_of best)) = n).
  { destruct (generate_signals_shape expanding_mean expanding_std
                rolling_mean rolling_std signal_gen (pair_spread best)
                (hedge_ratio best)) as (-> & _).
    rewrite Hsp, length_zip_with. lia. }
  split; [done|].
  pose proof (run_backtest_columns backtester (signals_of best)
                (symbol1 best) (symbol2 best) prices p1 p2 H1 H2
                ltac:(lia)) as Hb.
  cbn zeta in Hb.
  match type of Hb with _ = Some ?b => set (b0 := b) in * end.
  exists b0. split; [exact Hb|].
  change (results b0)
    with (returns_of_columns backtester (signals_of best) p1 p2).
  assert (Hrows : (frame_length prices =? 0)%nat = false).
  { apply Nat.eqb_neq. destruct prices as [|[c col] r]; [done|].
    cbn. rewrite (Hrect c col) by left. lia. }
  assert (Hmain : main' (Some prices)
            = match analyze_performance TimestampIndex
                      (returns_of_columns backtester (signals_of best) p1 p2)
                      252 with
              | None => Raised
              | Some m => Analysed best (signals_of best) b0 m
              end).
  { unfold main. rewrite Hrows, Hsel. cbn zeta. by rewrite Hb. }
  pose proof (analysis_defined TimestampIndex backtester (signals_of best)
                p1 p2 252) as Hdef.
  rewrite Hlen in Hdef.
  assert (Hiff : analyze_performance TimestampIndex
                   (returns_of_columns backtester (signals_of best) p1 p2)
                   252 = None <->
                 calculate_max_drawdown TimestampIndex
                   (portfolio_value
                      (returns_of_columns backtester (signals_of best) p1 p2))
                 = None).
  { split.
    - intros Ha. destruct (calculate_max_drawdown _ _) as [d|] eqn:Ed;
        [|done].
      destruct (proj2 Hdef) as [m Hm]; [|by rewrite Ha in Hm].
      split; [done|]. split; [done|]. split; [by vm_compute|done].
    - intros Hd.
      destruct (analyze_performance _ _ _) as [m|] eqn:Ea; [|done].
      destruct (proj1 Hdef) as (_ & _ & _ & [d Hd']); [done|].
      by rewrite Hd in Hd'. }
  split; [|split].
  - rewrite Hmain, <- Hiff.
    by destruct (analyze_performance _ _ _).
  - rewrite Hmain. destruct (analyze_performance _ _ _) as [m|]; [|done].
    intros _. by exists m.
  - intros ->. rewrite Hmain.
    rewrite (proj2 Hiff); [done|].
    by apply single_row_no_drawdown.
Qed.

End MainProperties.

(** ** Concrete runs of the further properties *)

Lemma quiet_positions : position quiet_signals = [0; 0; 0]%Z.
Proof. vm_compute. reflexivity. Qed.

Lemma quiet_flat i : zget (position quiet_signals) i = 0%Z.
Proof. rewrite quiet_positions. destruct i as [|[|[|[|i]]]]; reflexivity. Qed.

Lemma generate_signals_flags_changes_witness :
  1 < length sample_spread /\
  zget (entry_signal sample_signals) 1 = 1%Z /\
  zget (exit_signal sample_signals) 3 = 1%Z.
Proof.
  split; [cbn; lia|].
  destruct (generate_signals_flags_changes
              unit_mean unit_std (fun _ => unit_mean) (fun _ => unit_std)
              default_generator sample_spread 1%float 1)
    as (He & _); [cbn; lia|].
  destruct (generate_signals_flags_changes
              unit_mean unit_std (fun _ => unit_mean) (fun _ => unit_std)
              default_generator sample_spread 1%float 3)
    as (_ & Hx & _); [cbn; lia|].
  split; (etransitivity; [first [exact He|exact Hx]|vm_compute; reflexivity]).
Defined.

Lemma generate_signals_flat_in_band_witness :
  zget (position quiet_signals) 2 = 0%Z /\
  zget (entry_signal quiet_signals) 2 = 0%Z /\
  zget (exit_signal quiet_signals) 2 = 0%Z.
Proof.
  apply (generate_signals_flat_in_band
           unit_mean unit_std (fun _ => unit_mean) (fun _ => unit_std)
           default_generator quiet_spread 1%float 3); [|lia|cbn; lia].
  intros [|[|[|i]]] Hi; [right; vm_compute; done..|lia].
Defined.

Lemma generate_signals_causal_witness :
  zget (position sample_signals) 1
  = zget (position
            (generate_signals unit_mean unit_std (fun _ => unit_mean)
               (fun _ => unit_std) default_generator
               [nan; -2.5; 7]%float 2%float)) 1.
Proof.
  apply (generate_signals_causal
           unit_mean unit_std (fun _ => unit_mean) (fun _ => unit_std)
           default_generator sample_spread [nan; -2.5; 7]%float
           1%float 2%float 1); [cbn; lia|cbn; lia|].
  intros [|[|j]] Hj; [reflexivity|reflexivity|lia].
Defined.

Lemma get_position_sizes_rows_witness :
  exists r,
    get_position_sizes sample_signals "A" "B" sample_prices 100000%float
    = Some r /\
    fget (symbol1_shares r) 0 = 0%float /\
    fget (symbol1_shares r) 1 = (- (100000 / 2) / 101)%float /\
    fget (symbol2_shares r) 1 = (100000 / 2 / 103)%float.
Proof.
  destruct (get_position_sizes sample_signals "A" "B" sample_prices
              100000%float) as [r|] eqn:E; [|by vm_compute in E].
  exists r. split; [done|].
  destruct (get_position_sizes_rows sample_signals "A" "B" sample_prices
              100000%float r 0 E) as (_ & _ & _ & H0 & _);
    [rewrite sample_positions; cbn; lia|].
  destruct (get_position_sizes_rows sample_signals "A" "B" sample_prices
              100000%float r 1 E) as (_ & _ & _ & _ & H1 & _);
    [rewrite sample_positions; cbn; lia|].
  split; [apply H0; by rewrite sample_positions|].
  destruct H1 as (price1 & price2 & E1 & E2 & -> & ->);
    [by rewrite sample_positions|].
  vm_compute in E1, E2. injection E1 as <-. injection E2 as <-. done.
Defined.

Lemma run_backtest_zero_rates_witness :
  exists b,
    run_backtest free_backtester sample_signals "A" "B" sample_prices
    = Some b /\
    total_costs b = 0%float.
Proof.
  destruct (run_backtest free_backtester sample_signals "A" "B"
              sample_prices) as [b|] eqn:E; [|by vm_compute in E].
  exists b. split; [done|].
  by apply (run_backtest_zero_rates free_backtester sample_signals "A" "B"
              sample_prices b sample_positions_valid).
Defined.

Lemma calculate_returns_holding_free_witness :
  exists res,
    calculate_returns default_backtester sample_signals "A" "B"
                      sample_prices = Some res /\
    fget (transaction_costs res) 2 = 0%float /\
    fget (net_return res) 2 = fget (strategy_return res) 2.
Proof.
  eexists. split; [reflexivity|].
  destruct (calculate_returns_holding_free default_backtester sample_signals
              "A" "B" sample_prices _ 1 eq_refl sample_positions_valid)
    as (_ & Htc & _ & Hnet);
    [rewrite sample_positions; cbn; lia | by rewrite sample_positions
    | reflexivity | by right | reflexivity | by right |].
  by split.
Defined.

Lemma calculate_returns_flat_witness :
  exists b,
    run_backtest default_backtester quiet_signals "A" "B" sample_prices
    = Some b /\
    final_value b = 100000%float /\
    total_costs b = 0%float.
Proof.
  destruct (calculate_returns_flat default_backtester quiet_signals "A" "B"
              sample_prices _ eq_refl quiet_flat eq_refl eq_refl)
    as [_ Hrun].
  destruct Hrun as (b & Hb & _ & _ & Hf & Hc);
    [rewrite quiet_positions; cbn; lia|].
  exists b. by split.
Defined.

Lemma generated_signals_turnover_witness :
  exists res,
    calculate_returns default_backtester sample_signals "A" "B"
                      sample_prices = Some res /\
    fget (position_change res) 1 = 1%float /\
    fget (transaction_costs res) 1 = 0.001%float.
Proof.
  eexists. split; [reflexivity|].
  destruct (generated_signals_turnover
              unit_mean unit_std (fun _ => unit_mean) (fun _ => unit_std)
              default_generator sample_spread 1%float default_backtester
              "A" "B" sample_prices _ 0 eq_refl) as [_ Hc]; [cbn; lia|].
  assert (H1 : fget (position_change
                       (returns_of_columns default_backtester sample_signals
                          [100; 101; 99; 100]%float
                          [100; 103; 97; 100]%float)) 1 = 1%float)
    by (vm_compute; reflexivity).
  split; [exact H1|]. destruct (Hc H1) as [Htc _]. exact Htc.
Defined.

Lemma calculate_calmar_ratio_no_drawdown_witness :
  calculate_calmar_ratio TimestampIndex mixed_returns rising_portfolio 252
  = Some infinity.
Proof.
  destruct (calculate_calmar_ratio_no_drawdown mixed_returns
              rising_portfolio 252) as [_ ->].
  - exists 0. split; [cbn; lia|reflexivity].
  - intros [|[|[|t]]] Ht Hv; try (cbn in Ht; lia);
      (split; [reflexivity|]); (split; [reflexivity|]);
      intros [|[|[|s]]] Hs Hvs; try lia; reflexivity.
  - vm_compute. reflexivity.
Defined.

Lemma analyze_performance_defined_witness :
  exists res,
    calculate_returns default_backtester sample_signals "A" "B"
                      sample_prices = Some res /\
    is_Some (analyze_performance TimestampIndex res 252) /\
    ~ is_Some (analyze_performance TimestampIndex res 0).
Proof.
  eexists. split; [reflexivity|].
  pose proof (analyze_performance_defined TimestampIndex default_backtester
                sample_signals "A" "B" sample_prices _ 252 eq_refl) as H252.
  pose proof (analyze_performance_defined TimestampIndex default_backtester
                sample_signals "A" "B" sample_prices _ 0 eq_refl) as H0.
  split.
  - apply H252. split; [rewrite sample_positions; cbn; lia|].
    split; [done|]. split; [by vm_compute|]. eexists. vm_compute. reflexivity.
  - intros Hs. by destruct (proj1 H0 Hs) as (_ & Hne & _).
Defined.

Lemma analyze_performance_single_row_witness :
  exists res,
    calculate_returns default_backtester single_signals "A" "B"
                      sample_prices = Some res /\
    analyze_performance TimestampIndex res 252 = None.
Proof.
  eexists. split; [reflexivity|].
  apply (analyze_performance_single_row TimestampIndex default_backtester
           single_signals "A" "B" sample_prices _ 252 eq_refl).
  vm_compute. lia.
Defined.

Lemma analyze_performance_flat_witness :
  exists res m,
    calculate_returns default_backtester quiet_signals "A" "B"
                      sample_prices = Some res /\
    analyze_performance TimestampIndex res 252 = Some m /\
    Metrics.total_return m = 0%float /\
    Metrics.calmar_ratio m = 0%float /\
    Metrics.trading_days m = 0.
Proof.
  destruct (analyze_performance_flat default_backtester quiet_signals
              "A" "B" sample_prices _ 252 eq_refl quiet_flat)
    as (m & Hm & Ht & _ & Hc & _ & _ & Hd);
    [rewrite quiet_positions; cbn; lia | reflexivity | reflexivity
    | reflexivity | reflexivity | done | by vm_compute |].
  eexists _, m. by split.
Defined.

Lemma select_best_pair_small_universe_witness :
  (select_best_pair sample_corr sample_coint sample_slope sample_theta
     strict_selector [("A", [1; 1; 1]%float)] 0.7%float true).1
  = inl (ValueError no_pairs_message).
Proof.
  apply (select_best_pair_small_universe sample_corr sample_coint
           sample_slope sample_theta). cbn. lia.
Defined.

Lemma select_best_pair_columns_witness :
  exists best,
    (select_best_pair sample_corr sample_coint sample_slope sample_theta
       strict_selector sample_universe 0.7%float true).1 = inr best /\
    symbol1 best <> symbol2 best /\
    is_Some (calculate_returns default_backtester sample_signals
               (symbol1 best) (symbol2 best) sample_universe).
Proof.
  destruct (select_best_pair sample_corr sample_coint sample_slope
              sample_theta strict_selector sample_universe 0.7%float true).1
    as [e|best] eqn:E; [by vm_compute in E|].
  exists best. split; [done|].
  destruct (select_best_pair_columns sample_corr sample_coint sample_slope
              sample_theta strict_selector sample_universe 0.7%float true
              best E) as (_ & Hne & Hret).
  split; [|apply Hret].
  apply Hne. apply (bool_decide_unpack (NoDup (map fst sample_universe))).
  by vm_compute.
Defined.

Lemma calculate_half_life_not_negative_witness :
  exists h,
    calculate_half_life sample_theta [1; 2; 4; 3]%float = Some h /\
    (h <? 0)%float = false.
Proof.
  eexists. split; [vm_compute; reflexivity|].
  by destruct (calculate_half_life_not_negative sample_theta
                 [1; 2; 4; 3]%float _ eq_refl).
Defined.

Lemma sample_rectangular : rectangular sample_universe 3.
Proof.
  intros c col H. unfold sample_universe in H.
  repeat (apply elem_of_cons in H as [[= -> ->]|H]; [reflexivity|]).
  by apply elem_of_nil in H.
Qed.

Lemma main_backtest_runs_witness :
  exists best,
    (select_best_pair sample_corr sample_coint sample_slope sample_theta
       selector sample_universe 0.7%float true).1 = inr best /\
    length (position
              (generate_signals unit_mean unit_std (fun _ => unit_mean)
                 (fun _ => unit_std) signal_gen (pair_spread best)
                 (hedge_ratio best))) = 3.
Proof.
  destruct (select_best_pair sample_corr sample_coint sample_slope
              sample_theta selector sample_universe 0.7%float true).1
    as [e|best] eqn:E; [by vm_compute in E|].
  exists best. split; [done|].
  by destruct (main_backtest_runs sample_corr sample_coint sample_slope
                 sample_theta unit_mean unit_std (fun _ => unit_mean)
                 (fun _ => unit_std) sample_universe 3 best
                 sample_rectangular ltac:(lia) E) as [Hlen _].
Defined.

Lemma calculate_zscore_undefined_witness :
  fget (calculate_zscore unit_mean (fun l => map (fun _ => 0%float) l)
          (fun _ => unit_mean) (fun _ => unit_std)
          [0.5; -1]%float None) 1 = neg_infinity.
Proof.
  destruct (calculate_zscore_undefined
              unit_mean (fun l => map (fun _ => 0%float) l)
              (fun _ => unit_mean) (fun _ => unit_std)
              [0.5; -1]%float None 1) as (_ & _ & _ & Hzero); [cbn; lia|].
  destruct Hzero as (_ & Hneg & _); [reflexivity|].
  apply Hneg. reflexivity.
Defined.

(** ** backtester.py: the first row and the rows after it (C10) *)

Lemma mul_zero_finite x : is_finite x = true -> is_finite (0 * x) = true.
Proof.
  rewrite !is_finite_sf, mul_spec, Prim2SF_zero.
  by destruct (Prim2SF x) as [[|]|[|]| |[|] m e].
Qed.

Lemma double_finite x : is_finite (2 * x) = true -> is_finite x = true.
Proof.
  rewrite !is_finite_sf, mul_spec.
  change (Prim2SF 2) with (S754_finite false 4503599627370496 (-51)).
  by destruct (Prim2SF x) as [[|]|[|]| |[|] m e].
Qed.

(** The charge on a turnover of 0, 1 or 2 is finite when twice the rate
    is. *)
Lemma charge_finite a b x :
  is_state a -> is_state b -> is_finite (2 * x) = true ->
  is_finite (PrimFloat.abs (float_of_Z a - float_of_Z b) * x) = true.
Proof.
  intros Ha Hb H2. pose proof (double_finite x H2) as H1.
  unfold is_state, Flat, Long, Short in *.
  destruct Ha as [-> | [-> | ->]], Hb as [-> | [-> | ->]];
    match goal with
    | |- context [PrimFloat.abs ?d] =>
        let c := eval vm_compute in (PrimFloat.abs d) in
        change (PrimFloat.abs d) with c
    end;
    first [by apply mul_zero_finite | by rewrite mul_one_l | done].
Qed.

Lemma sub_one_nan x : is_nan (x - 1) = is_nan x.
Proof.
  destruct (is_nan x) eqn:E.
  - apply is_nan_spec in E as ->. by rewrite sub_nan_l.
  - by apply sub_not_nan.
Qed.

Section RowsDefined.

Variables (bt : Backtester) (sg : Signals) (p1 p2 : list float).

Abbreviation res' := (returns_of_columns bt sg p1 p2).
Abbreviation n' := (length (position sg)).

Lemma strategy_return_defined t :
  1 <= t < n' -> finite_returns (position sg) p1 p2 t ->
  is_nan (fget (strategy_return res') t) = false.
Proof.
  intros Ht Hf. rewrite row_strategy_return by done.
  unfold strategy_value.
  destruct Hf as [-> | (H1 & H2 & F1 & F2)]; [done|].
  destruct (row_symbol_returns bt sg p1 p2 t) as [-> ->]; try done.
  repeat case_match; try done;
    apply sub_not_nan; try done; by apply is_finite_not_nan.
Qed.

Lemma net_return_defined t :
  1 <= t < n' -> valid_positions (position sg) ->
  finite_returns (position sg) p1 p2 t ->
  is_finite (2 * transaction_cost bt) = true ->
  is_finite (2 * slippage_rate bt) = true ->
  is_nan (fget (net_return res') t) = false.
Proof.
  intros Ht Hv Hf Htc Hsl. destruct t as [|j]; [lia|].
  rewrite row_net_return, row_transaction_costs, row_slippage,
    row_position_change by lia.
  apply sub_not_nan; [apply sub_not_nan|].
  - by apply strategy_return_defined.
  - apply charge_finite; [apply Hv; lia | apply Hv; lia | done].
  - apply charge_finite; [apply Hv; lia | apply Hv; lia | done].
Qed.

End RowsDefined.

(** C10, amended.  In the frame returned for at least one timestamp,
    transaction_costs, slippage, net_return, cumulative_return and
    portfolio_value are NaN at the first timestamp, for every input,
    and strategy_return is 0 there.  At a timestamp t >= 1 and for
    positions in {-1, 0, +1}: position_change is a number; the two
    costs are numbers for finite rates; strategy_return is a number
    when position[t-1] = 0 or the simple returns of both symbols at t
    are finite; net_return is a number when moreover twice each rate is
    finite; when this holds at every row 1..t, cumulative_return[t] is
    NaN exactly when the compounded product of (1 + net_return[k])
    over these rows is, and portfolio_value[t] is a number whenever
    cumulative_return[t] is one and the initial capital is finite and
    not 0. *)
Theorem calculate_returns_first_row bt sg s1 s2 prices p1 p2 :
  column prices s1 = Some p1 -> column prices s2 = Some p2 ->
  0 < length (position sg) ->
  exists res,
    calculate_returns bt sg s1 s2 prices = Some res /\
    fget (transaction_costs res) 0 = nan /\
    fget (slippage res) 0 = nan /\
    fget (net_return res) 0 = nan /\
    fget (cumulative_return res) 0 = nan /\
    fget (portfolio_value res) 0 = nan /\
    fget (strategy_return res) 0 = 0%float /\
    forall t, 1 <= t < length (position sg) ->
      valid_positions (position sg) ->
      is_nan (fget (position_change res) t) = false /\
      (is_finite (transaction_cost bt) = true ->
       is_nan (fget (transaction_costs res) t) = false) /\
      (is_finite (slippage_rate bt) = true ->
       is_nan (fget (slippage res) t) = false) /\
      (finite_returns (position sg) p1 p2 t ->
       is_nan (fget (strategy_return res) t) = false) /\
      (finite_returns (position sg) p1 p2 t ->
       is_finite (2 * transaction_cost bt) = true ->
       is_finite (2 * slippage_rate bt) = true ->
       is_nan (fget (net_return res) t) = false) /\
      ((forall k, 1 <= k <= t -> finite_returns (position sg) p1 p2 k) ->
       is_finite (2 * transaction_cost bt) = true ->
       is_finite (2 * slippage_rate bt) = true ->
       is_nan (fget (cumulative_return res) t)
       = is_nan (compounded (net_return res) t) /\
       (is_nan (fget (cumulative_return res) t) = false ->
        is_finite (initial_capital bt) = true ->
        (initial_capital bt =? 0)%float = false ->
        is_nan (fget (portfolio_value res) t) = false)).
Proof.
  intros H1 H2 Hn. eexists. split.
  { by apply calculate_returns_columns. }
  destruct (first_row bt sg p1 p2 Hn) as (Ha & Hb & Hc & Hd & He & Hf).
  do 6 (split; [done|]).
  intros t Ht Hv. destruct t as [|j]; [lia|].
  destruct (turnover_values (zget (position sg) (S j))
              (zget (position sg) j)) as (_ & Hfin & _);
    [apply Hv; lia | apply Hv; lia |].
  cbn zeta in Hfin.
  rewrite <- (row_position_change bt sg p1 p2) in Hfin by lia.
  split; [by apply is_finite_not_nan|].
  split; [intros Hr; rewrite row_transaction_costs by lia;
          by apply mul_not_nan|].
  split; [intros Hr; rewrite row_slippage by lia; by apply mul_not_nan|].
  split; [intros Hr; by apply strategy_return_defined|].
  split; [intros Hr Htc Hsl; by apply net_return_defined|].
  intros Hrows Htc Hsl. split.
  - rewrite row_compounded; [apply sub_one_nan|lia|].
    intros k Hk. apply net_return_defined; try done; [lia|by apply Hrows].
  - intros Hcum Hic Hnz. rewrite row_portfolio_value by lia.
    apply mul_nonzero_not_nan; try done. by rewrite is_nan_one_plus.
Qed.

(** A price of 0 on two days in a row leaves 0 / 0 as the return of the
    second day: with a position held over that day, strategy_return,
    net_return, cumulative_return and portfolio_value are NaN at t = 2,
    a timestamp after the first. *)
Lemma calculate_returns_first_row_counterexample :
  exists res,
    calculate_returns default_backtester sample_signals "A" "B"
                      halted_prices = Some res /\
    2 < length (position sample_signals) /\
    is_nan (fget (strategy_return res) 2) = true /\
    is_nan (fget (net_return res) 2) = true /\
    is_nan (fget (cumulative_return res) 2) = true /\
    is_nan (fget (portfolio_value res) 2) = true.
Proof.
  eexists. split; [vm_compute; reflexivity|].
  split; [rewrite sample_positions; cbn; lia|].
  repeat split; vm_compute; reflexivity.
Qed.

(** The sample run on prices that are numbers: NaN costs and net
    return on the first row, numbers on the rows after it. *)
Lemma calculate_returns_first_row_witness :
  exists res,
    calculate_returns default_backtester sample_signals "A" "B"
                      sample_prices = Some res /\
    fget (net_return res) 0 = nan /\
    fget (strategy_return res) 0 = 0%float /\
    is_nan (fget (transaction_costs res) 1) = false /\
    is_nan (fget (net_return res) 1) = false /\
    is_nan (fget (cumulative_return res) 2) = false /\
    is_nan (fget (portfolio_value res) 2) = false.
Proof.
  destruct (calculate_returns_first_row
              default_backtester sample_signals "A" "B" sample_prices
              [100; 101; 99; 100]%float [100; 103; 97; 100]%float)
    as (res & Hres & _ & _ & Hnet & _ & _ & Hsr & Hrow);
    try reflexivity; try (rewrite ?sample_positions; cbn; lia).
  exists res. split; [done|]. split; [done|]. split; [done|].
  assert (Hfin : forall k, 1 <= k <= 2 ->
            finite_returns (position sample_signals)
              [100; 101; 99; 100]%float [100; 103; 97; 100]%float k).
  { intros k Hk. right.
    assert (k = 1 \/ k = 2) as [-> | ->] by lia;
      (split; [cbn; lia|]); (split; [cbn; lia|]);
      split; vm_compute; reflexivity. }
  destruct (Hrow 1) as (_ & Htc & _ & _ & Hret & _);
    [rewrite sample_positions; cbn; lia | apply sample_positions_valid |].
  destruct (Hrow 2) as (_ & _ & _ & _ & _ & Hcum);
    [rewrite sample_positions; cbn; lia | apply sample_positions_valid |].
  destruct Hcum as [Hc Hp]; [done|reflexivity|reflexivity|].
  assert (Hval : Some res = Some (returns_of_columns default_backtester
                   sample_signals [100; 101; 99; 100]%float
                   [100; 103; 97; 100]%float)) by (by rewrite <- Hres).
  injection Hval as ->.
  split; [apply Htc; reflexivity|].
  split; [apply Hret; [apply Hfin; lia|reflexivity|reflexivity]|].
  assert (Hc2 : is_nan (fget (cumulative_return
                   (returns_of_columns default_backtester sample_signals
                      [100; 101; 99; 100]%float [100; 103; 97; 100]%float))
                   2) = false)
    by (rewrite Hc; vm_compute; reflexivity).
  split; [exact Hc2|]. apply Hp; [exact Hc2|reflexivity|reflexivity].
Defined.

(** * The stages on the store (C9) *)

(** ** Programs on the store *)

Lemma bind_eq {A B} (m : Run A) (k : A -> Run B) s a s' :
  m s = Some (a, s') -> bind m k s = k a s'.
Proof. unfold bind. by intros ->. Qed.

Lemma bind_raise {A B} (m : Run A) (k : A -> Run B) s :
  m s = None -> bind m k s = None.
Proof. unfold bind. by intros ->. Qed.

(** A step that follows a fold which may raise. *)
Lemma bind_raise_or {A B T} (m : Run A) (k : A -> Run B) s (o : option T)
  (abs : T -> A) (sto : T -> Store) :
  m s = match o with Some t => Some (abs t, sto t) | None => None end ->
  bind m k s = match o with Some t => k (abs t) (sto t) | None => None end.
Proof. unfold bind. intros ->. by destruct o. Qed.

Lemma lookup_fresh (s : Store) o : (s ++ [o]) !! length s = Some o.
Proof. by rewrite list_lookup_middle. Qed.

Lemma insert_fresh (s : Store) o o' : <[length s:=o']> (s ++ [o]) = s ++ [o'].
Proof.
  rewrite insert_app_r_alt by lia. by rewrite Nat.sub_diag.
Qed.

Lemma lookup_old (s : Store) o r x : s !! r = Some x -> (s ++ [o]) !! r = Some x.
Proof. intros H. by apply lookup_app_l_Some. Qed.

Lemma load_at s r o : s !! r = Some o -> load r s = Some (o, s).
Proof. unfold load. by intros ->. Qed.

Lemma update_fresh s o o' :
  update (length s) o' (s ++ [o]) = Some (tt, s ++ [o']).
Proof. unfold update. by rewrite lookup_fresh, insert_fresh. Qed.

Lemma update_old (s l : Store) r x o :
  s !! r = Some x -> update r o (s ++ l) = Some (tt, <[r:=o]> s ++ l).
Proof.
  intros H. unfold update. rewrite (lookup_app_l_Some _ _ _ _ H).
  rewrite insert_app_l; [done|]. by eapply lookup_lt_Some.
Qed.

Lemma series_of_at s r l : s !! r = Some (Series l) -> series_of r s = Some (l, s).
Proof. intros H. unfold series_of. by rewrite (bind_eq _ _ _ _ _ (load_at _ _ _ H)). Qed.

Lemma prices_of_at s r p : s !! r = Some (Prices p) -> prices_of r s = Some (p, s).
Proof. intros H. unfold prices_of. by rewrite (bind_eq _ _ _ _ _ (load_at _ _ _ H)). Qed.

Lemma frame_of_at s r n f :
  s !! r = Some (DataFrame n f) -> frame_of r s = Some ((n, f), s).
Proof. intros H. unfold frame_of. by rewrite (bind_eq _ _ _ _ _ (load_at _ _ _ H)). Qed.

Lemma items_of_at s r l :
  s !! r = Some (PairList l) -> items_of r s = Some (l, s).
Proof. intros H. unfold items_of. by rewrite (bind_eq _ _ _ _ _ (load_at _ _ _ H)). Qed.

Lemma floats_of_at s r n f c l :
  s !! r = Some (DataFrame n f) -> get_column f c = Some (FloatColumn l) ->
  floats_of r c s = Some (l, s).
Proof.
  intros H Hc. unfold floats_of.
  rewrite (bind_eq _ _ _ _ _ (frame_of_at _ _ _ _ H)). by rewrite Hc.
Qed.

Lemma ints_of_at s r n f c l :
  s !! r = Some (DataFrame n f) -> get_column f c = Some (IntColumn l) ->
  ints_of r c s = Some (l, s).
Proof.
  intros H Hc. unfold ints_of.
  rewrite (bind_eq _ _ _ _ _ (frame_of_at _ _ _ _ H)). by rewrite Hc.
Qed.

Lemma assign_fresh s n f c v :
  assign (length s) c v (s ++ [DataFrame n f])
  = Some (tt, s ++ [DataFrame n (set_column f c v)]).
Proof.
  unfold assign.
  rewrite (bind_eq _ _ _ _ _ (frame_of_at _ _ _ _ (lookup_fresh _ _))).
  apply update_fresh.
Qed.

Lemma write_int_fresh s n f c l i x :
  get_column f c = Some (IntColumn l) ->
  write_int (length s) c i x (s ++ [DataFrame n f])
  = Some (tt, s ++ [DataFrame n (set_column f c (IntColumn (<[i:=x]> l)))]).
Proof.
  intros Hc. unfold write_int.
  rewrite (bind_eq _ _ _ _ _ (ints_of_at _ _ _ _ _ _ (lookup_fresh _ _) Hc)).
  apply assign_fresh.
Qed.

Lemma write_float_fresh s n f c l i x :
  get_column f c = Some (FloatColumn l) ->
  write_float (length s) c i x (s ++ [DataFrame n f])
  = Some (tt, s ++ [DataFrame n (set_column f c (FloatColumn (<[i:=x]> l)))]).
Proof.
  intros Hc. unfold write_float.
  rewrite (bind_eq _ _ _ _ _ (floats_of_at _ _ _ _ _ _ (lookup_fresh _ _) Hc)).
  apply assign_fresh.
Qed.

Lemma copy_at s r n f :
  s !! r = Some (DataFrame n f) ->
  copy r s = Some (length s, s ++ [DataFrame n f]).
Proof.
  intros H. unfold copy.
  by rewrite (bind_eq _ _ _ _ _ (frame_of_at _ _ _ _ H)).
Qed.

Lemma append_fresh s l x :
  append (length s) x (s ++ [PairList l]) = Some (tt, s ++ [PairList (l ++ [x])]).
Proof.
  unfold append.
  rewrite (bind_eq _ _ _ _ _ (items_of_at _ _ _ (lookup_fresh _ _))).
  apply update_fresh.
Qed.

(** A loop on the store follows a fold on a state [T] that tells the
    state of the loop and the store. *)
Lemma for_each_sim {A S T} (Inv : T -> Prop) (l : list A)
  (body : S -> A -> Run S) (step : T -> A -> option T)
  (abs : T -> S) (sto : T -> Store) :
  (forall t a, Inv t -> a ∈ l ->
     body (abs t) a (sto t)
     = match step t a with
       | Some t' => Some (abs t', sto t')
       | None => None
       end) ->
  (forall t a t', Inv t -> a ∈ l -> step t a = Some t' -> Inv t') ->
  forall t, Inv t ->
    for_each l body (abs t) (sto t)
    = match fold_some step l t with
      | Some t' => Some (abs t', sto t')
      | None => None
      end.
Proof.
  unfold fold_some. induction l as [|a l IH]; intros Hb Hi t Ht; [done|].
  cbn [for_each fold_left]. unfold bind at 1.
  rewrite (Hb t a Ht) by left. cbn [mbind option_bind].
  destruct (step t a) as [t'|] eqn:E.
  - apply IH.
    + intros u b Hu Hin. apply Hb; [done|by right].
    + intros u b u' Hu Hin. apply Hi; [done|by right].
    + apply (Hi t a); [done|left|done].
  - clear. by induction l.
Qed.

Lemma fold_some_total {A T} (step : T -> A -> T) (l : list A) (t : T) :
  fold_some (fun t a => Some (step t a)) l t = Some (fold_left step l t).
Proof.
  unfold fold_some. revert t. induction l as [|a l IH]; intros t; [done|].
  cbn. apply IH.
Qed.

Lemma for_each_total {A S T} (l : list A) (body : S -> A -> Run S)
  (step : T -> A -> T) (abs : T -> S) (sto : T -> Store) :
  (forall t a, a ∈ l ->
     body (abs t) a (sto t) = Some (abs (step t a), sto (step t a))) ->
  forall t,
    for_each l body (abs t) (sto t)
    = Some (abs (fold_left step l t), sto (fold_left step l t)).
Proof.
  intros Hb t.
  rewrite (for_each_sim (fun _ => True) l body
             (fun t a => Some (step t a)) abs sto); try done.
  - by rewrite fold_some_total.
  - intros u a _ Hin. by apply Hb.
Qed.

(** ** Frames *)

Lemma get_set_eq f c v : get_column (set_column f c v) c = Some v.
Proof.
  induction f as [|[c' v'] f IH]; cbn.
  - by rewrite String.eqb_refl.
  - destruct (String.eqb c' c) eqn:E; cbn; by rewrite E.
Qed.

Lemma get_set_ne f c c' v :
  c <> c' -> get_column (set_column f c v) c' = get_column f c'.
Proof.
  intros Hne. induction f as [|[d w] f IH]; cbn.
  - by rewrite (proj2 (String.eqb_neq _ _) Hne).
  - destruct (String.eqb d c) eqn:E; cbn.
    + apply String.eqb_eq in E as ->.
      by rewrite (proj2 (String.eqb_neq _ _) Hne).
    + by rewrite IH.
Qed.

Lemma set_set f c v w : set_column (set_column f c v) c w = set_column f c w.
Proof.
  induction f as [|[d x] f IH]; cbn.
  - by rewrite String.eqb_refl.
  - destruct (String.eqb d c) eqn:E; cbn; rewrite E; [done|by rewrite IH].
Qed.

(** Replacing a column that is there commutes with setting another. *)
Lemma set_swap f c d v w x :
  c <> d -> get_column f c = Some x ->
  set_column (set_column f d w) c v = set_column (set_column f c v) d w.
Proof.
  intros Hne. induction f as [|[e y] f IH]; [done|]. cbn.
  destruct (String.eqb e d) eqn:Ed; destruct (String.eqb e c) eqn:Ec; cbn;
    rewrite ?Ed, ?Ec; try done.
  - apply String.eqb_eq in Ed, Ec. congruence.
  - intros H. by rewrite IH.
Qed.

(** ** Labels *)

Lemma length_append s u :
  String.length (s +:+ u) = String.length s + String.length u.
Proof.
  induction s as [|a s IH]; [done|].
  change (S (String.length (s +:+ u))
          = S (String.length s + String.length u)).
  by rewrite IH.
Qed.

Lemma substring_all u : String.substring 0 (String.length u) u = u.
Proof.
  induction u as [|a u IH]; [done|].
  change (String a (String.substring 0 (String.length u) u) = String a u).
  by rewrite IH.
Qed.

Lemma substring_append s u :
  String.substring (String.length s) (String.length u) (s +:+ u) = u.
Proof. induction s as [|a s IH]; [apply substring_all|exact IH]. Qed.

Lemma append_ends_with s u : ends_with u (s +:+ u) = true.
Proof.
  unfold ends_with. rewrite length_append.
  replace (String.length s + String.length u - String.length u)
    with (String.length s) by lia.
  rewrite substring_append. apply String.eqb_refl.
Qed.

(** A label built from a symbol is none of the fixed labels. *)
Lemma label_ne s u t : ends_with u t = false -> s +:+ u <> t.
Proof. intros H <-. by rewrite append_ends_with in H. Qed.

Lemma label_ne_sym s u t : ends_with u t = false -> t <> s +:+ u.
Proof. intros H E. by apply (label_ne s u t H). Qed.

Lemma append_inj_l s s' u : s +:+ u = s' +:+ u -> s = s'.
Proof.
  revert s'. induction s as [|a s IH]; intros [|a' s'] H.
  - done.
  - apply (f_equal String.length) in H. rewrite !length_append in H.
    change (String.length (String a' s')) with (S (String.length s')) in H.
    change (String.length "") with 0 in H. lia.
  - apply (f_equal String.length) in H. rewrite !length_append in H.
    change (String.length (String a s)) with (S (String.length s)) in H.
    change (String.length "") with 0 in H. lia.
  - change (String a (s +:+ u) = String a' (s' +:+ u)) in H.
    injection H as -> H. f_equal. by apply IH.
Qed.

(** ** [generate_signals] on the store *)

Section SignalsOnStore.

Variables expanding_mean expanding_std : list float -> list float.
Variables rolling_mean rolling_std : nat -> list float -> list float.

Lemma generate_signals_row_sim g s n st i :
  Stateful.generate_signals_row g (length s)
    (current_position st, entry_zscore st) i
    (s ++ [DataFrame n (signals_frame (signals st))])
  = Some ((current_position (loop_body g st i),
           entry_zscore (loop_body g st i)),
          s ++ [DataFrame n (signals_frame (signals (loop_body g st i)))]).
Proof.
  unfold Stateful.generate_signals_row, loop_body.
  erewrite bind_eq;
    [|eapply floats_of_at; [apply lookup_fresh|reflexivity]].
  cbn zeta. destruct st as [cur ez sgs]. cbn [current_position entry_zscore signals].
  repeat match goal with
  | |- context [if ?b then _ else _] => destruct b
  end;
  repeat (erewrite bind_eq; [|apply write_int_fresh; reflexivity]);
  reflexivity.
Qed.

Lemma generate_signals_run g spread hr s sp :
  s !! spread = Some (Series sp) ->
  Stateful.generate_signals expanding_mean expanding_std rolling_mean
    rolling_std g spread hr s
  = Some (length s,
          s ++ [DataFrame (length sp)
                  (signals_frame
                     (generate_signals expanding_mean expanding_std
                        rolling_mean rolling_std g sp hr))]).
Proof.
  intros Hs. unfold Stateful.generate_signals.
  rewrite (bind_eq _ _ _ _ _ (series_of_at _ _ _ Hs)). cbn zeta.
  erewrite bind_eq; [|reflexivity].
  do 5 (erewrite bind_eq; [|apply assign_fresh]).
  erewrite bind_eq.
  2:{ apply (for_each_total (seq 0 (length sp))
               (Stateful.generate_signals_row g (length s))
               (loop_body g)
               (fun st => (current_position st, entry_zscore st))
               (fun st => s ++ [DataFrame (length sp)
                                  (signals_frame (signals st))])
               ltac:(intros; apply generate_signals_row_sim)
               (initial_state expanding_mean expanding_std rolling_mean
                  rolling_std g sp)). }
  reflexivity.
Qed.

End SignalsOnStore.

Ltac label_solve :=
  unfold returns_label, shares_label;
  first [ discriminate
        | apply label_ne; reflexivity
        | apply label_ne_sym; reflexivity ].

Ltac frame_read :=
  repeat first [ rewrite get_set_eq
               | rewrite get_set_ne by label_solve ];
  try reflexivity.

Lemma shares_label_inj s s' : shares_label s = shares_label s' -> s = s'.
Proof. apply append_inj_l. Qed.

Lemma returns_label_inj s s' : returns_label s = returns_label s' -> s = s'.
Proof. apply append_inj_l. Qed.

(** ** [get_position_sizes] on the store *)

Section SizesOnStore.

Variables (sg : Signals) (symbol1 symbol2 : string).
Variables (p : PriceTable) (capital : float).
Variables (s : Store) (prices : ref).
Hypothesis Hprices : s !! prices = Some (Prices p).

Abbreviation frame_rows := (length (position sg)).
Abbreviation same_symbol := (String.eqb symbol1 symbol2).
Abbreviation sized :=
  (fun c => s ++ [DataFrame frame_rows (sizes_frame sg symbol1 symbol2 c)]).

Lemma sizes_frame_position c :
  get_column (sizes_frame sg symbol1 symbol2 c) "position"
  = Some (IntColumn (position sg)).
Proof. unfold sizes_frame. frame_read. Qed.

Lemma sizes_frame_read2 c :
  get_column (sizes_frame sg symbol1 symbol2 c) (shares_label symbol2)
  = Some (FloatColumn c.2).
Proof. unfold sizes_frame. apply get_set_eq. Qed.

Lemma sizes_frame_write2 c i v :
  set_column (sizes_frame sg symbol1 symbol2 c) (shares_label symbol2)
             (FloatColumn (<[i:=v]> c.2))
  = sizes_frame sg symbol1 symbol2 (set_shares2 same_symbol i v c).
Proof.
  unfold sizes_frame, set_shares2. cbn [fst snd]. rewrite set_set.
  destruct (String.eqb symbol1 symbol2) eqn:E; [|done].
  apply String.eqb_eq in E as ->. by rewrite !set_set.
Qed.

Lemma sizes_frame_read1 c :
  get_column (sizes_frame sg symbol1 symbol2 c) (shares_label symbol1)
  = Some (FloatColumn (if same_symbol then c.2 else c.1)).
Proof.
  unfold sizes_frame. destruct (String.eqb symbol1 symbol2) eqn:E.
  - apply String.eqb_eq in E as ->. apply get_set_eq.
  - apply String.eqb_neq in E. rewrite get_set_ne, get_set_eq; [done|].
    intros H. by apply E, shares_label_inj.
Qed.

Lemma sizes_frame_write1 c i v :
  (same_symbol = true -> c.1 = c.2) ->
  set_column (sizes_frame sg symbol1 symbol2 c) (shares_label symbol1)
             (FloatColumn (<[i:=v]> (if same_symbol then c.2 else c.1)))
  = sizes_frame sg symbol1 symbol2 (set_shares1 same_symbol i v c).
Proof.
  intros Hc. unfold sizes_frame, set_shares1. cbn [fst snd].
  destruct (String.eqb symbol1 symbol2) eqn:E.
  - apply String.eqb_eq in E as ->. by rewrite !set_set.
  - apply String.eqb_neq in E.
    rewrite (set_swap _ _ _ _ _ (FloatColumn c.1)).
    + by rewrite set_set.
    + intros H. by apply E, shares_label_inj.
    + apply get_set_eq.
Qed.

Lemma set_shares_same i v c :
  (same_symbol = true -> c.1 = c.2) ->
  (same_symbol = true -> (set_shares2 same_symbol i v c).1 = (set_shares2 same_symbol i v c).2) /\
  (same_symbol = true -> (set_shares1 same_symbol i v c).1 = (set_shares1 same_symbol i v c).2).
Proof.
  intros Hc. unfold set_shares1, set_shares2. cbn [fst snd].
  split; intros E; rewrite E in *; by rewrite Hc.
Qed.

Lemma get_position_sizes_row_sim c i :
  (same_symbol = true -> c.1 = c.2) ->
  Stateful.get_position_sizes_row (length s) symbol1 symbol2 prices capital
    tt i (sized c)
  = match sizes_body (position sg) symbol1 symbol2 p capital (Some c) i with
    | Some c' => Some (tt, sized c')
    | None => None
    end.
Proof.
  intros Hc. unfold Stateful.get_position_sizes_row, sizes_body.
  cbn [mbind option_bind].
  erewrite bind_eq;
    [|eapply ints_of_at; [apply lookup_fresh|apply sizes_frame_position]].
  cbn zeta. destruct (zget (position sg) i =? 0)%Z; [done|].
  erewrite bind_eq; [|apply prices_of_at, lookup_old, Hprices].
  destruct (readable p symbol1 i && readable p symbol2 i); [|done].
  destruct (zget (position sg) i =? 1)%Z;
    [|destruct (zget (position sg) i =? -1)%Z; [|done]].
  - destruct (price_at p symbol2 i) as [price2|];
      [|cbn; by destruct (price_at p symbol1 i)].
    erewrite bind_eq; [|reflexivity].
    erewrite bind_eq;
      [|eapply write_float_fresh; apply sizes_frame_read2].
    rewrite sizes_frame_write2.
    destruct (price_at p symbol1 i) as [price1|]; [|done].
    erewrite bind_eq; [|reflexivity]. cbn [mbind option_bind].
    erewrite write_float_fresh by apply sizes_frame_read1.
    rewrite sizes_frame_write1; [done|].
    by apply set_shares_same.
  - destruct (price_at p symbol2 i) as [price2|];
      [|cbn; by destruct (price_at p symbol1 i)].
    erewrite bind_eq; [|reflexivity].
    erewrite bind_eq;
      [|eapply write_float_fresh; apply sizes_frame_read2].
    rewrite sizes_frame_write2.
    destruct (price_at p symbol1 i) as [price1|]; [|done].
    erewrite bind_eq; [|reflexivity]. cbn [mbind option_bind].
    erewrite write_float_fresh by apply sizes_frame_read1.
    rewrite sizes_frame_write1; [done|].
    by apply set_shares_same.
Qed.

Lemma sizes_body_same c i c' :
  (same_symbol = true -> c.1 = c.2) ->
  sizes_body (position sg) symbol1 symbol2 p capital (Some c) i = Some c' ->
  same_symbol = true -> c'.1 = c'.2.
Proof.
  intros Hc. unfold sizes_body. cbn [mbind option_bind].
  destruct (zget (position sg) i =? 0)%Z; [by intros [= <-]|].
  destruct (readable p symbol1 i && readable p symbol2 i); [|done].
  destruct (zget (position sg) i =? 1)%Z;
    [|destruct (zget (position sg) i =? -1)%Z; [|by intros [= <-]]];
    (destruct (price_at p symbol1 i); [|done]);
    (destruct (price_at p symbol2 i); [|done]);
    cbn [mbind option_bind]; intros [= <-];
    apply set_shares_same; by apply set_shares_same.
Qed.

Lemma sizes_fold l o :
  fold_left (sizes_body (position sg) symbol1 symbol2 p capital) l o
  = fold_left (fun o a => t ← o;
                 sizes_body (position sg) symbol1 symbol2 p capital (Some t) a)
              l o.
Proof.
  revert o. induction l as [|a l IH]; intros o; [done|].
  cbn [fold_left]. rewrite IH. by destruct o.
Qed.

Lemma get_position_sizes_run g signals :
  s !! signals = Some (DataFrame frame_rows (signals_frame sg)) ->
  Stateful.get_position_sizes g signals symbol1 symbol2 prices capital s
  = match get_position_sizes sg symbol1 symbol2 p capital with
    | Some r =>
        Some (length s,
              s ++ [DataFrame frame_rows
                      (sizes_frame sg symbol1 symbol2
                         (symbol1_shares r, symbol2_shares r))])
    | None => None
    end.
Proof.
  intros Hsig. unfold Stateful.get_position_sizes, get_position_sizes.
  erewrite bind_eq; [|by apply copy_at].
  erewrite bind_eq; [|apply frame_of_at, lookup_fresh].
  cbv beta iota.
  do 2 (erewrite bind_eq; [|apply assign_fresh]).
  rewrite sizes_fold.
  erewrite bind_raise_or.
  2:{ eapply (for_each_sim (fun c => same_symbol = true -> c.1 = c.2) (seq 0 frame_rows)
               (Stateful.get_position_sizes_row (length s) symbol1 symbol2
                  prices capital)
               (fun c i => sizes_body (position sg) symbol1 symbol2 p capital
                             (Some c) i)
               (fun _ => tt) sized)
        with (t := (replicate frame_rows 0%float, replicate frame_rows 0%float)).
      - intros c i Hc _. by apply get_position_sizes_row_sim.
      - intros c i c' Hc _. by apply sizes_body_same.
      - done. }
  unfold fold_some. destruct (fold_left _ _ _) as [c|]; [|done].
  by destruct c.
Qed.

End SizesOnStore.

(** ** [calculate_returns] on the store *)

Section ReturnsOnStore.

Variables (bt : Backtester) (sg : Signals) (symbol1 symbol2 : string).
Variables (p1 p2 : list float).
Variables (s : Store).

Abbreviation result_rows := (length (position sg)).
Abbreviation returns1 := (align result_rows (pct_change p1)).
Abbreviation returns2 := (align result_rows (pct_change p2)).

(** The frame while the loop runs. *)
Abbreviation loop_frame col :=
  (set_column
     (set_column
        (set_column
           (set_column (signals_frame sg) (returns_label symbol1)
                       (FloatColumn returns1))
           (returns_label symbol2) (FloatColumn returns2))
        "position_change" (FloatColumn (diff_abs (position sg))))
     "strategy_return" (FloatColumn col)).

Hypothesis Hsame : symbol1 = symbol2 -> p1 = p2.

Lemma loop_frame_returns1 col :
  get_column (loop_frame col) (returns_label symbol1) = Some (FloatColumn returns1).
Proof.
  rewrite !get_set_ne by label_solve.
  destruct (decide (symbol1 = symbol2)) as [E|E].
  - rewrite (Hsame E). rewrite E. apply get_set_eq.
  - rewrite get_set_ne, get_set_eq; [done|].
    intros H. by apply E, eq_sym, returns_label_inj.
Qed.

Lemma calculate_returns_row_sim col i :
  Stateful.calculate_returns_row (length s) symbol1 symbol2 tt i
    (s ++ [DataFrame result_rows (loop_frame col)])
  = Some (tt, s ++ [DataFrame result_rows
                      (loop_frame (returns_body (position sg) returns1 returns2 col i))]).
Proof.
  unfold Stateful.calculate_returns_row, returns_body.
  erewrite bind_eq;
    [|eapply ints_of_at; [apply lookup_fresh|frame_read]].
  cbn zeta. destruct (zget (position sg) (i - 1) =? 0)%Z.
  - erewrite write_float_fresh by apply get_set_eq. by rewrite set_set.
  - erewrite bind_eq;
      [|eapply floats_of_at; [apply lookup_fresh|frame_read]].
    erewrite bind_eq;
      [|eapply floats_of_at; [apply lookup_fresh|apply loop_frame_returns1]].
    erewrite write_float_fresh by apply get_set_eq. by rewrite set_set.
Qed.

Lemma calculate_returns_run_columns signals prices p :
  s !! signals = Some (DataFrame result_rows (signals_frame sg)) ->
  s !! prices = Some (Prices p) ->
  column p symbol1 = Some p1 -> column p symbol2 = Some p2 ->
  Stateful.calculate_returns bt signals symbol1 symbol2 prices s
  = Some (length s,
          s ++ [DataFrame result_rows
                  (results_frame symbol1 symbol2
                     (returns_of_columns bt sg p1 p2))]).
Proof.
  intros Hsig Hpr H1 H2. unfold Stateful.calculate_returns.
  erewrite bind_eq; [|by apply copy_at].
  erewrite bind_eq; [|apply frame_of_at, lookup_fresh].
  cbv beta iota.
  erewrite bind_eq; [|by apply prices_of_at, lookup_old].
  rewrite H1. erewrite bind_eq; [|reflexivity].
  erewrite bind_eq; [|apply assign_fresh].
  rewrite H2. erewrite bind_eq; [|reflexivity].
  erewrite bind_eq; [|apply assign_fresh].
  erewrite bind_eq;
    [|eapply ints_of_at; [apply lookup_fresh|frame_read]].
  do 2 (erewrite bind_eq; [|apply assign_fresh]).
  erewrite bind_eq.
  2:{ apply (for_each_total (seq 1 (result_rows - 1))
               (Stateful.calculate_returns_row (length s) symbol1 symbol2)
               (returns_body (position sg) returns1 returns2)
               (fun _ => tt)
               (fun col => s ++ [DataFrame result_rows (loop_frame col)])
               ltac:(intros; apply calculate_returns_row_sim)
               (replicate result_rows 0%float)). }
  erewrite bind_eq;
    [|eapply floats_of_at; [apply lookup_fresh|frame_read]].
  do 2 (erewrite bind_eq; [|apply assign_fresh]).
  do 3 (erewrite bind_eq;
          [|eapply floats_of_at; [apply lookup_fresh|frame_read]]).
  erewrite bind_eq; [|apply assign_fresh].
  erewrite bind_eq;
    [|eapply floats_of_at; [apply lookup_fresh|frame_read]].
  erewrite bind_eq; [|apply assign_fresh].
  erewrite bind_eq;
    [|eapply floats_of_at; [apply lookup_fresh|frame_read]].
  erewrite bind_eq; [|apply assign_fresh].
  reflexivity.
Qed.

End ReturnsOnStore.

Lemma calculate_returns_run bt sg symbol1 symbol2 s signals prices p :
  s !! signals = Some (DataFrame (length (position sg)) (signals_frame sg)) ->
  s !! prices = Some (Prices p) ->
  Stateful.calculate_returns bt signals symbol1 symbol2 prices s
  = match calculate_returns bt sg symbol1 symbol2 p with
    | Some res =>
        Some (length s,
              s ++ [DataFrame (length (position sg))
                      (results_frame symbol1 symbol2 res)])
    | None => None
    end.
Proof.
  intros Hsig Hpr. unfold calculate_returns.
  destruct (column p symbol1) as [p1|] eqn:E1.
  - destruct (column p symbol2) as [p2|] eqn:E2.
    + apply calculate_returns_run_columns with (p := p); try done.
      intros E. rewrite E in E1. congruence.
    + unfold Stateful.calculate_returns.
      erewrite bind_eq; [|by apply copy_at].
      erewrite bind_eq; [|apply frame_of_at, lookup_fresh].
      cbv beta iota.
      erewrite bind_eq; [|by apply prices_of_at, lookup_old].
      rewrite E1. erewrite bind_eq; [|reflexivity].
      erewrite bind_eq; [|apply assign_fresh].
      by rewrite E2.
  - unfold Stateful.calculate_returns.
    erewrite bind_eq; [|by apply copy_at].
    erewrite bind_eq; [|apply frame_of_at, lookup_fresh].
    cbv beta iota.
    erewrite bind_eq; [|by apply prices_of_at, lookup_old].
    by rewrite E1.
Qed.

(** ** [run_backtest] and [analyze_performance] on the store *)

Lemma results_frame_floats symbol1 symbol2 res :
  get_column (results_frame symbol1 symbol2 res) "position_change"
  = Some (FloatColumn (position_change res)) /\
  get_column (results_frame symbol1 symbol2 res) "strategy_return"
  = Some (FloatColumn (strategy_return res)) /\
  get_column (results_frame symbol1 symbol2 res) "transaction_costs"
  = Some (FloatColumn (transaction_costs res)) /\
  get_column (results_frame symbol1 symbol2 res) "slippage"
  = Some (FloatColumn (slippage res)) /\
  get_column (results_frame symbol1 symbol2 res) "net_return"
  = Some (FloatColumn (net_return res)) /\
  get_column (results_frame symbol1 symbol2 res) "cumulative_return"
  = Some (FloatColumn (cumulative_return res)) /\
  get_column (results_frame symbol1 symbol2 res) "portfolio_value"
  = Some (FloatColumn (portfolio_value res)).
Proof.
  unfold results_frame. cbn [fold_left fst snd].
  repeat split; frame_read.
Qed.

Lemma results_frame_signals symbol1 symbol2 res :
  get_column (results_frame symbol1 symbol2 res) "spread"
  = Some (FloatColumn (spread (base res))) /\
  get_column (results_frame symbol1 symbol2 res) "zscore"
  = Some (FloatColumn (zscore (base res))) /\
  get_column (results_frame symbol1 symbol2 res) "position"
  = Some (IntColumn (position (base res))) /\
  get_column (results_frame symbol1 symbol2 res) "entry_signal"
  = Some (IntColumn (entry_signal (base res))) /\
  get_column (results_frame symbol1 symbol2 res) "exit_signal"
  = Some (IntColumn (exit_signal (base res))).
Proof.
  unfold results_frame. cbn [fold_left fst snd].
  repeat split; frame_read.
Qed.

Lemma run_backtest_run bt sg symbol1 symbol2 s signals prices p :
  s !! signals = Some (DataFrame (length (position sg)) (signals_frame sg)) ->
  s !! prices = Some (Prices p) ->
  Stateful.run_backtest bt signals symbol1 symbol2 prices s
  = match run_backtest bt sg symbol1 symbol2 p with
    | Some b =>
        Some (summary_of (length s) b,
              s ++ [DataFrame (length (position sg))
                      (results_frame symbol1 symbol2 (results b))])
    | None => None
    end.
Proof.
  intros Hsig Hpr. unfold Stateful.run_backtest, run_backtest.
  erewrite bind_raise_or
    with (abs := fun _ : Results => length s)
         (sto := fun res => s ++ [DataFrame (length (position sg))
                                    (results_frame symbol1 symbol2 res)]);
    [|by apply calculate_returns_run].
  destruct (calculate_returns bt sg symbol1 symbol2 p) as [res|]; [|done].
  cbn [mbind option_bind].
  destruct (results_frame_floats symbol1 symbol2 res)
    as (_ & _ & Htc & Hsl & _ & Hcum & Hpv).
  destruct (results_frame_signals symbol1 symbol2 res)
    as (_ & _ & _ & Hent & _).
  erewrite bind_eq; [|eapply floats_of_at; [apply lookup_fresh|exact Hcum]].
  destruct (last (cumulative_return res)) as [total|]; [|done].
  erewrite bind_eq; [|reflexivity].
  erewrite bind_eq; [|eapply floats_of_at; [apply lookup_fresh|exact Hpv]].
  cbn [mbind option_bind].
  destruct (last (portfolio_value res)) as [final|]; [|done].
  erewrite bind_eq; [|reflexivity].
  erewrite bind_eq; [|eapply ints_of_at; [apply lookup_fresh|exact Hent]].
  erewrite bind_eq; [|eapply floats_of_at; [apply lookup_fresh|exact Htc]].
  erewrite bind_eq; [|eapply floats_of_at; [apply lookup_fresh|exact Hsl]].
  reflexivity.
Qed.

Lemma analyze_performance_run kind symbol1 symbol2 res periods s results :
  s !! results
  = Some (DataFrame (length (position (base res)))
            (results_frame symbol1 symbol2 res)) ->
  Stateful.analyze_performance kind results periods s
  = match analyze_performance kind res periods with
    | Some m => Some (m, s)
    | None => None
    end.
Proof.
  intros Hres. unfold Stateful.analyze_performance, analyze_performance.
  destruct (results_frame_floats symbol1 symbol2 res)
    as (_ & _ & _ & _ & Hnet & Hcum & Hpv).
  destruct (results_frame_signals symbol1 symbol2 res)
    as (_ & _ & Hpos & _).
  erewrite bind_eq; [|eapply floats_of_at; [exact Hres|exact Hnet]].
  erewrite bind_eq; [|eapply floats_of_at; [exact Hres|exact Hpv]].
  erewrite bind_eq; [|eapply floats_of_at; [exact Hres|exact Hcum]].
  destruct (last (cumulative_return res)) as [total|]; [|done].
  erewrite bind_eq; [|reflexivity]. cbn [mbind option_bind].
  destruct (py_float periods) as [f|]; [|done].
  erewrite bind_eq; [|reflexivity]. cbn [mbind option_bind].
  destruct (np_sqrt_int periods) as [root|]; [|done].
  erewrite bind_eq; [|reflexivity]. cbn [mbind option_bind].
  destruct (calculate_sharpe_ratio _ _ _) as [sharpe|]; [|done].
  erewrite bind_eq; [|reflexivity]. cbn [mbind option_bind].
  destruct (calculate_sortino_ratio _ _ _) as [sortino|]; [|done].
  erewrite bind_eq; [|reflexivity]. cbn [mbind option_bind].
  destruct (calculate_max_drawdown _ _) as [d|]; [|done].
  erewrite bind_eq; [|reflexivity]. cbn [mbind option_bind].
  destruct (calculate_calmar_ratio _ _ _ _) as [calmar|]; [|done].
  erewrite bind_eq; [|reflexivity]. cbn [mbind option_bind].
  erewrite bind_eq; [|by apply frame_of_at].
  cbv beta iota.
  erewrite bind_eq; [|eapply ints_of_at; [exact Hres|exact Hpos]].
  reflexivity.
Qed.

(** ** The selector on the store *)

Section SelectorOnStore.

Variable corr : list float -> list float -> option float.
Variable coint : list float -> list float -> option (float * float).
Variable ols_slope : list float -> list float -> option float.
Variable ols_theta : list float -> list float -> option float.

Variables (s : list Object) (self prices : ref).
Variables (threshold : float) (old : ref).
Variable p : PriceTable.
Hypothesis Hself : s !! self = Some (Selector threshold old).
Hypothesis Hprices : s !! prices = Some (Prices p).

Abbreviation strict_found mc :=
  (find_cointegrated_pairs corr coint ols_slope ols_theta
     (mkSelector threshold []) p mc).1.
Abbreviation lenient_found mc mp :=
  (find_correlation_based_pairs corr coint ols_slope ols_theta p mc mp).

(** The store after [self.pairs] has been assigned the reference of a
    new list. *)
Abbreviation scanned :=
  (<[self:=Selector threshold (length s)]> s).

Lemma fold_append_omap {A B} (f : A -> option B) (l : list A) (acc : list B) :
  fold_left (fun acc a => match f a with Some b => acc ++ [b] | None => acc end)
            l acc
  = acc ++ omap f l.
Proof.
  revert acc. induction l as [|a l IH]; intros acc; cbn.
  - by rewrite app_nil_r.
  - rewrite IH. destruct (f a); [|done]. by rewrite <- app_assoc.
Qed.

Lemma self_lt : self < length s.
Proof. by eapply lookup_lt_Some. Qed.

Lemma self_not_prices : self <> prices.
Proof. intros E. rewrite E in Hself. congruence. Qed.

Lemma find_cointegrated_pairs_run mc :
  Stateful.find_cointegrated_pairs corr coint ols_slope ols_theta
    self prices mc s
  = Some (length s, scanned ++ [PairList (strict_found mc)]).
Proof.
  unfold Stateful.find_cointegrated_pairs.
  erewrite bind_eq; [|by apply prices_of_at].
  cbn zeta. erewrite bind_eq; [|reflexivity].
  erewrite bind_eq.
  2:{ apply (for_each_total (combinations2 (map fst p))
               (Stateful.find_cointegrated_pairs_row corr coint ols_slope
                  ols_theta self p mc (length s))
               (fun acc ss =>
                  match fst <$> test_pair corr coint ols_slope ols_theta p mc
                                  threshold ss.1 ss.2 with
                  | Some b => acc ++ [b]
                  | None => acc
                  end)
               (fun _ => tt)
               (fun acc => s ++ [PairList acc])).
      intros acc ss _. unfold Stateful.find_cointegrated_pairs_row.
      erewrite bind_eq; [|by apply load_at, lookup_old].
      cbv beta iota.
      destruct (test_pair _ _ _ _ _ _ _ _ _) as [[info st]|];
        [apply append_fresh|reflexivity]. }
  rewrite (fold_append_omap
             (fun ss : string * string =>
                fst <$> test_pair corr coint ols_slope ols_theta p mc
                          threshold ss.1 ss.2)).
  cbn [app].
  erewrite bind_eq; [|apply items_of_at, lookup_fresh].
  erewrite bind_eq; [|apply update_fresh].
  erewrite bind_eq; [|by apply load_at, lookup_old].
  cbv beta iota.
  erewrite bind_eq; [|by eapply update_old].
  reflexivity.
Qed.

Lemma find_correlation_based_pairs_run (t : Store) r mc mp :
  t !! prices = Some (Prices p) ->
  Stateful.find_correlation_based_pairs corr coint ols_slope ols_theta
    r prices mc mp t
  = Some (length t, t ++ [PairList (lenient_found mc mp)]).
Proof.
  intros Hp. unfold Stateful.find_correlation_based_pairs.
  erewrite bind_eq; [|by apply prices_of_at].
  cbn zeta. erewrite bind_eq; [|reflexivity].
  erewrite bind_eq.
  2:{ apply (for_each_total (combinations2 (map fst p))
               (Stateful.find_correlation_based_pairs_row corr coint
                  ols_slope ols_theta p mc mp (length t))
               (fun acc ss =>
                  match ('(info, st) ←
                           test_pair corr coint ols_slope ols_theta p mc mp
                                     ss.1 ss.2;
                         if (stat_half_life st <? 252)%float
                            && (0 <? stat_half_life st)%float
                         then Some info else None) with
                  | Some b => acc ++ [b]
                  | None => acc
                  end)
               (fun _ => tt)
               (fun acc => t ++ [PairList acc])).
      intros acc ss _. unfold Stateful.find_correlation_based_pairs_row.
      destruct (test_pair _ _ _ _ _ _ _ _ _) as [[info st]|];
        [|reflexivity].
      cbn [mbind option_bind].
      destruct (_ && _); [apply append_fresh|reflexivity]. }
  rewrite (fold_append_omap
             (fun ss : string * string =>
                '(info, st) ←
                  test_pair corr coint ols_slope ols_theta p mc mp ss.1 ss.2;
                if (stat_half_life st <? 252)%float
                   && (0 <? stat_half_life st)%float
                then Some info else None)).
  cbn [app].
  erewrite bind_eq; [|apply items_of_at, lookup_fresh].
  erewrite bind_eq; [|apply update_fresh].
  reflexivity.
Qed.

Lemma select_best_pair_run mc use_fallback :
  Stateful.select_best_pair corr coint ols_slope ols_theta
    self prices mc use_fallback s
  = Some ((select_best_pair corr coint ols_slope ols_theta
             (mkSelector threshold []) p mc use_fallback).1,
          scanned ++ PairList (strict_found mc)
                  :: map PairList (fallback_lists corr coint ols_slope ols_theta
                          threshold p mc use_fallback)).
Proof.
  unfold Stateful.select_best_pair, select_best_pair, fallback_lists.
  erewrite bind_eq; [|apply find_cointegrated_pairs_run].
  assert (Hlen : length scanned = length s) by apply length_insert.
  assert (Hpr : scanned !! prices = Some (Prices p)).
  { rewrite list_lookup_insert_ne; [done|apply self_not_prices]. }
  erewrite bind_eq;
    [|apply items_of_at, list_lookup_middle; by rewrite length_insert].
  destruct (find_cointegrated_pairs _ _ _ _ _ _ _) as [found self'] eqn:Ef.
  clear Ef. cbn [fst].
  destruct found as [|b l].
  - destruct use_fallback.
    + set (t := scanned ++ [PairList []]).
      assert (Ht : t !! prices = Some (Prices p)) by (by apply lookup_old).
      destruct (lenient_found mc 0.20%float) as [|b l] eqn:E1.
      * erewrite bind_eq.
        2:{ erewrite bind_eq; [|by apply find_correlation_based_pairs_run].
            erewrite bind_eq; [|apply items_of_at, lookup_fresh].
            rewrite E1.
            apply find_correlation_based_pairs_run. by apply lookup_old. }
        erewrite bind_eq; [|apply items_of_at, lookup_fresh].
        unfold t. rewrite <- !app_assoc. cbn [app map].
        by destruct (lenient_found 0.6%float 0.30%float).
      * erewrite bind_eq.
        2:{ erewrite bind_eq; [|by apply find_correlation_based_pairs_run].
            erewrite bind_eq; [|apply items_of_at, lookup_fresh].
            rewrite E1. reflexivity. }
        erewrite bind_eq; [|apply items_of_at, lookup_fresh].
        unfold t. rewrite <- !app_assoc. reflexivity.
    + erewrite bind_eq; [|reflexivity].
      erewrite bind_eq;
        [|apply items_of_at, list_lookup_middle; by rewrite length_insert].
      reflexivity.
  - erewrite bind_eq; [|reflexivity].
    erewrite bind_eq;
      [|apply items_of_at, list_lookup_middle; by rewrite length_insert].
    reflexivity.
Qed.

End SelectorOnStore.

Lemma selector_pairs_scanned (s : list Object) self threshold old l rest :
  s !! self = Some (Selector threshold old) ->
  selector_pairs (<[self:=Selector threshold (length s)]> s
                  ++ PairList l :: rest) self
  = Some l.
Proof.
  intros Hself. unfold selector_pairs.
  assert (Hlt : self < length s) by (by eapply lookup_lt_Some).
  rewrite lookup_app_l by (by rewrite length_insert).
  rewrite list_lookup_insert_eq by done.
  rewrite (list_lookup_middle _ rest (PairList l) (length s))
    by (by rewrite length_insert).
  reflexivity.
Qed.

(** C9, amended.  On a store of objects, every stage is a function of
    the objects its arguments refer to and returns a newly allocated
    object, leaving every object of the store as it was:
    [generate_signals], [get_position_sizes], [calculate_returns] and
    [run_backtest] allocate one frame (the copy they fill), whose content
    is given by the arguments alone; [analyze_performance] leaves the
    store as it is; [find_correlation_based_pairs] allocates one list.
    The exception is the strict scan: [find_cointegrated_pairs] allocates
    the list it returns and makes the selector object refer to it, so
    the selector's pairs are the returned list afterwards, and so does
    [select_best_pair] through it (the lists of its fallback scans are
    allocated after it and the selector keeps the strict one).  The scan
    keeps [pvalue_threshold] and every other object, and neither its
    result nor the store it leaves depends on the list the selector
    referred to before. *)
Theorem stages_state_effects
  (expanding_mean expanding_std : list float -> list float)
  (rolling_mean rolling_std : nat -> list float -> list float)
  (corr : list float -> list float -> option float)
  (coint : list float -> list float -> option (float * float))
  (ols_slope ols_theta : list float -> list float -> option float)
  (s : Store) :
  (forall g spread hr sp,
     s !! spread = Some (Series sp) ->
     Stateful.generate_signals expanding_mean expanding_std rolling_mean
       rolling_std g spread hr s
     = Some (length s,
             s ++ [DataFrame (length sp)
                     (signals_frame
                        (generate_signals expanding_mean expanding_std
                           rolling_mean rolling_std g sp hr))])) /\
  (forall g signals symbol1 symbol2 prices capital sg p,
     s !! signals
     = Some (DataFrame (length (position sg)) (signals_frame sg)) ->
     s !! prices = Some (Prices p) ->
     Stateful.get_position_sizes g signals symbol1 symbol2 prices capital s
     = match get_position_sizes sg symbol1 symbol2 p capital with
       | Some r =>
           Some (length s,
                 s ++ [DataFrame (length (position sg))
                         (sizes_frame sg symbol1 symbol2
                            (symbol1_shares r, symbol2_shares r))])
       | None => None
       end) /\
  (forall bt signals symbol1 symbol2 prices sg p,
     s !! signals
     = Some (DataFrame (length (position sg)) (signals_frame sg)) ->
     s !! prices = Some (Prices p) ->
     Stateful.calculate_returns bt signals symbol1 symbol2 prices s
     = match calculate_returns bt sg symbol1 symbol2 p with
       | Some res =>
           Some (length s,
                 s ++ [DataFrame (length (position sg))
                         (results_frame symbol1 symbol2 res)])
       | None => None
       end) /\
  (forall bt signals symbol1 symbol2 prices sg p,
     s !! signals
     = Some (DataFrame (length (position sg)) (signals_frame sg)) ->
     s !! prices = Some (Prices p) ->
     Stateful.run_backtest bt signals symbol1 symbol2 prices s
     = match run_backtest bt sg symbol1 symbol2 p with
       | Some b =>
           Some (summary_of (length s) b,
                 s ++ [DataFrame (length (position sg))
                         (results_frame symbol1 symbol2 (results b))])
       | None => None
       end) /\
  (forall kind results periods symbol1 symbol2 res,
     s !! results
     = Some (DataFrame (length (position (base res)))
               (results_frame symbol1 symbol2 res)) ->
     Stateful.analyze_performance kind results periods s
     = match analyze_performance kind res periods with
       | Some m => Some (m, s)
       | None => None
       end) /\
  (forall self prices min_correlation max_pvalue p,
     s !! prices = Some (Prices p) ->
     Stateful.find_correlation_based_pairs corr coint ols_slope ols_theta
       self prices min_correlation max_pvalue s
     = Some (length s,
             s ++ [PairList
                     (find_correlation_based_pairs corr coint ols_slope
                        ols_theta p min_correlation max_pvalue)])) /\
  (forall self prices min_correlation threshold old p,
     s !! self = Some (Selector threshold old) ->
     s !! prices = Some (Prices p) ->
     let found :=
       (find_cointegrated_pairs corr coint ols_slope ols_theta
          (mkSelector threshold []) p min_correlation).1 in
     let s' := <[self:=Selector threshold (length s)]> s
               ++ [PairList found] in
     Stateful.find_cointegrated_pairs corr coint ols_slope ols_theta
       self prices min_correlation s
     = Some (length s, s') /\
     selector_pairs s' self = Some found /\
     (forall r, r <> self -> r < length s -> s' !! r = s !! r)) /\
  (forall self prices min_correlation use_fallback threshold old p,
     s !! self = Some (Selector threshold old) ->
     s !! prices = Some (Prices p) ->
     let found :=
       (find_cointegrated_pairs corr coint ols_slope ols_theta
          (mkSelector threshold []) p min_correlation).1 in
     let s' := <[self:=Selector threshold (length s)]> s
               ++ PairList found
                  :: map PairList
                       (fallback_lists corr coint ols_slope ols_theta
                          threshold p min_correlation use_fallback) in
     Stateful.select_best_pair corr coint ols_slope ols_theta
       self prices min_correlation use_fallback s
     = Some ((select_best_pair corr coint ols_slope ols_theta
                (mkSelector threshold []) p min_correlation use_fallback).1,
             s') /\
     selector_pairs s' self = Some found /\
     (forall r, r <> self -> r < length s -> s' !! r = s !! r)).
Proof.
  split; [intros; by apply generate_signals_run|].
  split; [intros; by apply get_position_sizes_run|].
  split; [intros; by apply calculate_returns_run|].
  split; [intros; by apply run_backtest_run|].
  split; [intros; by eapply analyze_performance_run|].
  split; [intros; by apply find_correlation_based_pairs_run|].
  split.
  - intros self prices mc threshold old p Hself Hpr found s'.
    split; [by eapply find_cointegrated_pairs_run|].
    split; [by eapply selector_pairs_scanned|].
    intros r Hne Hlt. unfold s'. change Store with (list Object).
    rewrite lookup_app_l by (by rewrite length_insert).
    by apply list_lookup_insert_ne.
  - intros self prices mc fb threshold old p Hself Hpr found s'.
    split; [by eapply select_best_pair_run|].
    split; [by eapply selector_pairs_scanned|].
    intros r Hne Hlt. unfold s'. change Store with (list Object).
    rewrite lookup_app_l by (by rewrite length_insert).
    by apply list_lookup_insert_ne.
Qed.

(** The strict scan changes the selector object: its pairs are empty
    before the call and hold the pair found after it. *)
Lemma strict_scan_counterexample :
  selector_pairs sample_store 2 = Some [] /\
  exists r s',
    Stateful.find_cointegrated_pairs sample_corr sample_coint sample_slope
      sample_theta 2 0 0.7%float sample_store
    = Some (r, s') /\
    s' !! 2 <> sample_store !! 2 /\
    selector_pairs s' 2 <> Some [].
Proof.
  split; [reflexivity|].
  eexists _, _. split; [vm_compute; reflexivity|].
  split; vm_compute; discriminate.
Qed.
